(** * dnsproxy: a shallow embedding of the classification engine

    The development follows the Go sources of the [dnsproxy] package:
    the DNS message utilities and the upstream transport
    (libdns_utils.go), the Google DoH client (dns_over_https/google/lib.go),
    the DNS front (dnsserve.go), the start-up gate (globals), the two
    caches and the SOCKS5/HTTP proxy front.

    Go values are modelled as they are in the program: a [net.IP] is a byte
    slice that may be nil, a [dns.RR] is an interface value whose dynamic
    type is one of the record structs, a [*dns.Msg] is a record, and a Go
    function that can panic, or block for ever, returns an [outcome]. *)

From Stdlib Require Import ZArith String Ascii List Bool Lia.
From stdpp Require Import base option list gmap strings pretty.

(** ** Outcomes of Go calls *)

(** Go's [error] values; only their identity matters here. *)
Definition error := string.

(** A call returns, panics (a failed type assertion, an index out of
    range), or never returns (a receive on a channel nobody sends on). *)
Inductive outcome (A : Type) : Type :=
| Done (a : A)
| Panic
| Hang.
Arguments Done {A} a.
Arguments Panic {A}.
Arguments Hang {A}.

#[global] Instance outcome_ret : MRet outcome := @Done.
#[global] Instance outcome_bind : MBind outcome := λ A B f x,
  match x with
  | Done a => f a
  | Panic => Panic
  | Hang => Hang
  end.

(** ** Library functions the package calls

    The Go standard library and [github.com/miekg/dns] are not part of the
    package.  What the package needs from them and what is not fixed by
    their documented contract is kept abstract. *)
Class GoLib := {
  (** [net.IP.String] *)
  IP_String : option (list Z) → string;
  (** [net.ParseIP] *)
  ParseIP : string → option (list Z);
  (** [dns.Fqdn] *)
  Fqdn : string → string;
  (** the keys of [dns.TypeToRR] other than A, AAAA and OPT *)
  TypeToRR_other : Z → bool;
  (** [dns.Msg.IsEdns0] looks for an OPT record in the additional section;
      library versions differ on the direction of the scan *)
  IsEdns0_from_end : bool
}.

(** ** net.IP *)

(** A [net.IP] is a [[]byte]; [None] is the nil slice. *)
Definition IP := option (list Z).

Definition IPv4len : nat := 4.
Definition IPv6len : nat := 16.

Definition ip_len (ip : IP) : nat :=
  match ip with
  | None => 0
  | Some b => length b
  end.

Definition isZeros (p : list Z) : bool := forallb (Z.eqb 0) p.

(** [func (ip IP) To4() IP] *)
Definition To4 (ip : IP) : IP :=
  match ip with
  | None => None
  | Some b =>
      if Nat.eqb (length b) IPv4len then Some b
      else if Nat.eqb (length b) IPv6len
              && isZeros (take 10 b)
              && (nth 10 b 0 =? 255)%Z
              && (nth 11 b 0 =? 255)%Z
           then Some (take 4 (drop 12 b))
           else None
  end.

Definition is_nil {A} (x : option A) : bool :=
  match x with
  | None => true
  | Some _ => false
  end.

(** ** dns.RR and dns.Msg *)

Definition TypeA : Z := 1.
Definition TypeAAAA : Z := 28.
Definition TypeOPT : Z := 41.
Definition ClassINET : Z := 1.
Definition EDNS0SUBNET : Z := 8.
Definition RcodeSuccess : Z := 0.
Definition OpcodeQuery : Z := 0.

Record RR_Header := mkHdr {
  Name : string;
  Rrtype : Z;
  Class_ : Z;
  Ttl : Z;
  Rdlength : Z
}.

(** The fields of [dns.EDNS0_SUBNET] that the package assigns. *)
Record EDNS0_SUBNET := mkSubnet {
  Code : Z;
  Family : Z;
  SourceNetmask : Z;
  SourceScope : Z;
  Address : IP
}.

(** [dns.EDNS0]: an option of an OPT record. *)
Inductive EDNS0 :=
| Opt_SUBNET (s : EDNS0_SUBNET)
| Opt_other (code : Z) (data : list Z).

(** [dns.RR]: the constructor is the dynamic type of the interface value. *)
Inductive RR :=
| RR_A (h : RR_Header) (a : IP)
| RR_AAAA (h : RR_Header) (aaaa : IP)
| RR_OPT (h : RR_Header) (opts : list EDNS0)
| RR_RFC3597 (h : RR_Header) (rdata : string)
| RR_other (h : RR_Header).

Definition Header (rr : RR) : RR_Header :=
  match rr with
  | RR_A h _ | RR_AAAA h _ | RR_OPT h _ | RR_RFC3597 h _ | RR_other h => h
  end.

Definition set_Header (h : RR_Header) (rr : RR) : RR :=
  match rr with
  | RR_A _ a => RR_A h a
  | RR_AAAA _ a => RR_AAAA h a
  | RR_OPT _ o => RR_OPT h o
  | RR_RFC3597 _ d => RR_RFC3597 h d
  | RR_other _ => RR_other h
  end.

Definition set_Name (n : string) (rr : RR) : RR :=
  let h := Header rr in
  set_Header (mkHdr n (Rrtype h) (Class_ h) (Ttl h) (Rdlength h)) rr.

Record Question := mkQuestion {
  QName : string;
  Qtype : Z;
  Qclass : Z
}.

Record MsgHdr := mkMsgHdr {
  Id : Z;
  Response : bool;
  Opcode : Z;
  Authoritative : bool;
  Truncated : bool;
  RecursionDesired : bool;
  RecursionAvailable : bool;
  Zero : bool;
  AuthenticatedData : bool;
  CheckingDisabled : bool;
  Rcode : Z
}.

Record Msg := mkMsg {
  MsgHdr_ : MsgHdr;
  Compress : bool;
  Questions : list Question;
  Answer : list RR;
  Ns : list RR;
  Extra : list RR
}.

Definition set_Extra (e : list RR) (m : Msg) : Msg :=
  mkMsg (MsgHdr_ m) (Compress m) (Questions m) (Answer m) (Ns m) e.

Definition set_Answer (a : list RR) (m : Msg) : Msg :=
  mkMsg (MsgHdr_ m) (Compress m) (Questions m) a (Ns m) (Extra m).

(** ** Message utilities (libdns_utils.go) *)

Fixpoint find_index {A} (p : A → bool) (l : list A) : option nat :=
  match l with
  | [] => None
  | x :: l' => if p x then Some 0 else S <$> find_index p l'
  end.

Fixpoint find_last_index {A} (p : A → bool) (l : list A) : option nat :=
  match l with
  | [] => None
  | x :: l' =>
      match find_last_index p l' with
      | Some i => Some (S i)
      | None => if p x then Some 0 else None
      end
  end.

Definition is_opt_hdr (rr : RR) : bool := (Rrtype (Header rr) =? TypeOPT)%Z.

(** The position [dns.Msg.IsEdns0] stops at. *)
Definition opt_scan `{GoLib} : list RR → option nat :=
  (if IsEdns0_from_end then find_last_index else find_index) is_opt_hdr.

(** [func (dns *Msg) IsEdns0() *OPT]: the record whose header type is OPT,
    asserted to be an [*OPT]; the assertion panics on another dynamic
    type.  The result is the position of the record, so that the caller's
    writes through the pointer can be put back into the message. *)
Definition IsEdns0 `{GoLib} (m : Msg) : outcome (option (nat * RR_Header * list EDNS0)) :=
  match opt_scan (Extra m) with
  | None => Done None
  | Some i =>
      match Extra m !! i with
      | Some (RR_OPT h opts) => Done (Some (i, h, opts))
      | _ => Panic
      end
  end.

(** The five assignments at the end of [MsgSetECSWithAddr]. *)
Definition ecs_assign (addr : IP) : EDNS0_SUBNET :=
  {| Code := EDNS0SUBNET;
     Address := addr;
     Family := if is_nil (To4 addr) then 2 else 1;
     SourceNetmask := if is_nil (To4 addr) then 128 else 32;
     SourceScope := 0 |}.

(** The loop over [option.Option] with its [break], and the append when no
    subnet option was found. *)
Fixpoint set_subnet (opts : list EDNS0) (addr : IP) : list EDNS0 :=
  match opts with
  | [] => [Opt_SUBNET (ecs_assign addr)]
  | Opt_SUBNET _ :: rest => Opt_SUBNET (ecs_assign addr) :: rest
  | o :: rest => o :: set_subnet rest addr
  end.

(** The header of the OPT record that [MsgSetECSWithAddr] creates. *)
Definition new_opt_hdr : RR_Header := mkHdr "." TypeOPT 0 0 0.

(** [func MsgSetECSWithAddr(m *dns.Msg, addr net.IP)]; the message is
    updated in place, here the updated message is returned. *)
Definition MsgSetECSWithAddr `{GoLib} (m : Msg) (addr : IP) : outcome Msg :=
  match addr with
  | None => Done m
  | Some _ =>
      o ← IsEdns0 m;
      match o with
      | Some (i, h, opts) =>
          Done (set_Extra (<[i := RR_OPT h (set_subnet opts addr)]> (Extra m)) m)
      | None =>
          Done (set_Extra (Extra m ++ [RR_OPT new_opt_hdr (set_subnet [] addr)]) m)
      end
  end.

(** Two calls in a row on the same message. *)
Definition MsgSetECSWithAddr_twice `{GoLib} (m : Msg) (addr : IP) : outcome Msg :=
  m' ← MsgSetECSWithAddr m addr; MsgSetECSWithAddr m' addr.

(** The records of the additional section with an OPT header, and the
    subnet options they hold. *)
Definition opt_records (m : Msg) : list RR :=
  filter (λ rr, is_opt_hdr rr = true) (Extra m).

Fixpoint subnet_options (opts : list EDNS0) : list EDNS0_SUBNET :=
  match opts with
  | [] => []
  | Opt_SUBNET s :: rest => s :: subnet_options rest
  | Opt_other _ _ :: rest => subnet_options rest
  end.

Definition subnets_of_rr (rr : RR) : list EDNS0_SUBNET :=
  match rr with
  | RR_OPT _ opts => subnet_options opts
  | _ => []
  end.

Definition subnets_of (m : Msg) : list EDNS0_SUBNET :=
  concat (map subnets_of_rr (opt_records m)).

(** Every record with an OPT header is an [*OPT]. *)
Definition opt_typed (rr : RR) : bool :=
  match rr with
  | RR_OPT _ _ => true
  | _ => negb (is_opt_hdr rr)
  end.

(** What the specification promises of a message after the ECS has been
    set: one OPT record, holding one subnet option, the one for [addr]. *)
Definition ecs_is_set (m : Msg) (addr : IP) : Prop :=
  length (opt_records m) = 1 ∧ subnets_of m = [ecs_assign addr].

(** The request holds a subnet option in the OPT record that
    [IsEdns0] returns. *)
Definition has_ecs_option `{GoLib} (req : Msg) : bool :=
  match IsEdns0 req with
  | Done (Some (_, _, opts)) =>
      negb (Nat.eqb (length (subnet_options opts)) 0)
  | _ => false
  end.

(** ** Transports and caches *)

(** [type transport int8]: [_TRANS_DIRECT] is 0, [_TRANS_PROXY] is 1. *)
Inductive transport :=
| _TRANS_DIRECT
| _TRANS_PROXY.

#[global] Instance transport_eq_dec : EqDecision transport.
Proof. solve_decision. Defined.

(** The store both caches wrap: [cache.Cache] of
    [github.com/patrickmn/go-cache].  Its sources are not among the
    package's; the definitions below follow the library (cache.go).  An
    item is kept with its [Expiration], the time after which it counts as
    expired, 0 for an item that never expires. *)
Record Cache (V : Type) := mkCache {
  defaultExpiration : Z;
  items : gmap string (V * Z)
}.
Arguments mkCache {V} _ _.
Arguments defaultExpiration {V} _.
Arguments items {V} _.

(** [cache.New]; the janitor's interval does not change what a lookup
    returns. *)
Definition cache_New {V} (defaultExpiration cleanupInterval : Z) : Cache V :=
  mkCache defaultExpiration ∅.

(** The test of the library for an item that has expired:
    [item.Expiration > 0 && now > item.Expiration]. *)
Definition item_expired (expiration now : Z) : bool :=
  (0 <? expiration)%Z && (expiration <? now)%Z.

(** [func (c *cache) Get(k string) (interface{}, bool)], and the [get] that
    [Add] calls: the object of the item under [k], unless the item has
    expired. *)
Definition cache_Get {V} (k : string) (now : Z) (c : Cache V) : option V :=
  match items c !! k with
  | Some (x, expiration) =>
      if item_expired expiration now then None else Some x
  | None => None
  end.

(** [func (c *cache) set(k string, x interface{}, d time.Duration)] with
    [d = DefaultExpiration], as both wrappers call it through [Add]: the
    item replaces what is under [k]; it expires after the cache's default
    duration when that is positive, and never otherwise. *)
Definition cache_set {V} (k : string) (x : V) (now : Z) (c : Cache V)
  : Cache V :=
  let e := if (0 <? defaultExpiration c)%Z
           then (now + defaultExpiration c)%Z else 0%Z in
  mkCache (defaultExpiration c) (<[k := (x, e)]> (items c)).

(** [func (c *cache) Add(k string, x interface{}, d time.Duration) error]:
    the item is stored only when [get] finds none under [k], that is when
    the key is absent or its item has expired; otherwise the cache is left
    as it is and the error [Item k already exists] is returned. *)
Definition cache_Add {V} (k : string) (x : V) (now : Z) (c : Cache V)
  : Cache V * option error :=
  match cache_Get k now c with
  | Some _ => (c, Some ("Item " +:+ k +:+ " already exists"))
  | None => (cache_set k x now c, None)
  end.

(** [func (c *cache) DeleteExpired()], one run of the janitor. *)
Definition cache_sweep {V} (now : Z) (c : Cache V) : Cache V :=
  mkCache (defaultExpiration c)
          (filter (λ kv, item_expired (snd (snd kv)) now = false) (items c)).

(** The [Expiration] of the item under [k]. *)
Definition cache_expires {V} (k : string) (c : Cache V) : option Z :=
  snd <$> items c !! k.

(** [type ipcache struct { inner *cache.Cache }] *)
Record ipcache := mkIpcache {
  ip_inner : option (Cache transport)
}.

Definition NewIpcache (defaultExpiration cleanupInterval : Z) : ipcache :=
  mkIpcache (Some (cache_New defaultExpiration cleanupInterval)).

(** [func (c ipcache) Add(ip string, t transport)]; a call through a nil
    [inner] panics, and the error of the library's [Add] is dropped.  The
    clock is an argument. *)
Definition ipcache_Add (c : ipcache) (ip : string) (t : transport) (now : Z)
  : outcome ipcache :=
  if bool_decide (ip = "") then Done c
  else match ip_inner c with
       | None => Panic
       | Some s => Done (mkIpcache (Some (fst (cache_Add ip t now s))))
       end.

(** [func (c ipcache) Get(ip string) (transport, bool)]: [Some t] is
    [(t, true)], [None] is [(0, false)]. *)
Definition ipcache_Get (c : ipcache) (ip : string) (now : Z)
  : outcome (option transport) :=
  match ip_inner c with
  | None => Panic
  | Some s => Done (cache_Get ip now s)
  end.

(** [type domaincacheCell struct { ans dns.RR; trans transport }] *)
Record domaincacheCell := mkCell {
  ans : RR;
  trans : transport
}.

(** [type domaincache struct { inner *cache.Cache }] *)
Record domaincache := mkDomaincache {
  domain_inner : option (Cache domaincacheCell)
}.

Definition NewDomaincache (defaultExpiration cleanupInterval : Z) : domaincache :=
  mkDomaincache (Some (cache_New defaultExpiration cleanupInterval)).

(** The write [answer.Header().Name = name] of [domaincache.Add]: the
    record behind [answer] as every holder of it sees it after the call. *)
Definition normalize_owner `{GoLib} (domain : string) (answer : RR) : RR :=
  if bool_decide (domain = "") then answer
  else if bool_decide (Fqdn domain ≠ Name (Header answer))
       then set_Name (Fqdn domain) answer
       else answer.

(** [func (c domaincache) Add(domain string, answer dns.RR, t transport)];
    returns the record behind [answer] and the cache after the call.  The
    owner name is written before the library's [Add] is called, whose error
    is dropped. *)
Definition domaincache_Add `{GoLib} (c : domaincache) (domain : string)
    (answer : RR) (t : transport) (now : Z) : outcome (RR * domaincache) :=
  if bool_decide (domain = "") then Done (answer, c)
  else
    let answer' := normalize_owner domain answer in
    match domain_inner c with
    | None => Panic
    | Some s =>
        Done (answer',
              mkDomaincache
                (Some (fst (cache_Add domain (mkCell answer' t) now s))))
    end.

(** [func (c domaincache) Get(domain string)], which returns a pointer to
    the cell and whether it was a hit *)
Definition domaincache_Get (c : domaincache) (domain : string) (now : Z)
  : outcome (option domaincacheCell) :=
  match domain_inner c with
  | None => Panic
  | Some s => Done (cache_Get domain now s)
  end.

(** The states of the two caches that the package can build: a new cache,
    then calls of [Add] and runs of the sweeper. *)
Inductive ipcache_reachable : ipcache → Prop :=
| ipcache_reach_new d i : ipcache_reachable (NewIpcache d i)
| ipcache_reach_add c ip t now c' :
    ipcache_reachable c → ipcache_Add c ip t now = Done c' →
    ipcache_reachable c'
| ipcache_reach_sweep s now :
    ipcache_reachable (mkIpcache (Some s)) →
    ipcache_reachable (mkIpcache (Some (cache_sweep now s))).

Inductive domaincache_reachable `{GoLib} : domaincache → Prop :=
| domaincache_reach_new d i : domaincache_reachable (NewDomaincache d i)
| domaincache_reach_add c domain answer t now answer' c' :
    domaincache_reachable c →
    domaincache_Add c domain answer t now = Done (answer', c') →
    domaincache_reachable c'
| domaincache_reach_sweep s now :
    domaincache_reachable (mkDomaincache (Some s)) →
    domaincache_reachable (mkDomaincache (Some (cache_sweep now s))).

Definition ipcache_ttl (c : ipcache) : Z :=
  from_option defaultExpiration 0%Z (ip_inner c).

Definition domaincache_ttl (c : domaincache) : Z :=
  from_option defaultExpiration 0%Z (domain_inner c).

Definition ipcache_expires (c : ipcache) (k : string) : option Z :=
  s ← ip_inner c; cache_expires k s.

Definition domaincache_expires (c : domaincache) (k : string) : option Z :=
  s ← domain_inner c; cache_expires k s.

(** ** Matchers and upstream transports *)

(** [type DomainMatcher interface] *)
Record DomainMatcher := mkDomainMatcher {
  MatchGFW : string → bool;
  MatchObedient : string → bool
}.

(** [type dnsTransport struct]; [proxy] is nil when no proxy is used. *)
Record dnsTransport := mkDnsTransport {
  nameserver : string;
  net_ : string;
  proxy : option string
}.

Definition NewDnsTransport (nameserver net_ : string) (proxy : option string)
  : dnsTransport := mkDnsTransport nameserver net_ proxy.

(** ** The globals and their gate (globals of the package) *)

(** The package-level variables; pointers, interfaces, functions and
    slices may be nil. *)
Record Globals := mkGlobals {
  _DEFAULT_IPCACHE : ipcache;
  _DEFAULT_DOMAINCACHE : domaincache;
  _DEFAULT_DOMAIN_MATCHER : option DomainMatcher;
  _IP_MATCH_CHINESE_MAINLAND : option (IP → bool);
  _DNS_SUBNET_LOCAL_IP : IP;
  _DNS_SUBNET_PROXY_IP : IP;
  _DNSSTRANSPORT_OBEDIENT : option dnsTransport;
  _DNSSTRANSPORT_ABROAD : option dnsTransport
}.

(** The zero values the variables have before [InitGlobals]. *)
Definition zero_Globals : Globals :=
  mkGlobals (mkIpcache None) (mkDomaincache None) None None None None None None.

(** [func InitGlobals(...)] *)
Definition InitGlobals (ipc : ipcache) (domainc : domaincache)
    (dm : option DomainMatcher) (ipMatchCHN : option (IP → bool))
    (subnetLocalIP subnetProxyIP : IP)
    (dtObedient dtAbroad : option dnsTransport) : Globals :=
  mkGlobals ipc domainc dm ipMatchCHN subnetLocalIP subnetProxyIP
            dtObedient dtAbroad.

(** [type globalsValidator struct { sync.Once; ok bool }]; [once_done]
    is the state of the [sync.Once]. *)
Record globalsValidator := mkValidator {
  once_done : bool;
  ok : bool
}.

Definition newGlobalsValidator : globalsValidator := mkValidator false false.

(** The condition inside [validate], conjunct by conjunct as written. *)
Definition validate_cond (g : Globals) : bool :=
  negb (is_nil (ip_inner (_DEFAULT_IPCACHE g)))
  && negb (is_nil (domain_inner (_DEFAULT_DOMAINCACHE g)))
  && negb (is_nil (_DEFAULT_DOMAIN_MATCHER g))
  && negb (is_nil (_IP_MATCH_CHINESE_MAINLAND g))
  && negb (is_nil (_DNS_SUBNET_LOCAL_IP g))
  && negb (is_nil (_DNS_SUBNET_LOCAL_IP g))
  && negb (is_nil (_DNSSTRANSPORT_OBEDIENT g))
  && negb (is_nil (_DNSSTRANSPORT_ABROAD g)).

(** [func (v *globalsValidator) validate() bool]: the validator after the
    call and the result. *)
Definition validate (v : globalsValidator) (g : Globals)
  : globalsValidator * bool :=
  let v' :=
    if once_done v then v
    else mkValidator true (if validate_cond g then true else ok v) in
  (v', ok v').

(** What a front does once called: it returns the gate's error, or it goes
    on to listen on [laddr]. *)
Inductive serve_result :=
| Refused (e : error)
| Serving (laddr : string).

(** [func ServeDNS(laddr string) error] *)
Definition ServeDNS (v : globalsValidator) (g : Globals) (laddr : string)
  : globalsValidator * serve_result :=
  let '(v', ok) := validate v g in
  (v', if negb ok then Refused "global vars are uninitialized"
       else Serving laddr).

(** [func ServeProxy(laddr string, proxy, direct *gost.ProxyChain) error] *)
Definition ServeProxy (v : globalsValidator) (g : Globals) (laddr : string)
  : globalsValidator * serve_result :=
  let '(v', ok) := validate v g in
  (v', if negb ok then Refused "global vars are uninitialized"
       else Serving laddr).

(** Every core dependency is set: both caches, the matcher,
    the domestic-IP predicate, both ECS sentinels, both transports. *)
Definition all_dependencies_set (g : Globals) : bool :=
  negb (is_nil (ip_inner (_DEFAULT_IPCACHE g)))
  && negb (is_nil (domain_inner (_DEFAULT_DOMAINCACHE g)))
  && negb (is_nil (_DEFAULT_DOMAIN_MATCHER g))
  && negb (is_nil (_IP_MATCH_CHINESE_MAINLAND g))
  && negb (is_nil (_DNS_SUBNET_LOCAL_IP g))
  && negb (is_nil (_DNS_SUBNET_PROXY_IP g))
  && negb (is_nil (_DNSSTRANSPORT_OBEDIENT g))
  && negb (is_nil (_DNSSTRANSPORT_ABROAD g)).

(** ** Message utilities, continued *)

Definition msg_Rcode (m : Msg) : Z := Rcode (MsgHdr_ m).
Definition msg_Response (m : Msg) : bool := Response (MsgHdr_ m).

(** [func MsgNewReplyFromReq(req *dns.Msg, answer ...dns.RR) *dns.Msg] *)
Definition MsgNewReplyFromReq (req : Msg) (answer : list RR) : Msg :=
  mkMsg
    {| Id := Id (MsgHdr_ req);
       Response := true;
       Opcode := Opcode (MsgHdr_ req);
       Authoritative := false;
       Truncated := false;
       RecursionDesired := false;
       RecursionAvailable := true;
       Zero := false;
       AuthenticatedData := false;
       CheckingDisabled := false;
       Rcode := RcodeSuccess |}
    false (take 1 (Questions req)) answer [] [].

(** The loop of [MsgExtractAnswer] from position [i] on. *)
Fixpoint extract_from (i : nat) (l : list RR) : option (nat * RR * IP) :=
  match l with
  | [] => None
  | rr :: l' =>
      match rr with
      | RR_A _ a | RR_AAAA _ a =>
          if negb (Nat.eqb (ip_len a) 0) then Some (i, rr, a)
          else extract_from (S i) l'
      | _ => extract_from (S i) l'
      end
  end.

(** [func MsgExtractAnswer(msg *dns.Msg) (dns.RR, net.IP)]: [None] is the
    pair of nils; with the record comes its position in [msg.Answer], the
    record being shared with the message. *)
Definition MsgExtractAnswer (msg : option Msg) : option (nat * RR * IP) :=
  match msg with
  | None => None
  | Some m => extract_from 0 (Answer m)
  end.

(** ** Strings *)

(** [strings.HasSuffix] *)
Definition HasSuffix (s suffix : string) : bool :=
  Nat.leb (String.length suffix) (String.length s)
  && bool_decide (substring (String.length s - String.length suffix)
                            (String.length suffix) s = suffix).

(** [s[:len(s)-1]], which panics on the empty string. *)
Definition slice_to_last (s : string) : outcome string :=
  match String.length s with
  | O => Panic
  | S n => Done (substring 0 n s)
  end.

(** ** The DNS front (dnsserve.go) *)

Definition DHCP_HOST : string := ".DHCP\ HOST.".

Inductive upstream :=
| OBEDIENT
| ABROAD.

(** What [legallySpawnExchange] gives its caller: a response with a nil
    error, a nil response with an error, or nothing at all. *)
Inductive race_result :=
| RaceOk (r : Msg)
| RaceErr (e : error)
| RaceHang.

(** What a query handler does to the world around it. *)
Inductive event :=
| EvDomainGet (domain : string)
| EvMatchGFW (domain : string)
| EvMatchObedient (domain : string)
| EvRace (u : upstream) (req : Msg)
| EvDomainAdd (domain : string) (answer : RR) (t : transport)
| EvIPAdd (ip : string) (t : transport)
| EvRaceShared (u : upstream) (req : Msg).

(** The three messages that the handler races for an unknown domain: the
    copy of the request that gets the proxy's address, the copy that gets
    the local address, and the client's request itself. *)
Inductive probe :=
| RemoteIPProbe
| LocalIPProbe
| ClientRequest.

Definition probe_upstream (p : probe) : upstream :=
  match p with
  | ClientRequest => OBEDIENT
  | _ => ABROAD
  end.

(** The world around one query: what the domain cache returns when asked,
    the matchers, the sentinels, what the upstreams answer to a message,
    what they answer to each of the three messages of an unknown domain
    when these share their subnet option (see [probe_race]), and what
    [w.WriteMsg] returns for a response, [None] for the nil error. *)
Record dns_env := mkDnsEnv {
  env_cached : string → option domaincacheCell;
  env_matcher : DomainMatcher;
  env_ip_match : IP → bool;
  env_local_ip : IP;
  env_proxy_ip : IP;
  env_race : upstream → Msg → race_result;
  env_shared : probe → race_result;
  env_write : Msg → option error
}.

(** A computation with the events it performed. *)
#[projections(primitive)]
Record traced (A : Type) := Traced {
  events : list event;
  result : outcome A
}.
Arguments Traced {A} _ _.
Arguments events {A} _.
Arguments result {A} _.

#[global] Instance traced_ret : MRet traced := λ A a, Traced [] (Done a).
#[global] Instance traced_bind : MBind traced := λ A B f x,
  match result x with
  | Done a => Traced (events x ++ events (f a)) (result (f a))
  | Panic => Traced (events x) Panic
  | Hang => Traced (events x) Hang
  end.

Definition emit (e : event) : traced unit := Traced [e] (Done tt).
Definition lift {A} (o : outcome A) : traced A := Traced [] o.

(** [dt.legallySpawnExchange(req)] on one of the two upstreams. *)
Definition race (env : dns_env) (u : upstream) (req : Msg)
  : traced (Msg + error) :=
  _ ← emit (EvRace u req);
  match env_race env u req with
  | RaceOk r => mret (inl r)
  | RaceErr e => mret (inr e)
  | RaceHang => lift Hang
  end.

(** A race that succeeded with a response holding an address answer. *)
Definition answered (r : Msg + error) : option (Msg * (nat * RR * IP)) :=
  match r with
  | inl resp => pair resp <$> MsgExtractAnswer (Some resp)
  | inr _ => None
  end.

(** The two [Add] calls that end a classification.  [answer] is record
    [i] of [resp.Answer], so the owner name written by [domaincache.Add]
    shows in the response. *)
Definition cache_answer `{GoLib} (domain : string) (resp : Msg)
    (i : nat) (answer : RR) (ip : IP) (t : transport) : traced Msg :=
  _ ← emit (EvDomainAdd domain answer t);
  _ ← emit (EvIPAdd (IP_String ip) t);
  mret (set_Answer (<[i := normalize_owner domain answer]> (Answer resp)) resp).

(** [case matchGfw] *)
Definition resolve_gfw `{GoLib} (env : dns_env) (req : Msg) (domain : string)
  : traced (Msg + error) :=
  req' ← lift (MsgSetECSWithAddr req (env_proxy_ip env));
  r ← race env ABROAD req';
  match r with
  | inr err => mret (inr err)
  | inl resp =>
      match MsgExtractAnswer (Some resp) with
      | Some (i, answer, ip) =>
          resp' ← cache_answer domain resp i answer ip _TRANS_PROXY;
          mret (inl resp')
      | None => mret (inl resp)
      end
  end.

(** [case matchObedient] *)
Definition resolve_obedient `{GoLib} (env : dns_env) (req : Msg)
    (domain : string) : traced (Msg + error) :=
  r ← race env OBEDIENT req;
  match answered r with
  | Some (resp, (i, answer, ip)) =>
      resp' ← cache_answer domain resp i answer ip _TRANS_DIRECT;
      mret (inl resp')
  | None =>
      req' ← lift (MsgSetECSWithAddr req (env_local_ip env));
      r' ← race env ABROAD req';
      match r' with
      | inr err => mret (inr err)
      | inl resp => mret (inl resp)
      end
  end.

(** The races of the unknown domain.  [req.Copy()] copies the records of
    the request but not the options an OPT record holds: the [copy] of an
    [*OPT] in the library (github.com/miekg/dns, whose sources are not among
    the package's) copies the slice of options, whose elements are pointers.
    When the OPT record that [IsEdns0] finds holds a subnet option, the
    client's request and its two copies therefore hold one and the same
    [*EDNS0_SUBNET]: the goroutine writes it for the proxy's address while
    the handler writes it for the local address, and the [Exchange] calls of
    all three races read it as they pack their message.  What such a race
    sends is then a matter of timing.  It is recorded as [EvRaceShared] with
    the message as the handler built it, which is the message sent up to
    that one option, and its result is taken from the environment
    ([env_shared]) by the message raced, not computed from what the message
    holds.  Without a subnet option in the request nothing is shared: each
    copy gets an option of its own, and the races are those of [race]. *)
Definition probe_event `{GoLib} (req : Msg) (p : probe) (m : Msg) : event :=
  if has_ecs_option req then EvRaceShared (probe_upstream p) m
  else EvRace (probe_upstream p) m.

Definition probe_result `{GoLib} (env : dns_env) (req : Msg) (p : probe)
    (m : Msg) : race_result :=
  if has_ecs_option req then env_shared env p
  else env_race env (probe_upstream p) m.

Definition probe_race `{GoLib} (env : dns_env) (req : Msg) (p : probe)
    (m : Msg) : traced (Msg + error) :=
  _ ← emit (probe_event req p m);
  match probe_result env req p m with
  | RaceOk r => mret (inl r)
  | RaceErr e => mret (inr e)
  | RaceHang => lift Hang
  end.

(** [default], the unknown domain, when the query with the local address
    did not succeed: the obedient upstream is tried. *)
Definition resolve_unknown_failed `{GoLib} (env : dns_env) (req : Msg)
    (domain : string) : traced (Msg + error) :=
  r ← probe_race env req ClientRequest req;
  match r with
  | inr err => mret (inr err)
  | inl resp =>
      match MsgExtractAnswer (Some resp) with
      | Some (i, answer, ip) =>
          let t :=
            if negb (is_nil (To4 ip)) && env_ip_match env ip
            then _TRANS_DIRECT else _TRANS_PROXY in
          resp' ← cache_answer domain resp i answer ip t;
          mret (inl resp')
      | None => mret (inl resp)
      end
  end.

(** The result of the query with the local address counts as a success
    when the race returned no error, the response holds an address answer
    and its RCODE is NOERROR. *)
Definition abroadQueryWithLocalSucceed (r : Msg + error)
  : option (Msg * (nat * RR * IP)) :=
  match answered r with
  | Some (resp, a) =>
      if (msg_Rcode resp =? RcodeSuccess)%Z then Some (resp, a) else None
  | None => None
  end.

(** [default], the unknown domain.  The goroutine of the query with the
    proxy's address is started first; its race is recorded when it is
    started and its result is looked at only where the handler receives
    from the channel.  A panic in a goroutine ends the process.  The two
    copies are written with the addresses as [MsgSetECSWithAddr] does on a
    message of its own; what they share with the request is in
    [probe_race]. *)
Definition resolve_unknown `{GoLib} (env : dns_env) (req : Msg)
    (domain : string) : traced (Msg + error) :=
  abroadQueryWithRemoteIPReq ← lift (MsgSetECSWithAddr req (env_proxy_ip env));
  _ ← emit (probe_event req RemoteIPProbe abroadQueryWithRemoteIPReq);
  let awaitAbroadQueryWithRemoteResp :=
    probe_result env req RemoteIPProbe abroadQueryWithRemoteIPReq in
  abroadQueryWithLocalIPReq ← lift (MsgSetECSWithAddr req (env_local_ip env));
  r ← probe_race env req LocalIPProbe abroadQueryWithLocalIPReq;
  match abroadQueryWithLocalSucceed r with
  | Some (resp, (i, answer, ip)) =>
      if negb (is_nil (To4 ip)) && env_ip_match env (To4 ip) then
        r' ← probe_race env req ClientRequest req;
        let '(resp, (i, answer, ip)) :=
          default (resp, (i, answer, ip)) (answered r') in
        resp' ← cache_answer domain resp i answer ip _TRANS_DIRECT;
        mret (inl resp')
      else
        match awaitAbroadQueryWithRemoteResp with
        | RaceHang => lift Hang
        | RaceOk m =>
            let '(resp, (i, answer, ip)) :=
              default (resp, (i, answer, ip)) (answered (inl m)) in
            resp' ← cache_answer domain resp i answer ip _TRANS_PROXY;
            mret (inl resp')
        | RaceErr _ =>
            resp' ← cache_answer domain resp i answer ip _TRANS_PROXY;
            mret (inl resp')
        end
  | None => resolve_unknown_failed env req domain
  end.

(** The function literal of [handleDnsRequest] that computes the response
    and the error. *)
Definition resolve `{GoLib} (env : dns_env) (req : Msg) : traced (Msg + error) :=
  match Questions req with
  | [] => lift Panic
  | q :: _ =>
      let quesFqdn := QName q in
      if HasSuffix quesFqdn DHCP_HOST
      then mret (inl (MsgNewReplyFromReq req []))
      else
        domain ← lift (slice_to_last quesFqdn);
        _ ← emit (EvDomainGet domain);
        match env_cached env domain with
        | Some item => mret (inl (MsgNewReplyFromReq req [ans item]))
        | None =>
            _ ← emit (EvMatchGFW domain);
            let matchGfw := MatchGFW (env_matcher env) domain in
            matchObedient ←
              (if negb matchGfw
               then (_ ← emit (EvMatchObedient domain);
                     mret (MatchObedient (env_matcher env) domain))
               else mret false : traced bool);
            if matchGfw then resolve_gfw env req domain
            else if (matchObedient : bool) then resolve_obedient env req domain
            else resolve_unknown env req domain
        end
  end.

(** How one query ends: the response was written to the client, or an
    error was logged, that of the classification or that of the write. *)
Inductive handled :=
| Wrote (resp : Msg)
| Logged (e : error).

(** [if err = w.WriteMsg(resp); err != nil { goto ERR }] *)
Definition written (env : dns_env) (resp : Msg) : handled :=
  match env_write env resp with
  | None => Wrote resp
  | Some err => Logged err
  end.

(** [func handleDnsRequest(w dns.ResponseWriter, req *dns.Msg)] *)
Definition handleDnsRequest `{GoLib} (env : dns_env) (req : Msg) : traced handled :=
  r ← resolve env req;
  match r with
  | inl resp => mret (written env resp)
  | inr err => mret (Logged err)
  end.

(** The queried domain reaches the classification: the name is outside
    the pseudo-zone and the domain cache has no entry for the domain. *)
Definition misses_cache (env : dns_env) (req : Msg) (domain : string) : Prop :=
  ∃ q qs, Questions req = q :: qs
          ∧ HasSuffix (QName q) DHCP_HOST = false
          ∧ slice_to_last (QName q) = Done domain
          ∧ env_cached env domain = None.

(** The races and the cache insertions among the events of a handler. *)
Definition races_of (evs : list event) : list (upstream * Msg) :=
  omap (λ e, match e with EvRace u req => Some (u, req) | _ => None end) evs.

(** The races of messages that share their subnet option. *)
Definition shared_races_of (evs : list event) : list (upstream * Msg) :=
  omap (λ e, match e with EvRaceShared u req => Some (u, req) | _ => None end)
       evs.

Definition is_cache_add (e : event) : bool :=
  match e with
  | EvDomainAdd _ _ _ | EvIPAdd _ _ => true
  | _ => false
  end.

Definition cache_adds_of (evs : list event) : list event :=
  List.filter is_cache_add evs.


(** The response with the owner of its answer record [i] normalised, as
    the client receives it after [domaincache.Add]. *)
Definition reply_with `{GoLib} (domain : string) (resp : Msg) (i : nat)
    (answer : RR) : Msg :=
  set_Answer (<[i := normalize_owner domain answer]> (Answer resp)) resp.

(** ** The Google DoH client (dns_over_https/google/lib.go) *)

Definition DEFAULT_DNS_SERVER : string := "https://dns.google.com/resolve".

(** [type DNSQuestion struct] *)
Record DNSQuestion := mkDNSQuestion {
  dq_Name : string;
  dq_Type : Z
}.

(** [type DNSRR struct] *)
Record DNSRR := mkDNSRR {
  drr_Name : string;
  drr_Type : Z;
  drr_TTL : Z;
  drr_Data : string
}.

(** [type RespRepr struct] *)
Record RespRepr := mkRespRepr {
  Status : Z;
  TC : bool;
  RD : bool;
  RA : bool;
  AD : bool;
  CD : bool;
  doh_Question : list DNSQuestion;
  doh_Answer : list DNSRR;
  doh_Authority : list DNSRR;
  doh_Additional : list DNSRR;
  Edns_client_subnet : string;
  Comment : string
}.

(** [url.Values], a [map[string][]string], and its [Add]. *)
Abbreviation url_Values := (gmap string (list string)).

Definition Values_Add (key value : string) (vs : url_Values) : url_Values :=
  <[key := default [] (vs !! key) ++ [value]]> vs.

(** Conversions to [uint16] and [uint32]. *)
Definition uint16 (z : Z) : Z := (z mod 65536)%Z.
Definition uint32 (z : Z) : Z := (z mod 4294967296)%Z.

(** [fmt.Sprintf("%v", qtype)] for a [uint16]. *)
Definition Sprintf_v (qtype : Z) : string := pretty (Z.to_N qtype).

(** The values [google.Query] sends; [ecs] is its variadic parameter, nil
    when the caller passes nothing. *)
Definition Query_values (qtype : Z) (name : string) (ecs : list string)
  : url_Values :=
  let vs := Values_Add "name" name ∅ in
  let vs := Values_Add "type" (Sprintf_v qtype) vs in
  match ecs with
  | [] => vs
  | _ecs :: _ =>
      let _ecs := if bool_decide (_ecs = "") then "0.0.0.0/0" else _ecs in
      Values_Add "edns_client_subnet" _ecs vs
  end.

(** An [http.RoundTripper] followed by the decoding of the JSON body: what
    comes back for the GET with the given values. *)
Definition RoundTripper := url_Values → RespRepr + error.

(** [func Query(rt http.RoundTripper, qtype uint16, name string, ecs ...string)] *)
Definition Query (rt : RoundTripper) (qtype : Z) (name : string)
    (ecs : list string) : RespRepr + error :=
  rt (Query_values qtype name ecs).

(** ** DoH to wire format (libdns_utils.go) *)

(** The dynamic types [dns.TypeToRR] can construct. *)
Inductive rr_kind :=
| KA
| KAAAA
| KOPT
| Kother.

(** [dns.TypeToRR]: the entries for A, AAAA and OPT, and the others. *)
Definition TypeToRR `{GoLib} (t : Z) : option rr_kind :=
  if (t =? TypeA)%Z then Some KA
  else if (t =? TypeAAAA)%Z then Some KAAAA
  else if (t =? TypeOPT)%Z then Some KOPT
  else if TypeToRR_other t then Some Kother
  else None.

(** [func RRNewFromGoogleDohRR(grr google.DNSRR) dns.RR] *)
Definition RRNewFromGoogleDohRR `{GoLib} (grr : DNSRR) : RR :=
  let rrhdr :=
    {| Name := drr_Name grr;
       Rrtype := uint16 (drr_Type grr);
       Class_ := ClassINET;
       Ttl := uint32 (drr_TTL grr);
       Rdlength := uint16 (Z.of_nat (String.length (drr_Data grr))) |} in
  match TypeToRR (uint16 (drr_Type grr)) with
  | Some KA => RR_A rrhdr (ParseIP (drr_Data grr))
  | Some KAAAA => RR_AAAA rrhdr (ParseIP (drr_Data grr))
  | Some KOPT => RR_OPT rrhdr []
  | Some Kother => RR_other rrhdr
  | None => RR_RFC3597 rrhdr (drr_Data grr)
  end.

(** The loop over [opt.Option] at the head of [MsgExchangeOverGoogleDOH]:
    the address of the last subnet option. *)
Definition last_subnet_address (opts : list EDNS0) : IP :=
  fold_left (λ ecs s, match s with
                      | Opt_SUBNET _ecs => Address _ecs
                      | Opt_other _ _ => ecs
                      end) opts None.

(** The first lines of [MsgExchangeOverGoogleDOH], up to the call of
    [google.Query]: the ECS address found and the values of the GET. *)
Definition doh_query `{GoLib} (req : Msg) : outcome (IP * url_Values) :=
  match Questions req with
  | [] => Panic
  | q :: _ =>
      opt ← IsEdns0 req;
      let ecs :=
        match opt with
        | Some (_, _, opts) => last_subnet_address opts
        | None => None
        end in
      Done (ecs, Query_values (Qtype q) (QName q) [IP_String ecs])
  end.

(** The loop over [dohresp.Question]; [req.Question[i]] panics when the
    request has fewer questions. *)
Fixpoint doh_questions (cs : list DNSQuestion) (reqq : list Question)
  : outcome (list Question) :=
  match cs with
  | [] => Done []
  | c :: cs' =>
      match reqq with
      | [] => Panic
      | rq :: reqq' =>
          rest ← doh_questions cs' reqq';
          Done (mkQuestion (dq_Name c) (uint16 (dq_Type c)) (Qclass rq) :: rest)
      end
  end.

(** The message built from a DoH response, before the ECS is put back. *)
Definition doh_msg `{GoLib} (req : Msg) (dohresp : RespRepr)
    (questions : list Question) : Msg :=
  mkMsg
    {| Id := Id (MsgHdr_ req);
       Response := (Status dohresp =? 0)%Z;
       Opcode := OpcodeQuery;
       Authoritative := false;
       Truncated := TC dohresp;
       RecursionDesired := RD dohresp;
       RecursionAvailable := RA dohresp;
       Zero := false;
       AuthenticatedData := AD dohresp;
       CheckingDisabled := CD dohresp;
       Rcode := Status dohresp |}
    (Compress req)
    questions
    (map RRNewFromGoogleDohRR (doh_Answer dohresp))
    (map RRNewFromGoogleDohRR (doh_Authority dohresp))
    (map RRNewFromGoogleDohRR (doh_Additional dohresp)).

(** [func MsgExchangeOverGoogleDOH(req *dns.Msg, rt http.RoundTripper)] *)
Definition MsgExchangeOverGoogleDOH `{GoLib} (req : Msg) (rt : RoundTripper)
  : outcome (Msg + error) :=
  '(ecs, vs) ← doh_query req;
  match rt vs with
  | inr err => Done (inr err)
  | inl dohresp =>
      questions ← doh_questions (doh_Question dohresp) (Questions req);
      let resp := doh_msg req dohresp questions in
      resp' ← (if is_nil ecs then Done resp else MsgSetECSWithAddr resp ecs);
      Done (inl resp')
  end.

(** The network as a transport sees it: the answer to a DoH GET and the
    answer to a message written on a connection to the name server. *)
Record network := mkNetwork {
  doh_roundtrip : dnsTransport → RoundTripper;
  wire_roundtrip : dnsTransport → Msg → Msg + error
}.

Definition ErrId : error := "dns: id mismatch".

(** [func (dt *dnsTransport) Exchange(req *dns.Msg)] *)
Definition Exchange `{GoLib} (nw : network) (dt : dnsTransport) (req : Msg)
  : outcome (Msg + error) :=
  if bool_decide (net_ dt = "https")
  then MsgExchangeOverGoogleDOH req (doh_roundtrip nw dt)
  else
    match wire_roundtrip nw dt req with
    | inl r =>
        if bool_decide (Id (MsgHdr_ r) ≠ Id (MsgHdr_ req))
        then Done (inr ErrId) else Done (inl r)
    | inr err => Done (inr err)
    end.

(** The GET that [Exchange] sends for a request, when it sends one. *)
Definition Exchange_GET `{GoLib} (dt : dnsTransport) (req : Msg)
  : outcome (option url_Values) :=
  if bool_decide (net_ dt = "https")
  then '(_, vs) ← doh_query req; Done (Some vs)
  else Done None.

(** ** The proxy front: requests *)

(** The address types of [gosocks5], those of the SOCKS5 protocol. *)
Definition AddrIPv4 : Z := 1.
Definition AddrDomain : Z := 3.
Definition AddrIPv6 : Z := 4.

(** [gosocks5.Addr] and [gosocks5.Request] *)
Record gosocks5_Addr := mkAddr {
  Type_ : Z;
  Host : string;
  Port : Z
}.

Record gosocks5_Request := mkS5Req {
  Cmd : Z;
  Addr : gosocks5_Addr
}.

(** [type socks5Request struct]; the proxy server is named by its
    transport, the key under which [serveProxy] keeps it. *)
Record socks5Request := mkSocks5Request {
  s5_req : gosocks5_Request;
  s5_conn : string;
  s5_proxy : option transport
}.

(** [type httpRequest struct]; of the [*http.Request] the host name of
    the URL is kept. *)
Record httpRequest := mkHTTPRequest {
  http_URL_Hostname : string;
  http_conn : string;
  http_proxy : option transport
}.

(** [type requester interface] *)
Class requester (R : Type) := {
  getHostName : R → string;
  getAddrType : R → Z;
  setRedirect : R → IP → R;
  setProxyServer : R → option transport → R
}.

Definition newSocks5Request (req : gosocks5_Request) (conn : string)
  : socks5Request := mkSocks5Request req conn None.

(** [func (r *socks5Request) setRedirect(ip net.IP)] *)
Definition socks5_setRedirect `{GoLib} (r : socks5Request) (ip : IP)
  : socks5Request :=
  let addrType := if negb (is_nil (To4 ip)) then AddrIPv4 else AddrIPv4 in
  let addr := s5_req r in
  mkSocks5Request
    (mkS5Req (Cmd addr) (mkAddr addrType (IP_String ip) (Port (Addr addr))))
    (s5_conn r) (s5_proxy r).

#[global] Instance socks5_requester `{GoLib} : requester socks5Request := {
  getHostName r := Host (Addr (s5_req r));
  getAddrType r := Type_ (Addr (s5_req r));
  setRedirect := socks5_setRedirect;
  setProxyServer r ps := mkSocks5Request (s5_req r) (s5_conn r) ps
}.

Definition newHTTPRequest (hostname : string) (conn : string) : httpRequest :=
  mkHTTPRequest hostname conn None.

#[global] Instance http_requester `{GoLib} : requester httpRequest := {
  getHostName r := http_URL_Hostname r;
  getAddrType r :=
    match ParseIP (http_URL_Hostname r) with
    | Some b => if negb (is_nil (To4 (Some b))) then AddrIPv4 else AddrIPv6
    | None => AddrDomain
    end;
  setRedirect r _ := r;
  setProxyServer r ps := mkHTTPRequest (http_URL_Hostname r) (http_conn r) ps
}.

(** ** The three-way race (legallySpawnExchange)

    The goroutines of one call and the calling goroutine, as a transition
    system.  A goroutine runs [dt.Exchange(req)]; on success it sends the
    response on [resp]; on failure it loads [failedTimes], and then either
    sends nil on [resp] followed by the error on [lastErr], or adds one to
    [failedTimes].  The load and the add are two atomic operations.  The
    caller receives from [resp] and, on nil, from [lastErr]. *)

Definition spawnNum : Z := 3.

(** What [dt.Exchange(req)] returned in one goroutine. *)
Inductive exchanged :=
| ExOk (r : Msg)
| ExErr (e : error).

(** Where a goroutine stands: before [Exchange] returns, after the load
    of [failedTimes], blocked in [lastErr <- err], or finished. *)
Inductive goroutine_pc :=
| GExchange
| GLoaded (n : Z)
| GSendErr
| GDone.

(** Where the caller stands: in [<-resp], in [<-lastErr], or returned. *)
Inductive caller_pc :=
| CRecvResp
| CRecvErr
| CReturned (r : Msg + error).

Record race_state := mkRace {
  goroutines : list (exchanged * goroutine_pc);
  failedTimes : Z;
  resp_chan : list (option Msg);
  caller : caller_pc
}.

Inductive actor :=
| Caller
| Goroutine (i : nat).

(** The state after the [for range [spawnNum]struct{}{}] loop has started
    the goroutines; [rs] are the results their [Exchange] calls will have. *)
Definition race_init (rs : list exchanged) : race_state :=
  mkRace (map (λ r, (r, GExchange)) rs) 0 [] CRecvResp.

Definition set_goroutine (i : nat) (g : exchanged * goroutine_pc)
    (s : race_state) : race_state :=
  mkRace (<[i := g]> (goroutines s)) (failedTimes s) (resp_chan s) (caller s).

(** A send on [resp], a channel of capacity [spawnNum]. *)
Definition send_resp (v : option Msg) (s : race_state) : option race_state :=
  if (Z.of_nat (length (resp_chan s)) <? spawnNum)%Z
  then Some (mkRace (goroutines s) (failedTimes s) (resp_chan s ++ [v]) (caller s))
  else None.

(** One step of one actor; [None] when the actor cannot move. *)
Definition race_step (a : actor) (s : race_state) : option race_state :=
  match a with
  | Caller =>
      match caller s, resp_chan s with
      | CRecvResp, Some r :: rest =>
          Some (mkRace (goroutines s) (failedTimes s) rest (CReturned (inl r)))
      | CRecvResp, None :: rest =>
          Some (mkRace (goroutines s) (failedTimes s) rest CRecvErr)
      | _, _ => None
      end
  | Goroutine i =>
      match goroutines s !! i with
      | Some (ExOk r, GExchange) =>
          set_goroutine i (ExOk r, GDone) <$> send_resp (Some r) s
      | Some (ExErr e, GExchange) =>
          Some (set_goroutine i (ExErr e, GLoaded (failedTimes s)) s)
      | Some (ExErr e, GLoaded n) =>
          if (n =? spawnNum - 1)%Z
          then set_goroutine i (ExErr e, GSendErr) <$> send_resp None s
          else Some (set_goroutine i (ExErr e, GDone)
                       (mkRace (goroutines s) (failedTimes s + 1)
                               (resp_chan s) (caller s)))
      | Some (ExErr e, GSendErr) =>
          match caller s with
          | CRecvErr =>
              Some (set_goroutine i (ExErr e, GDone)
                      (mkRace (goroutines s) (failedTimes s) (resp_chan s)
                              (CReturned (inr e))))
          | _ => None
          end
      | _ => None
      end
  end.

(** A schedule, run from a state. *)
Fixpoint race_run (sched : list actor) (s : race_state) : option race_state :=
  match sched with
  | [] => Some s
  | a :: sched' =>
      match race_step a s with
      | Some s' => race_run sched' s'
      | None => None
      end
  end.

(** No actor can move. *)
Definition race_stuck (s : race_state) : Prop :=
  ∀ a, race_step a s = None.

(** The states a call can be in. *)
Definition race_reachable (rs : list exchanged) (s : race_state) : Prop :=
  ∃ sched, race_run sched (race_init rs) = Some s.

(** What the specification says of the race, for three [Exchange]
    results: every run ends
    with the caller returned; a returned response comes from a goroutine
    whose [Exchange] succeeded; when all three failed the caller gets a
    nil response and the error of one of them. *)
Definition race_spec (rs : list exchanged) : Prop :=
  ∀ s, race_reachable rs s → race_stuck s →
       match caller s with
       | CReturned (inl r) => ExOk r ∈ rs
       | CReturned (inr e) =>
           ExErr e ∈ rs ∧ Forall (λ x, ∃ e', x = ExErr e') rs
       | _ => False
       end.

(** ** The matchers of the command (cmd/dnsproxy) *)

(** [func domainMatchList(domain string, domainList []string) bool] *)
Fixpoint domainMatchList (domain : string) (domainList : list string) : bool :=
  match domainList with
  | [] => false
  | _domain :: rest =>
      if bool_decide (_domain = domain) || HasSuffix domain ("." +:+ _domain)
      then true
      else domainMatchList domain rest
  end.

(** [type domainMatch struct] with its two methods. *)
Definition newDomainMatch (chineseList gfwList : list string) : DomainMatcher :=
  {| MatchGFW domain := domainMatchList domain gfwList;
     MatchObedient domain := domainMatchList domain chineseList |}.

(** An IPv4 network: its address and the length of its prefix in bits. *)
Record IPNet := mkIPNet {
  net_IP : list Z;
  net_prefix : nat
}.

Fixpoint byte_bits (fuel : nat) (b : Z) : list bool :=
  match fuel with
  | O => []
  | S n => Z.testbit b (Z.of_nat n) :: byte_bits n b
  end.

Definition ip_bits (b : list Z) : list bool := concat (map (byte_bits 8) b).

(** [net.IPNet.Contains] for IPv4 networks: the address, brought to four
    bytes, agrees with the network on the prefix. *)
Definition IPNet_Contains (n : IPNet) (ip : IP) : bool :=
  match To4 ip with
  | Some b4 =>
      bool_decide (take (net_prefix n) (ip_bits b4)
                   = take (net_prefix n) (ip_bits (net_IP n)))
  | None => false
  end.

(** [func ipInIPNetList(ip net.IP, ipnets []*net.IPNet) bool] *)
Definition ipInIPNetList (ip : IP) (ipnets : list IPNet) : bool :=
  if is_nil ip then false
  else existsb (λ ipNet, IPNet_Contains ipNet ip) ipnets.

(** ** An instance of the library functions, to run the model

    [net.IP.String] gives ["<nil>"] for an empty address and the dotted
    decimal form for an IPv4 address; other addresses are written here as
    their bytes in decimal separated by colons, which is not Go's IPv6
    notation.  [net.ParseIP] is given for dotted decimal IPv4 literals,
    which Go returns in the 16-byte form.  [dns.Fqdn] appends a dot to a
    name that does not end in one. *)

Definition join_with (sep : string) (l : list string) : string :=
  String.concat sep l.

Definition example_IP_String (ip : IP) : string :=
  match ip with
  | None | Some [] => "<nil>"
  | Some b =>
      match To4 ip with
      | Some b4 => join_with "." (map (λ x, pretty (Z.to_N x)) b4)
      | None => join_with ":" (map (λ x, pretty (Z.to_N x)) b)
      end
  end.

Definition digit_of (c : ascii) : option Z :=
  let n := Ascii.nat_of_ascii c in
  if Nat.leb 48 n && Nat.leb n 57 then Some (Z.of_nat (n - 48)) else None.

Fixpoint parse_dec (s : string) (acc : Z) : option Z :=
  match s with
  | EmptyString => Some acc
  | String c s' => d ← digit_of c; parse_dec s' (acc * 10 + d)%Z
  end.

Definition parse_byte (s : string) : option Z :=
  if bool_decide (s = "") then None
  else n ← parse_dec s 0; if (n <=? 255)%Z then Some n else None.

Fixpoint split_dots (s cur : string) : list string :=
  match s with
  | EmptyString => [cur]
  | String c s' =>
      if Ascii.eqb c "."%char then cur :: split_dots s' ""
      else split_dots s' (cur +:+ String c "")
  end.

Definition v4InV6Prefix : list Z := [0; 0; 0; 0; 0; 0; 0; 0; 0; 0; 255; 255]%Z.

Definition example_ParseIP (s : string) : IP :=
  match mapM parse_byte (split_dots s "") with
  | Some [a; b; c; d] => Some (v4InV6Prefix ++ [a; b; c; d])
  | _ => None
  end.

Definition example_Fqdn (s : string) : string :=
  if HasSuffix s "." then s else s +:+ ".".

Definition example_lib : GoLib := {|
  IP_String := example_IP_String;
  ParseIP := example_ParseIP;
  Fqdn := example_Fqdn;
  TypeToRR_other t := bool_decide (t ∈ [2; 5; 6; 12; 15; 16; 33]%Z);
  IsEdns0_from_end := true
|}.

(** ** Example data *)

Definition query_hdr (id : Z) : MsgHdr :=
  {| Id := id; Response := false; Opcode := OpcodeQuery;
     Authoritative := false; Truncated := false; RecursionDesired := true;
     RecursionAvailable := false; Zero := false; AuthenticatedData := false;
     CheckingDisabled := false; Rcode := RcodeSuccess |}.

(** A query for the A record of [name]. *)
Definition query_A (id : Z) (name : string) : Msg :=
  mkMsg (query_hdr id) false [mkQuestion name TypeA ClassINET] [] [] [].

(** A response to [req] with one A record for [name]. *)
Definition response_A (req : Msg) (name : string) (a : list Z) : Msg :=
  MsgNewReplyFromReq req
    [RR_A (mkHdr name TypeA ClassINET 60 4) (Some a)].

Definition example_LOCAL_IP : IP := example_ParseIP "114.114.114.114".
Definition example_PROXY_IP : IP := example_ParseIP "8.8.8.8".

(** The query [m] carries the ECS [ip]. *)
Definition with_ecs `{GoLib} (m : Msg) (ip : IP) : Msg :=
  match MsgSetECSWithAddr m ip with
  | Done m' => m'
  | _ => m
  end.

(** Scenario S1 of the spec: [example.net] is on the GFW list and the
    abroad upstream answers [93.184.216.34]. *)
Definition env_S1 : dns_env :=
  {| env_cached _ := None;
     env_matcher := newDomainMatch [] ["example.net"];
     env_ip_match ip := ipInIPNetList ip [mkIPNet [1; 0; 0; 0]%Z 8];
     env_local_ip := example_LOCAL_IP;
     env_proxy_ip := example_PROXY_IP;
     env_race u req :=
       match u with
       | ABROAD => RaceOk (response_A req "foo.example.net." [93; 184; 216; 34]%Z)
       | OBEDIENT => RaceErr "no route"
       end;
     env_shared _ := RaceErr "shared";
     env_write _ := None |}.

(** An obedient domain whose upstream does not answer, the abroad
    upstream answering [1.2.3.4]. *)
Definition env_obedient_down : dns_env :=
  {| env_cached _ := None;
     env_matcher := newDomainMatch ["cn.example"] [];
     env_ip_match ip := ipInIPNetList ip [mkIPNet [1; 0; 0; 0]%Z 8];
     env_local_ip := example_LOCAL_IP;
     env_proxy_ip := example_PROXY_IP;
     env_race u req :=
       match u with
       | ABROAD => RaceOk (response_A req "www.cn.example." [1; 2; 3; 4]%Z)
       | OBEDIENT => RaceErr "timeout"
       end;
     env_shared _ := RaceErr "shared";
     env_write _ := None |}.

(** Scenario S3 of the spec: an unknown domain, the abroad upstream
    answers [1.2.3.4], the obedient upstream [1.2.3.5]. *)
Definition env_S3 : dns_env :=
  {| env_cached _ := None;
     env_matcher := newDomainMatch [] [];
     env_ip_match ip := ipInIPNetList ip [mkIPNet [1; 0; 0; 0]%Z 8];
     env_local_ip := example_LOCAL_IP;
     env_proxy_ip := example_PROXY_IP;
     env_race u req :=
       match u with
       | ABROAD => RaceOk (response_A req "mixed.test." [1; 2; 3; 4]%Z)
       | OBEDIENT => RaceOk (response_A req "mixed.test." [1; 2; 3; 5]%Z)
       end;
     env_shared _ := RaceErr "shared";
     env_write _ := None |}.

(** Globals in which everything is set but the proxy's ECS address. *)
Definition globals_without_PROXY_IP : Globals :=
  InitGlobals
    (NewIpcache 300 600) (NewDomaincache 300 600)
    (Some (newDomainMatch [] []))
    (Some (λ ip, ipInIPNetList ip []))
    example_LOCAL_IP None
    (Some (NewDnsTransport "114.114.114.114:53" "udp" None))
    (Some (NewDnsTransport "8.8.8.8:53" "tcp" None)).

(** A DoH transport and a network whose DoH server answers NXDOMAIN. *)
Definition example_doh_transport : dnsTransport :=
  NewDnsTransport DEFAULT_DNS_SERVER "https" None.

Definition nxdomain_repr : RespRepr :=
  mkRespRepr 3 false true true false false
             [mkDNSQuestion "nowhere.test." 1] [] [] [] "" "".

(** An IP cache holding [1.2.3.4] as PROXY since time 0, and a domain
    cache holding [www.cn.example] as PROXY since time 0. *)
Definition example_ipcache : ipcache :=
  match ipcache_Add (NewIpcache 300 600) "1.2.3.4" _TRANS_PROXY 0 with
  | Done c => c
  | _ => NewIpcache 300 600
  end.

Definition example_answer (name : string) (a : list Z) : RR :=
  RR_A (mkHdr name TypeA ClassINET 60 4) (Some a).

Definition example_domaincache `{GoLib} : domaincache :=
  match domaincache_Add (NewDomaincache 300 600) "www.cn.example"
          (example_answer "www.cn.example." [93; 184; 216; 34]%Z)
          _TRANS_PROXY 0 with
  | Done (_, c) => c
  | _ => NewDomaincache 300 600
  end.

(** A query that already carries an OPT record with two subnet options. *)
Definition query_two_subnets : Msg :=
  mkMsg (query_hdr 7) false [mkQuestion "example.org." TypeA ClassINET] [] []
        [RR_OPT new_opt_hdr
           [Opt_SUBNET (ecs_assign (Some [10; 0; 0; 1]%Z));
            Opt_SUBNET (ecs_assign (Some [10; 0; 0; 2]%Z))]].






(** A query whose additional section holds two OPT records. *)
Definition query_two_opts : Msg :=
  mkMsg (query_hdr 7) false [mkQuestion "example.org." TypeA ClassINET] [] []
        [RR_OPT new_opt_hdr []; RR_OPT new_opt_hdr []].

(** ** Predicates used to state what the utilities guarantee *)

(** The record is an A or AAAA record with a non-empty address: what
    [MsgExtractAnswer] looks for. *)
Definition address_record (rr : RR) : bool :=
  match rr with
  | RR_A _ a | RR_AAAA _ a => negb (Nat.eqb (ip_len a) 0)
  | _ => false
  end.

(** The address an A or AAAA record carries. *)
Definition record_address (rr : RR) : IP :=
  match rr with
  | RR_A _ a | RR_AAAA _ a => a
  | _ => None
  end.

(** The options of an OPT record that are not subnet options. *)
Fixpoint other_options (opts : list EDNS0) : list EDNS0 :=
  match opts with
  | [] => []
  | Opt_SUBNET _ :: rest => other_options rest
  | o :: rest => o :: other_options rest
  end.

(** The options of the record at position [i] of an additional section. *)
Definition options_at (extra : list RR) (i : nat) : list EDNS0 :=
  match extra !! i with
  | Some (RR_OPT _ opts) => opts
  | _ => []
  end.

(** The cache insertions of one query are none, or the insertion of the
    domain followed by that of the address with the same transport. *)
Definition cache_writes_paired (evs : list event) : Prop :=
  cache_adds_of evs = []
  ∨ ∃ d a ip t, cache_adds_of evs = [EvDomainAdd d a t; EvIPAdd ip t].

(** The message holds, in the OPT record that [IsEdns0] finds, one subnet
    option, the one that [MsgSetECSWithAddr] writes for [addr]. *)
Definition carries_ecs `{GoLib} (m : Msg) (addr : IP) : Prop :=
  ∃ i h opts, IsEdns0 m = Done (Some (i, h, opts))
              ∧ subnet_options opts = [ecs_assign addr].

(** A race a handler may start for a request [req] that came without a
    subnet option: the obedient upstream gets the request itself, the
    abroad upstream what [MsgSetECSWithAddr] makes of the request for one
    of the two sentinels, which carries that sentinel's subnet option, or
    is the request itself when the sentinel is nil. *)
Definition race_of_request `{GoLib} (env : dns_env) (req : Msg)
    (x : upstream * Msg) : Prop :=
  match x with
  | (OBEDIENT, r) => r = req
  | (ABROAD, r) =>
      ∃ addr, (addr = env_local_ip env ∨ addr = env_proxy_ip env)
              ∧ MsgSetECSWithAddr req addr = Done r
              ∧ match addr with
                | Some _ => carries_ecs r addr
                | None => r = req
                end
  end.

(** ** The proxy front: classification (handleProxyConn) *)

(** [dns.Msg.SetQuestion], the id drawn by [dns.Id] being given. *)
Definition SetQuestion (id : Z) (z : string) (t : Z) (m : Msg) : Msg :=
  mkMsg
    {| Id := id;
       Response := Response (MsgHdr_ m);
       Opcode := Opcode (MsgHdr_ m);
       Authoritative := Authoritative (MsgHdr_ m);
       Truncated := Truncated (MsgHdr_ m);
       RecursionDesired := true;
       RecursionAvailable := RecursionAvailable (MsgHdr_ m);
       Zero := Zero (MsgHdr_ m);
       AuthenticatedData := AuthenticatedData (MsgHdr_ m);
       CheckingDisabled := CheckingDisabled (MsgHdr_ m);
       Rcode := Rcode (MsgHdr_ m) |}
    (Compress m) [mkQuestion z t ClassINET] (Answer m) (Ns m) (Extra m).

(** [&dns.Msg{}] *)
Definition zero_Msg : Msg :=
  mkMsg (mkMsgHdr 0 false 0 false false false false false false false 0)
        false [] [] [] [].

(** The request [legallySpawnQuery] builds before it races it; [ecsAddr]
    is the variadic parameter. *)
Definition legallySpawnQuery_req `{GoLib} (id : Z) (domain : string)
    (qtype : Z) (ecsAddr : list IP) : outcome Msg :=
  let req := SetQuestion id (Fqdn domain) qtype zero_Msg in
  match ecsAddr with
  | [] => Done req
  | addr :: _ => MsgSetECSWithAddr req addr
  end.

(** What the classification of one connection does to the world around
    it: the events of the DNS front, a lookup in the IP cache, and a
    [setRedirect] on the request. *)
Inductive proxy_event :=
| PEv (e : event)
| PEvIPGet (host : string)
| PEvRedirect (ip : IP).

(** The world around one connection: that of a query, what the IP cache
    returns when asked, and the ids [dns.Id] draws, in order. *)
Record proxy_env := mkProxyEnv {
  penv_dns : dns_env;
  penv_ip_cached : string → option transport;
  penv_id : nat → Z
}.

#[projections(primitive)]
Record ptraced (A : Type) := PTraced {
  pevents : list proxy_event;
  presult : outcome A
}.
Arguments PTraced {A} _ _.
Arguments pevents {A} _.
Arguments presult {A} _.

#[global] Instance ptraced_ret : MRet ptraced := λ A a, PTraced [] (Done a).
#[global] Instance ptraced_bind : MBind ptraced := λ A B f x,
  match presult x with
  | Done a => PTraced (pevents x ++ pevents (f a)) (presult (f a))
  | Panic => PTraced (pevents x) Panic
  | Hang => PTraced (pevents x) Hang
  end.

Definition pemit (e : proxy_event) : ptraced unit := PTraced [e] (Done tt).
Definition plift {A} (o : outcome A) : ptraced A := PTraced [] o.

(** [dt.legallySpawnQuery(domain, qtype, ecsAddr...)], the [k]-th message
    built for this connection. *)
Definition legallySpawnQuery `{GoLib} (env : proxy_env) (k : nat)
    (u : upstream) (domain : string) (qtype : Z) (ecsAddr : list IP)
  : ptraced (Msg + error) :=
  req ← plift (legallySpawnQuery_req (penv_id env k) domain qtype ecsAddr);
  _ ← pemit (PEv (EvRace u req));
  match env_race (penv_dns env) u req with
  | RaceOk r => mret (inl r)
  | RaceErr e => mret (inr e)
  | RaceHang => plift Hang
  end.

(** [reqer.setRedirect(ip)] *)
Definition redirect {R} `{requester R} (reqer : R) (ip : IP) : ptraced R :=
  _ ← pemit (PEvRedirect ip);
  mret (setRedirect reqer ip).

(** The transport by the address alone: DIRECT for a domestic IPv4
    address, PROXY otherwise. *)
Definition transport_of_ip (env : proxy_env) (ip : IP) : transport :=
  if negb (is_nil (To4 ip)) && env_ip_match (penv_dns env) ip
  then _TRANS_DIRECT else _TRANS_PROXY.

(** What the function literal of [handleProxyConn] returns: a proxy
    server, named by its transport, or nil, or an error. *)
Definition chosen := (option transport + error)%type.

(** [case AddrIPv4, AddrIPv6] *)
Definition dispatch_ip {R} `{GoLib} `{requester R} (env : proxy_env)
    (reqer : R)
  : ptraced (R * chosen) :=
  let host := getHostName reqer in
  _ ← pemit (PEvIPGet host);
  match penv_ip_cached env host with
  | Some trans => mret (reqer, inl (Some trans))
  | None =>
      let ip := ParseIP host in
      let trans := transport_of_ip env ip in
      _ ← pemit (PEv (EvIPAdd host trans));
      mret (reqer, inl (Some trans))
  end.

(** [case AddrDomain], the domain found in the cache. *)
Definition dispatch_cached {R} `{requester R} (reqer : R)
    (item : domaincacheCell) : ptraced (R * chosen) :=
  match trans item with
  | _TRANS_DIRECT =>
      match ans item with
      | RR_A _ a | RR_AAAA _ a =>
          reqer' ← redirect reqer a;
          mret (reqer', inl (Some (trans item)))
      | _ => mret (reqer, inr "unreachable!")
      end
  | _TRANS_PROXY => mret (reqer, inl (Some (trans item)))
  end.

(** [case matchObedient] *)
Definition dispatch_obedient {R} `{GoLib} `{requester R} (env : proxy_env)
    (reqer : R) (domain : string) : ptraced (R * chosen) :=
  r ← legallySpawnQuery env 0 OBEDIENT domain TypeA [];
  match answered r with
  | Some (_, (_, answer, ip)) =>
      reqer' ← redirect reqer ip;
      _ ← pemit (PEv (EvIPAdd (IP_String ip) _TRANS_DIRECT));
      _ ← pemit (PEv (EvDomainAdd domain answer _TRANS_DIRECT));
      mret (reqer', inl (Some _TRANS_DIRECT))
  | None => mret (reqer, inl (Some _TRANS_DIRECT))
  end.

(** [default], the unknown domain. *)
Definition dispatch_unknown {R} `{GoLib} `{requester R} (env : proxy_env)
    (reqer : R) (domain : string) : ptraced (R * chosen) :=
  r ← legallySpawnQuery env 0 ABROAD domain TypeA
        [env_local_ip (penv_dns env)];
  match answered r with
  | Some (_, (_, answer, ip)) =>
      if negb (is_nil (To4 ip)) && env_ip_match (penv_dns env) ip then
        r' ← legallySpawnQuery env 1 OBEDIENT domain TypeA [];
        let '(answer, ip) :=
          match answered r' with
          | Some (_, (_, _ans, _ip)) => (_ans, _ip)
          | None => (answer, ip)
          end in
        reqer' ← redirect reqer ip;
        _ ← pemit (PEv (EvDomainAdd domain answer _TRANS_DIRECT));
        _ ← pemit (PEv (EvIPAdd (IP_String ip) _TRANS_DIRECT));
        mret (reqer', inl (Some _TRANS_DIRECT))
      else
        _ ← pemit (PEv (EvDomainAdd domain answer _TRANS_PROXY));
        _ ← pemit (PEv (EvIPAdd (IP_String ip) _TRANS_PROXY));
        mret (reqer, inl (Some _TRANS_PROXY))
  | None =>
      r' ← legallySpawnQuery env 1 OBEDIENT domain TypeA [];
      match answered r' with
      | Some (_, (_, answer, ip)) =>
          if negb (is_nil (To4 ip)) && env_ip_match (penv_dns env) ip then
            reqer' ← redirect reqer ip;
            _ ← pemit (PEv (EvIPAdd (IP_String ip) _TRANS_DIRECT));
            _ ← pemit (PEv (EvDomainAdd domain answer _TRANS_DIRECT));
            mret (reqer', inl (Some _TRANS_DIRECT))
          else
            _ ← pemit (PEv (EvIPAdd (IP_String ip) _TRANS_PROXY));
            _ ← pemit (PEv (EvDomainAdd domain answer _TRANS_PROXY));
            mret (reqer, inl (Some _TRANS_PROXY))
      | None => mret (reqer, inl (Some _TRANS_PROXY))
      end
  end.

(** [case AddrDomain] *)
Definition dispatch_domain {R} `{GoLib} `{requester R} (env : proxy_env)
    (reqer : R) : ptraced (R * chosen) :=
  let domain := getHostName reqer in
  _ ← pemit (PEv (EvDomainGet domain));
  match env_cached (penv_dns env) domain with
  | Some item => dispatch_cached reqer item
  | None =>
      _ ← pemit (PEv (EvMatchGFW domain));
      _ ← pemit (PEv (EvMatchObedient domain));
      let matchGfw := MatchGFW (env_matcher (penv_dns env)) domain in
      let matchObedient := MatchObedient (env_matcher (penv_dns env)) domain in
      if matchGfw then mret (reqer, inl (Some _TRANS_PROXY))
      else if matchObedient then dispatch_obedient env reqer domain
      else dispatch_unknown env reqer domain
  end.

(** The function literal of [handleProxyConn] that chooses the proxy
    server: the request as it is afterwards, and the server or the error. *)
Definition dispatch {R} `{GoLib} `{requester R} (env : proxy_env) (reqer : R)
  : ptraced (R * chosen) :=
  if bool_decide (getAddrType reqer = AddrIPv4)
     || bool_decide (getAddrType reqer = AddrIPv6)
  then dispatch_ip env reqer
  else if bool_decide (getAddrType reqer = AddrDomain)
  then dispatch_domain env reqer
  else mret (reqer, inl None).

(** The end of [handleProxyConn]: on an error the connection is closed;
    otherwise the request, with its proxy server set, is handed to
    [exec]. *)
Definition handleProxyConn_dispatch {R} `{GoLib} `{requester R}
    (env : proxy_env) (reqer : R) : ptraced (R + error) :=
  '(reqer', c) ← dispatch env reqer;
  match c with
  | inr err => mret (inr err)
  | inl ps => mret (inl (setProxyServer reqer' ps))
  end.

(** The races, the cache insertions and the redirections among the events
    of a connection. *)
Definition praces_of (evs : list proxy_event) : list (upstream * Msg) :=
  races_of (omap (λ e, match e with PEv e' => Some e' | _ => None end) evs).

Definition pcache_adds_of (evs : list proxy_event) : list event :=
  cache_adds_of (omap (λ e, match e with PEv e' => Some e' | _ => None end) evs).

Definition redirects_of (evs : list proxy_event) : list IP :=
  omap (λ e, match e with PEvRedirect ip => Some ip | _ => None end) evs.

Definition add_transport (e : event) : option transport :=
  match e with
  | EvDomainAdd _ _ t | EvIPAdd _ t => Some t
  | _ => None
  end.

(** ** The domain lists: written by the generator, read by the command *)

(** The byte [0x0A]. *)
Definition LF : ascii := "010"%char.

(** [strings.Split(s, sep)] for the separator of the one byte [0x0A]: the
    pieces between the separators, of which there is always one at least. *)
Fixpoint Split_LF (s : string) : list string :=
  match s with
  | EmptyString => [EmptyString]
  | String c rest =>
      if Ascii.eqb c LF then EmptyString :: Split_LF rest
      else match Split_LF rest with
           | [] => [String c EmptyString]
           | piece :: pieces => String c piece :: pieces
           end
  end.

(** [bytes.Join(s, sep)] *)
Fixpoint Join (s : list string) (sep : string) : string :=
  match s with
  | [] => EmptyString
  | [a] => a
  | a :: rest => a +:+ sep +:+ Join rest sep
  end.

(** [func legallyParseDomainList(fpath string) ([]string, error)], given
    what [ioutil.ReadFile(fpath)] returns. *)
Definition legallyParseDomainList (file : string + error)
  : list string + error :=
  match file with
  | inr err => inr err
  | inl content =>
      let list := Split_LF content in
      if bool_decide (length list = 0) then inr "empty domain list"
      else inl list
  end.

(** The end of [generateGFWDomainList]: what the loop over [gfwItems]
    writes to the file, the items in the order the loop meets them. *)
Fixpoint gfw_domain_list_written (gfwItems : list string) : string :=
  match gfwItems with
  | [] => EmptyString
  | item :: rest => item +:+ String LF EmptyString +:+ gfw_domain_list_written rest
  end.

(** The end of [generateChinaDomainList]: the data it writes, or the
    error for an empty list. *)
Definition china_domain_list_written (domainList : list string)
  : string + error :=
  if bool_decide (length domainList = 0)
  then inr "generate china domains: got nothing"
  else inl (Join domainList (String LF EmptyString)).

(** The byte [0x0A] occurs in the string. *)
Fixpoint has_LF (s : string) : bool :=
  match s with
  | EmptyString => false
  | String c rest => Ascii.eqb c LF || has_LF rest
  end.

(** ** The connection with bytes put back in front (connLeftAppendReader) *)

(** The error of a [Read]: nil, [io.EOF], or another one. *)
Inductive io_err :=
| io_nil
| io_EOF
| io_other (e : error).

(** A [Read(b)] of a reader in state [S]: from the length of [b], the
    bytes written at the start of [b], the error and the state
    afterwards. *)
Definition Read_fn (S : Type) : Type := S → nat → list Z * io_err * S.

(** [type connLeftAppendReader struct], over the states of its reader and
    of its connection. *)
Record connLeftAppendReader (R C : Type) := mkConnLeftAppendReader {
  cc_r : R;
  cc_reof : bool;
  cc_conn : C
}.
Arguments mkConnLeftAppendReader {R C} _ _ _.
Arguments cc_r {R C} _.
Arguments cc_reof {R C} _.
Arguments cc_conn {R C} _.

(** [func newConnLeftAppendReader(conn net.Conn, r io.Reader)] *)
Definition newConnLeftAppendReader {R C} (conn : C) (r : R)
  : connLeftAppendReader R C :=
  mkConnLeftAppendReader r false conn.

(** [func (cc *connLeftAppendReader) Read(b []byte) (n int, err error)] *)
Definition connLeftAppendReader_Read {R C} (r_Read : Read_fn R)
    (conn_Read : Read_fn C) : Read_fn (connLeftAppendReader R C) :=
  λ cc len,
    if negb (cc_reof cc) then
      let '(data, err, r') := r_Read (cc_r cc) len in
      match err with
      | io_nil =>
          (data, io_nil, mkConnLeftAppendReader r' (cc_reof cc) (cc_conn cc))
      | io_EOF =>
          (data, io_nil, mkConnLeftAppendReader r' true (cc_conn cc))
      | io_other _ =>
          (data, err, mkConnLeftAppendReader r' (cc_reof cc) (cc_conn cc))
      end
    else
      let '(data, err, conn') := conn_Read (cc_conn cc) len in
      (data, err, mkConnLeftAppendReader (cc_r cc) (cc_reof cc) conn').

(** Reads in a row, with buffers of the given lengths: what each
    returned, and the state at the end. *)
Fixpoint Reads {S} (Read : Read_fn S) (s : S) (lens : list nat)
  : list (list Z * io_err) * S :=
  match lens with
  | [] => ([], s)
  | len :: lens' =>
      let '(data, err, s') := Read s len in
      let '(outs, s'') := Reads Read s' lens' in
      ((data, err) :: outs, s'')
  end.

(** [bytes.NewReader(b).Read]: the state is what is left to read. *)
Definition bytes_Reader_Read : Read_fn (list Z) :=
  λ s len,
    match s with
    | [] => ([], io_EOF, [])
    | _ => (take len s, io_nil, drop len s)
    end.

(** ** Example data of the proxy front, the reader and the race *)

(** An obedient domain whose upstream answers [1.2.3.4]. *)
Definition env_obedient_up : dns_env :=
  {| env_cached _ := None;
     env_matcher := newDomainMatch ["cn.example"] [];
     env_ip_match ip := ipInIPNetList ip [mkIPNet [1; 0; 0; 0]%Z 8];
     env_local_ip := example_LOCAL_IP;
     env_proxy_ip := example_PROXY_IP;
     env_race u req :=
       match u with
       | ABROAD => RaceErr "no route"
       | OBEDIENT => RaceOk (response_A req "www.cn.example." [1; 2; 3; 4]%Z)
       end;
     env_shared _ := RaceErr "shared";
     env_write _ := None |}.

(** An unknown domain, no upstream answering. *)
Definition env_all_down : dns_env :=
  {| env_cached _ := None;
     env_matcher := newDomainMatch [] [];
     env_ip_match ip := ipInIPNetList ip [mkIPNet [1; 0; 0; 0]%Z 8];
     env_local_ip := example_LOCAL_IP;
     env_proxy_ip := example_PROXY_IP;
     env_race _ _ := RaceErr "timeout";
     env_shared _ := RaceErr "shared";
     env_write _ := None |}.

(** The domain cache holds [www.cn.example] as direct. *)
Definition env_cached_direct : dns_env :=
  {| env_cached domain :=
       if bool_decide (domain = "www.cn.example")
       then Some (mkCell (example_answer "www.cn.example." [1; 2; 3; 4]%Z)
                         _TRANS_DIRECT)
       else None;
     env_matcher := newDomainMatch [] [];
     env_ip_match ip := ipInIPNetList ip [mkIPNet [1; 0; 0; 0]%Z 8];
     env_local_ip := example_LOCAL_IP;
     env_proxy_ip := example_PROXY_IP;
     env_race _ _ := RaceErr "timeout";
     env_shared _ := RaceErr "shared";
     env_write _ := None |}.

(** The world of a connection around that of a query: an empty IP cache,
    and the ids 100, 101, ... *)
Definition example_proxy_env (env : dns_env) : proxy_env :=
  mkProxyEnv env (λ _, None) (λ k, 100 + Z.of_nat k)%Z.

(** A SOCKS5 CONNECT to port 443 of a host. *)
Definition socks5_to (type : Z) (host : string) : socks5Request :=
  newSocks5Request (mkS5Req 1 (mkAddr type host 443)) "conn".

(** A DoH response that holds two questions. *)
Definition two_questions_repr : RespRepr :=
  mkRespRepr 0 false true true false false
             [mkDNSQuestion "nowhere.test." 1; mkDNSQuestion "nowhere.test." 28]
             [] [] [] "" "".

(** A network whose name servers answer every message with [1.2.3.4]. *)
Definition example_network : network :=
  mkNetwork (λ _ _, inl nxdomain_repr)
            (λ _ req, inl (response_A req "www.cn.example." [1; 2; 3; 4]%Z)).



(** ** Example data for the corner cases of the DNS front *)



(** [example.org] is on the obedient list, whose upstream does not answer;
    the abroad upstream answers [1.2.3.4]. *)
Definition env_obedient_org_down : dns_env :=
  {| env_cached _ := None;
     env_matcher := newDomainMatch ["example.org"] [];
     env_ip_match ip := ipInIPNetList ip [mkIPNet [1; 0; 0; 0]%Z 8];
     env_local_ip := example_LOCAL_IP;
     env_proxy_ip := example_PROXY_IP;
     env_race u req :=
       match u with
       | ABROAD => RaceOk (response_A req "example.org." [1; 2; 3; 4]%Z)
       | OBEDIENT => RaceErr "timeout"
       end;
     env_shared _ := RaceErr "shared";
     env_write _ := None |}.


(** Scenario S1 with a writer that fails. *)
Definition env_S1_write_fails : dns_env :=
  {| env_cached _ := None;
     env_matcher := newDomainMatch [] ["example.net"];
     env_ip_match ip := ipInIPNetList ip [mkIPNet [1; 0; 0; 0]%Z 8];
     env_local_ip := example_LOCAL_IP;
     env_proxy_ip := example_PROXY_IP;
     env_race u req :=
       match u with
       | ABROAD => RaceOk (response_A req "foo.example.net." [93; 184; 216; 34]%Z)
       | OBEDIENT => RaceErr "no route"
       end;
     env_shared _ := RaceErr "shared";
     env_write _ := Some "write: broken pipe" |}.

(** A DoH response with an answer, an authority and an additional
    record. *)
Definition answered_repr : RespRepr :=
  mkRespRepr 0 false true true false false
             [mkDNSQuestion "www.example.org." 1]
             [mkDNSRR "www.example.org." 1 60 "93.184.216.34"]
             [mkDNSRR "example.org." 2 3600 "ns.example.org."]
             [mkDNSRR "ns.example.org." 1 3600 "93.184.216.35"]
             "114.114.114.0/24" EmptyString.

(** A query whose additional section holds a record with an OPT header
    that is not an [*OPT]. *)
Definition query_untyped_opt : Msg :=
  mkMsg (query_hdr 7) false [mkQuestion "example.org." TypeA ClassINET] [] []
        [RR_RFC3597 new_opt_hdr EmptyString].

(** * Properties *)

(** ** Lists: positions found by a scan *)

Section scan.
Context {A : Type} (p : A → bool).

Lemma find_index_insert (l : list A) i y :
  (∀ x, l !! i = Some x → p y = p x) →
  find_index p (<[i:=y]> l) = find_index p l.
Proof.
  revert i; induction l as [|x l IH]; intros [|i] Hy; simpl; try done.
  - by rewrite (Hy x).
  - by rewrite IH.
Qed.

Lemma find_last_index_insert (l : list A) i y :
  (∀ x, l !! i = Some x → p y = p x) →
  find_last_index p (<[i:=y]> l) = find_last_index p l.
Proof.
  revert i; induction l as [|x l IH]; intros [|i] Hy; simpl; try done.
  - by rewrite (Hy x).
  - by rewrite IH.
Qed.

Lemma find_index_lookup (l : list A) i :
  find_index p l = Some i → ∃ x, l !! i = Some x ∧ p x = true.
Proof.
  revert i; induction l as [|x l IH]; intros i; simpl; [done|].
  destruct (p x) eqn:Hp.
  - intros [= <-]. eauto.
  - destruct (find_index p l) as [j|]; simpl; [|done].
    intros [= <-]. by apply IH.
Qed.

Lemma find_last_index_lookup (l : list A) i :
  find_last_index p l = Some i → ∃ x, l !! i = Some x ∧ p x = true.
Proof.
  revert i; induction l as [|x l IH]; intros i; simpl; [done|].
  destruct (find_last_index p l) as [j|].
  - intros [= <-]. by apply IH.
  - destruct (p x) eqn:Hp; [|done]. intros [= <-]. eauto.
Qed.

Lemma find_index_None (l : list A) :
  find_index p l = None → Forall (λ x, p x = false) l.
Proof.
  induction l as [|x l IH]; simpl; [constructor|].
  destruct (p x) eqn:Hp; [done|].
  destruct (find_index p l); [done|]. intros _. constructor; auto.
Qed.

Lemma find_last_index_None (l : list A) :
  find_last_index p l = None → Forall (λ x, p x = false) l.
Proof.
  induction l as [|x l IH]; simpl; [constructor|].
  destruct (find_last_index p l); [done|].
  destruct (p x) eqn:Hp; [done|]. intros _. constructor; auto.
Qed.

Lemma find_index_snoc (l : list A) x :
  Forall (λ x, p x = false) l → p x = true →
  find_index p (l ++ [x]) = Some (length l).
Proof.
  intros Hl Hx. induction Hl as [|y l Hy _ IH]; simpl.
  - by rewrite Hx.
  - by rewrite Hy, IH.
Qed.

Lemma find_last_index_snoc (l : list A) x :
  p x = true → find_last_index p (l ++ [x]) = Some (length l).
Proof.
  intros Hx. induction l as [|y l IH]; simpl.
  - by rewrite Hx.
  - by rewrite IH.
Qed.

Lemma filter_all_false (l : list A) :
  Forall (λ x, p x = false) l → filter (λ x, p x = true) l = [].
Proof.
  induction 1 as [|y l Hy _ IH]; [done|].
  rewrite filter_cons_False; [done|]. by rewrite Hy.
Qed.

Lemma filter_insert_single (l : list A) i x y :
  l !! i = Some x → p x = true → p y = true →
  length (filter (λ x, p x = true) l) ≤ 1 →
  filter (λ x, p x = true) l = [x] ∧
  filter (λ x, p x = true) (<[i:=y]> l) = [y].
Proof.
  revert i; induction l as [|z l IH]; intros [|i] Hi Hx Hy Hlen;
    simplify_eq/=.
  - rewrite filter_cons_True in Hlen by done.
    rewrite !filter_cons_True by done. simpl in Hlen.
    destruct (filter _ l); [done|simpl in Hlen; lia].
  - destruct (p z) eqn:Hz.
    + rewrite filter_cons_True in Hlen by done. simpl in Hlen.
      assert (filter (λ x, p x = true) l = []) as Hnil
        by (destruct (filter _ l); [done|simpl in Hlen; lia]).
      exfalso. eapply (filter_nil_not_elem_of _ l x); [done|done|].
      by eapply list_elem_of_lookup_2.
    + rewrite filter_cons_False in Hlen by (by rewrite Hz).
      rewrite !filter_cons_False by (by rewrite Hz). by apply IH.
Qed.

End scan.

(** ** Setting the ECS option *)

Section set_ecs.
Context `{GoLib}.

Lemma opt_scan_insert (l : list RR) i h opts opts' :
  l !! i = Some (RR_OPT h opts) →
  opt_scan (<[i:=RR_OPT h opts']> l) = opt_scan l.
Proof.
  intros Hi. unfold opt_scan.
  destruct IsEdns0_from_end;
    [apply find_last_index_insert|apply find_index_insert];
    intros x Hx; by simplify_eq.
Qed.

Lemma opt_scan_lookup (l : list RR) i :
  opt_scan l = Some i → ∃ rr, l !! i = Some rr ∧ is_opt_hdr rr = true.
Proof.
  unfold opt_scan. destruct IsEdns0_from_end;
    [apply find_last_index_lookup|apply find_index_lookup].
Qed.

Lemma opt_scan_None (l : list RR) :
  opt_scan l = None → Forall (λ rr, is_opt_hdr rr = false) l.
Proof.
  unfold opt_scan. destruct IsEdns0_from_end;
    [apply find_last_index_None|apply find_index_None].
Qed.

Lemma opt_scan_snoc (l : list RR) rr :
  opt_scan l = None → is_opt_hdr rr = true →
  opt_scan (l ++ [rr]) = Some (length l).
Proof.
  intros Hl Hrr. pose proof (opt_scan_None _ Hl) as Hall.
  unfold opt_scan. destruct IsEdns0_from_end;
    [by apply find_last_index_snoc|by apply find_index_snoc].
Qed.

Lemma set_subnet_idem opts addr :
  set_subnet (set_subnet opts addr) addr = set_subnet opts addr.
Proof.
  induction opts as [|[s|c d] opts IH]; simpl; [done|done|by rewrite IH].
Qed.

Lemma set_subnet_single opts addr :
  length (subnet_options opts) ≤ 1 →
  subnet_options (set_subnet opts addr) = [ecs_assign addr].
Proof.
  induction opts as [|[s|c d] opts IH]; simpl; intros Hlen; [done| |by auto].
  destruct (subnet_options opts); [done|simpl in Hlen; lia].
Qed.

Lemma IsEdns0_unfold (m : Msg) :
  IsEdns0 m =
  match opt_scan (Extra m) with
  | None => Done None
  | Some i =>
      match Extra m !! i with
      | Some (RR_OPT h opts) => Done (Some (i, h, opts))
      | _ => Panic
      end
  end.
Proof. reflexivity. Qed.

Lemma MsgSetECSWithAddr_idem (m : Msg) (addr : IP) :
  MsgSetECSWithAddr_twice m addr = MsgSetECSWithAddr m addr.
Proof.
  unfold MsgSetECSWithAddr_twice, MsgSetECSWithAddr.
  destruct addr as [b|]; [|done].
  rewrite IsEdns0_unfold.
  destruct (opt_scan (Extra m)) as [i|] eqn:Hscan; simpl.
  - destruct (Extra m !! i) as [[| |h opts| |]|] eqn:Hi; simpl; try done.
    rewrite IsEdns0_unfold; simpl.
    rewrite (opt_scan_insert _ _ _ opts) by done. rewrite Hscan.
    rewrite list_lookup_insert_eq by (by eapply lookup_lt_Some).
    simpl. unfold set_Extra; simpl.
    by rewrite list_insert_insert_eq, set_subnet_idem.
  - rewrite IsEdns0_unfold; simpl.
    rewrite opt_scan_snoc by done.
    rewrite lookup_app_r, Nat.sub_diag by done. simpl.
    unfold set_Extra; simpl.
    replace (length (Extra m)) with (length (Extra m) + 0)%nat at 1 by lia.
    by rewrite insert_app_r.
Qed.

Lemma MsgSetECSWithAddr_nil (m : Msg) : MsgSetECSWithAddr m None = Done m.
Proof. reflexivity. Qed.

Lemma MsgSetECSWithAddr_post (m : Msg) (b : list Z) :
  forallb opt_typed (Extra m) = true →
  length (opt_records m) ≤ 1 →
  length (subnets_of m) ≤ 1 →
  ∃ m', MsgSetECSWithAddr m (Some b) = Done m' ∧ ecs_is_set m' (Some b).
Proof.
  intros Hty Hopt Hsub. unfold MsgSetECSWithAddr.
  rewrite IsEdns0_unfold.
  destruct (opt_scan (Extra m)) as [i|] eqn:Hscan; simpl.
  - destruct (opt_scan_lookup _ _ Hscan) as (rr & Hi & Hrr).
    rewrite Hi.
    assert (opt_typed rr = true) as Hrrty.
    { rewrite forallb_forall in Hty. apply Hty.
      apply list_elem_of_In. by eapply list_elem_of_lookup_2. }
    destruct rr as [| |h opts| |]; simpl in Hrrty;
      try (by rewrite Hrr in Hrrty).
    eexists; split; [done|].
    destruct (filter_insert_single is_opt_hdr (Extra m) i
                (RR_OPT h opts) (RR_OPT h (set_subnet opts (Some b))))
      as [Hold Hnew]; try done.
    unfold ecs_is_set, subnets_of, opt_records in *; simpl.
    rewrite Hnew. rewrite Hold in Hsub. simpl in *.
    rewrite app_nil_r in *. split; [done|].
    by apply set_subnet_single.
  - eexists; split; [done|].
    pose proof (filter_all_false is_opt_hdr _ (opt_scan_None _ Hscan)) as Hnil.
    unfold ecs_is_set, subnets_of, opt_records; simpl.
    rewrite filter_app, Hnil. rewrite filter_cons_True by done.
    done.
Qed.

(** What [MsgSetECSWithAddr] does to a message, in terms of the OPT record
    [IsEdns0] returns. *)
Lemma MsgSetECSWithAddr_cases (m : Msg) (b : list Z) (m' : Msg) :
  MsgSetECSWithAddr m (Some b) = Done m' →
  (∃ i h opts,
     IsEdns0 m = Done (Some (i, h, opts))
     ∧ Extra m !! i = Some (RR_OPT h opts)
     ∧ is_opt_hdr (RR_OPT h opts) = true
     ∧ m' = set_Extra (<[i := RR_OPT h (set_subnet opts (Some b))]> (Extra m)) m
     ∧ IsEdns0 m' = Done (Some (i, h, set_subnet opts (Some b))))
  ∨ (IsEdns0 m = Done None
     ∧ Forall (λ rr, is_opt_hdr rr = false) (Extra m)
     ∧ m' = set_Extra (Extra m ++ [RR_OPT new_opt_hdr (set_subnet [] (Some b))]) m
     ∧ IsEdns0 m'
       = Done (Some (length (Extra m), new_opt_hdr, set_subnet [] (Some b)))).
Proof.
  unfold MsgSetECSWithAddr. rewrite IsEdns0_unfold.
  destruct (opt_scan (Extra m)) as [i|] eqn:Hscan; simpl.
  - destruct (Extra m !! i) as [[| |h opts| |]|] eqn:Hi; simpl; try done.
    intros [= <-]. left. exists i, h, opts.
    destruct (opt_scan_lookup _ _ Hscan) as (rr & Hrr & Hopt).
    rewrite Hi in Hrr. injection Hrr as <-.
    repeat split; try done.
    rewrite IsEdns0_unfold; simpl.
    rewrite (opt_scan_insert _ _ _ opts) by done. rewrite Hscan.
    by rewrite list_lookup_insert_eq by (by eapply lookup_lt_Some).
  - intros [= <-]. right. repeat split; try done.
    + by apply opt_scan_None.
    + rewrite IsEdns0_unfold; simpl.
      rewrite opt_scan_snoc by done.
      by rewrite lookup_app_r, Nat.sub_diag by done.
Qed.

(** On a request without a subnet option, [MsgSetECSWithAddr] with an
    address that is not nil leaves that address's option as the only subnet
    option of the OPT record that [IsEdns0] then finds. *)
Lemma MsgSetECSWithAddr_carries (m : Msg) (addr : IP) (r : Msg) :
  has_ecs_option m = false →
  MsgSetECSWithAddr m addr = Done r →
  match addr with
  | Some _ => carries_ecs r addr
  | None => r = m
  end.
Proof.
  intros Hno Hset. destruct addr as [b|].
  - destruct (MsgSetECSWithAddr_cases m b r Hset)
      as [(i & h & opts & Hfind & _ & _ & _ & Hfind')
         |(_ & _ & _ & Hfind')].
    + exists i, h, (set_subnet opts (Some b)). split; [done|].
      apply set_subnet_single. unfold has_ecs_option in Hno.
      rewrite Hfind in Hno.
      destruct (subnet_options opts); simpl in *; [lia|done].
    + by eexists _, _, _.
  - by injection Hset as <-.
Qed.

End set_ecs.


(** ** The DNS front *)

Section dns_front.
Context `{GoLib}.

Lemma resolve_classify env req domain :
  misses_cache env req domain →
  resolve env req =
  (_ ← emit (EvDomainGet domain);
   _ ← emit (EvMatchGFW domain);
   if MatchGFW (env_matcher env) domain then resolve_gfw env req domain
   else
     _ ← emit (EvMatchObedient domain);
     if MatchObedient (env_matcher env) domain
     then resolve_obedient env req domain
     else resolve_unknown env req domain).
Proof.
  intros (q & qs & Hq & Hsuf & Hdom & Hget).
  unfold resolve. rewrite Hq, Hsuf, Hdom.
  cbn [lift mbind traced_bind result events]. rewrite Hget.
  destruct (MatchGFW (env_matcher env) domain); [reflexivity|].
  cbn [negb]. destruct (MatchObedient (env_matcher env) domain); reflexivity.
Qed.


Lemma probe_unshared env req p m :
  has_ecs_option req = false →
  probe_event req p m = EvRace (probe_upstream p) m
  ∧ probe_result env req p m = env_race env (probe_upstream p) m
  ∧ probe_race env req p m = race env (probe_upstream p) m.
Proof.
  intros Hno. unfold probe_race, probe_event, probe_result, race.
  by rewrite Hno.
Qed.

Lemma probe_shared env req p m :
  has_ecs_option req = true →
  probe_event req p m = EvRaceShared (probe_upstream p) m
  ∧ probe_result env req p m = env_shared env p.
Proof.
  intros Hsh. unfold probe_event, probe_result. by rewrite Hsh.
Qed.


(** C7: for a domain on the obedient list and not on the GFW list, when
    the obedient race fails or its response holds no address answer, the
    request is raced once more, on the abroad upstream after
    [MsgSetECSWithAddr] with [LOCAL_IP]; that race's response goes to the
    writer, or its error is propagated; [Add] is called on neither cache.
    The request raced the second time carries one OPT record with one
    subnet option, that of [LOCAL_IP], when [LOCAL_IP] is not nil and the
    request came with at most one record with an OPT header, an OPT record,
    holding at most one subnet option. *)
Theorem obedient_fallback_no_caching env req domain :
  misses_cache env req domain →
  MatchGFW (env_matcher env) domain = false →
  MatchObedient (env_matcher env) domain = true →
  ((∃ e, env_race env OBEDIENT req = RaceErr e)
   ∨ (∃ r, env_race env OBEDIENT req = RaceOk r
           ∧ MsgExtractAnswer (Some r) = None)) →
  cache_adds_of (events (handleDnsRequest env req)) = []
  ∧ shared_races_of (events (handleDnsRequest env req)) = []
  ∧ (∀ req', MsgSetECSWithAddr req (env_local_ip env) = Done req' →
       races_of (events (handleDnsRequest env req))
       = [(OBEDIENT, req); (ABROAD, req')]
       ∧ result (handleDnsRequest env req)
         = match env_race env ABROAD req' with
           | RaceOk resp => Done (written env resp)
           | RaceErr e => Done (Logged e)
           | RaceHang => Hang
           end)
  ∧ (∀ b, env_local_ip env = Some b →
          forallb opt_typed (Extra req) = true →
          length (opt_records req) ≤ 1 →
          length (subnets_of req) ≤ 1 →
          ∃ req', MsgSetECSWithAddr req (env_local_ip env) = Done req'
                  ∧ ecs_is_set req' (env_local_ip env)).
Proof.
  intros Hmiss Hgfw Hob Hfail. unfold handleDnsRequest.
  rewrite (resolve_classify _ _ _ Hmiss), Hgfw, Hob.
  unfold resolve_obedient, race.
  assert (∃ r, match env_race env OBEDIENT req with
               | RaceOk r => mret (inl r)
               | RaceErr e => mret (inr e)
               | RaceHang => lift Hang
               end = Traced [] (Done r) ∧ answered r = None) as (r & -> & Hr).
  { destruct Hfail as [[e ->]|(r & -> & Hr)].
    - by exists (inr e).
    - exists (inl r). split; [done|]. unfold answered. by rewrite Hr. }
  cbn. rewrite Hr. split; [|split; [|split]].
  - destruct (MsgSetECSWithAddr req (env_local_ip env)) as [req'| |];
      try done.
    cbn. by destruct (env_race env ABROAD req') as [resp|e|].
  - destruct (MsgSetECSWithAddr req (env_local_ip env)) as [req'| |];
      try done.
    cbn. by destruct (env_race env ABROAD req') as [resp|e|].
  - intros req' ->. cbn.
    by destruct (env_race env ABROAD req') as [resp|e|].
  - intros b -> Hty Hopt Hsub. by apply MsgSetECSWithAddr_post.
Qed.

(** The path of an unknown domain up to the result of the probe with the
    local address. *)
Lemma resolve_unknown_probes env req domain reqA reqB :
  misses_cache env req domain →
  MatchGFW (env_matcher env) domain = false →
  MatchObedient (env_matcher env) domain = false →
  MsgSetECSWithAddr req (env_proxy_ip env) = Done reqA →
  MsgSetECSWithAddr req (env_local_ip env) = Done reqB →
  resolve env req =
  (_ ← emit (EvDomainGet domain);
   _ ← emit (EvMatchGFW domain);
   _ ← emit (EvMatchObedient domain);
   _ ← emit (probe_event req RemoteIPProbe reqA);
   r ← probe_race env req LocalIPProbe reqB;
   match abroadQueryWithLocalSucceed r with
   | Some (resp, (i, answer, ip)) =>
       if negb (is_nil (To4 ip)) && env_ip_match env (To4 ip) then
         r' ← probe_race env req ClientRequest req;
         let '(resp, (i, answer, ip)) :=
           default (resp, (i, answer, ip)) (answered r') in
         resp' ← cache_answer domain resp i answer ip _TRANS_DIRECT;
         mret (inl resp')
       else
         match probe_result env req RemoteIPProbe reqA with
         | RaceHang => lift Hang
         | RaceOk m =>
             let '(resp, (i, answer, ip)) :=
               default (resp, (i, answer, ip)) (answered (inl m)) in
             resp' ← cache_answer domain resp i answer ip _TRANS_PROXY;
             mret (inl resp')
         | RaceErr _ =>
             resp' ← cache_answer domain resp i answer ip _TRANS_PROXY;
             mret (inl resp')
         end
   | None => resolve_unknown_failed env req domain
   end).
Proof.
  intros Hmiss Hgfw Hob HA HB.
  rewrite (resolve_classify _ _ _ Hmiss), Hgfw, Hob.
  unfold resolve_unknown. by rewrite HA, HB.
Qed.

End dns_front.

(** ** The gate *)

Lemma validate_first_call (g : Globals) :
  snd (validate newGlobalsValidator g) = validate_cond g.
Proof. unfold validate; simpl. by destruct (validate_cond g). Qed.

Lemma validate_cond_sound (g : Globals) :
  validate_cond g = true →
  ip_inner (_DEFAULT_IPCACHE g) ≠ None
  ∧ domain_inner (_DEFAULT_DOMAINCACHE g) ≠ None
  ∧ _DEFAULT_DOMAIN_MATCHER g ≠ None
  ∧ _IP_MATCH_CHINESE_MAINLAND g ≠ None
  ∧ _DNS_SUBNET_LOCAL_IP g ≠ None
  ∧ _DNSSTRANSPORT_OBEDIENT g ≠ None
  ∧ _DNSSTRANSPORT_ABROAD g ≠ None.
Proof.
  unfold validate_cond. rewrite !andb_true_iff, !negb_true_iff.
  intros [[[[[[[? ?] ?] ?] ?] ?] ?] ?].
  repeat split; intros E; rewrite E in *; discriminate.
Qed.

Lemma all_dependencies_set_validate (g : Globals) :
  all_dependencies_set g = true → validate_cond g = true.
Proof.
  unfold all_dependencies_set, validate_cond.
  rewrite !andb_true_iff. tauto.
Qed.

(** The gate's answer does not depend on [PROXY_IP]. *)
Lemma validate_ignores_PROXY_IP ipc domainc dm ipMatchCHN local proxy ob ab :
  validate_cond (InitGlobals ipc domainc dm ipMatchCHN local proxy ob ab)
  = validate_cond (InitGlobals ipc domainc dm ipMatchCHN local None ob ab).
Proof. reflexivity. Qed.

(** Once the gate has answered, it answers the same whatever the globals
    have become. *)
Lemma validate_once (v : globalsValidator) (g g' : Globals) :
  snd (validate (fst (validate v g)) g') = snd (validate v g).
Proof.
  unfold validate. destruct (once_done v) eqn:Hdone; simpl.
  - by rewrite Hdone.
  - done.
Qed.

(** C1: the gate lets both fronts start although a core dependency, the
    ECS sentinel [PROXY_IP], is nil: with every other dependency set,
    [validate] returns true, and [ServeDNS] and [ServeProxy] go on to
    serve instead of returning the gate's error. *)
Theorem gate_passes_without_PROXY_IP :
  all_dependencies_set globals_without_PROXY_IP = false
  ∧ snd (validate newGlobalsValidator globals_without_PROXY_IP) = true
  ∧ snd (ServeDNS newGlobalsValidator globals_without_PROXY_IP ":53")
    = Serving ":53"
  ∧ snd (ServeProxy newGlobalsValidator globals_without_PROXY_IP ":1080")
    = Serving ":1080".
Proof. repeat split. Qed.

(** ** The caches *)

Section caches.
Context `{GoLib}.

Lemma cache_Get_set {V} (k : string) (v : V) now (s : Cache V) :
  cache_Get k now (cache_set k v now s) = Some v.
Proof.
  unfold cache_Get, cache_set, item_expired; simpl.
  rewrite lookup_insert_eq.
  destruct (Z.ltb_spec 0 (defaultExpiration s)); [|done].
  destruct (Z.ltb_spec 0 (now + defaultExpiration s)); [|done].
  destruct (Z.ltb_spec (now + defaultExpiration s) now); [lia|done].
Qed.

Lemma cache_Get_set_ne {V} (k k' : string) (v : V) now now' (s : Cache V) :
  k ≠ k' → cache_Get k' now' (cache_set k v now s) = cache_Get k' now' s.
Proof.
  intros Hne. unfold cache_Get, cache_set; simpl.
  by rewrite lookup_insert_ne.
Qed.

(** The library's [Add] on a key that holds an item which has not
    expired: nothing is stored and the error is returned. *)
Lemma cache_Add_found {V} (k : string) (v old : V) now (s : Cache V) :
  cache_Get k now s = Some old →
  cache_Add k v now s = (s, Some ("Item " +:+ k +:+ " already exists")).
Proof. intros Hget. unfold cache_Add. by rewrite Hget. Qed.

(** The library's [Add] on a key that is absent or whose item has
    expired: the item is stored, and a lookup right after is a hit. *)
Lemma cache_Add_absent {V} (k : string) (v : V) now (s : Cache V) :
  cache_Get k now s = None →
  cache_Add k v now s = (cache_set k v now s, None)
  ∧ cache_Get k now (fst (cache_Add k v now s)) = Some v
  ∧ cache_expires k (fst (cache_Add k v now s))
    = Some (if (0 <? defaultExpiration s)%Z
            then (now + defaultExpiration s)%Z else 0%Z).
Proof.
  intros Hget. unfold cache_Add. rewrite Hget. simpl.
  split; [done|]. split; [apply cache_Get_set|].
  unfold cache_expires, cache_set; simpl. by rewrite lookup_insert_eq.
Qed.

Lemma cache_Add_items_ne {V} (k k' : string) (v : V) now (s : Cache V) :
  k ≠ k' → items (fst (cache_Add k v now s)) !! k' = items s !! k'.
Proof.
  intros Hne. unfold cache_Add.
  destruct (cache_Get k now s); simpl; [done|].
  by rewrite lookup_insert_ne.
Qed.

(** The empty string is never a key of a cache the package built. *)
Lemma ipcache_reachable_inv (c : ipcache) :
  ipcache_reachable c →
  ∃ s, ip_inner c = Some s ∧ items s !! "" = None.
Proof.
  induction 1 as [d i|c ip t now c' _ (s & Hs & Hempty) Hadd
                  |s now _ (s' & Hs & Hempty)].
  - eexists; split; [done|]. apply lookup_empty.
  - unfold ipcache_Add in Hadd. case_bool_decide as Hip.
    + simplify_eq. eauto.
    + rewrite Hs in Hadd. simplify_eq. eexists; split; [done|].
      by rewrite cache_Add_items_ne.
  - simplify_eq/=. eexists; split; [done|]; simpl.
    apply map_lookup_filter_None. by left.
Qed.

Lemma domaincache_reachable_inv (c : domaincache) :
  domaincache_reachable c →
  ∃ s, domain_inner c = Some s ∧ items s !! "" = None.
Proof.
  induction 1 as [d i|c domain answer t now answer' c' _ (s & Hs & Hempty) Hadd
                  |s now _ (s' & Hs & Hempty)].
  - eexists; split; [done|]. apply lookup_empty.
  - unfold domaincache_Add in Hadd. case_bool_decide as Hd.
    + simplify_eq. eauto.
    + rewrite Hs in Hadd. simplify_eq. eexists; split; [done|].
      by rewrite cache_Add_items_ne.
  - simplify_eq/=. eexists; split; [done|]; simpl.
    apply map_lookup_filter_None. by left.
Qed.

Lemma cache_Get_Some_key {V} (k : string) now (s : Cache V) v :
  cache_Get k now s = Some v → is_Some (items s !! k).
Proof.
  unfold cache_Get. destruct (items s !! k) as [[x e]|]; [eauto|done].
Qed.

(** On a key that a lookup misses, both wrappers store the entry, and a
    lookup right after is a hit on it. *)
Lemma Add_stores_on_a_miss :
  (∀ c ip t now,
     ip ≠ "" → ipcache_Get c ip now = Done None →
     ∃ c', ipcache_Add c ip t now = Done c'
           ∧ ipcache_Get c' ip now = Done (Some t))
  ∧ (∀ c domain answer t now,
       domain ≠ "" → domaincache_Get c domain now = Done None →
       ∃ c', domaincache_Add c domain answer t now
             = Done (normalize_owner domain answer, c')
             ∧ domaincache_Get c' domain now
               = Done (Some (mkCell (normalize_owner domain answer) t))).
Proof.
  split.
  - intros [[s|]] ip t now Hip Hget; [|done].
    unfold ipcache_Get, ipcache_Add in *; simpl in *.
    rewrite bool_decide_eq_false_2 by done. injection Hget as Hget.
    eexists; split; [done|]; simpl.
    by destruct (cache_Add_absent ip t now s Hget) as (_ & -> & _).
  - intros [[s|]] domain answer t now Hd Hget; [|done].
    unfold domaincache_Get, domaincache_Add in *; simpl in *.
    rewrite bool_decide_eq_false_2 by done. injection Hget as Hget.
    eexists; split; [done|]; simpl.
    by destruct (cache_Add_absent domain
                   (mkCell (normalize_owner domain answer) t) now s Hget)
      as (_ & -> & _).
Qed.

(** C2: in both caches, when a key holds an unexpired entry, [Add] with
    that key and a new value does not overwrite: the wrappers call the
    library's [Add], which stores only under a key that is absent or
    expired, and drop its error.  The cache is left as it was, so a [Get]
    right after returns the old value and the entry's expiry is not reset.
    The domain cache's [Add] has by then written the owner name of the
    answer it was given. *)
Theorem Add_keeps_unexpired_entry :
  (∀ c ip t now old,
     ipcache_Get c ip now = Done (Some old) →
     ipcache_Add c ip t now = Done c
     ∧ ∀ c', ipcache_Add c ip t now = Done c' →
             ipcache_Get c' ip now = Done (Some old)
             ∧ ipcache_expires c' ip = ipcache_expires c ip)
  ∧ (∀ c domain answer t now old,
       domaincache_Get c domain now = Done (Some old) →
       domaincache_Add c domain answer t now
       = Done (normalize_owner domain answer, c)
       ∧ ∀ answer' c',
           domaincache_Add c domain answer t now = Done (answer', c') →
           domaincache_Get c' domain now = Done (Some old)
           ∧ domaincache_expires c' domain = domaincache_expires c domain).
Proof.
  assert (∀ c ip t now old,
            ipcache_Get c ip now = Done (Some old) →
            ipcache_Add c ip t now = Done c) as Hip.
  { intros [[s|]] ip t now old Hget; [|done].
    unfold ipcache_Get, ipcache_Add in *; simpl in *.
    injection Hget as Hget. case_bool_decide; [done|].
    by rewrite (cache_Add_found _ _ _ _ _ Hget). }
  assert (∀ c domain answer t now old,
            domaincache_Get c domain now = Done (Some old) →
            domaincache_Add c domain answer t now
            = Done (normalize_owner domain answer, c)) as Hdom.
  { intros [[s|]] domain answer t now old Hget; [|done].
    unfold domaincache_Get, domaincache_Add in *; simpl in *.
    injection Hget as Hget. case_bool_decide as Hd.
    - unfold normalize_owner. by rewrite bool_decide_eq_true_2.
    - by rewrite (cache_Add_found _ _ _ _ _ Hget). }
  split.
  - intros c ip t now old Hget. split; [by eapply Hip|].
    intros c' Hadd. rewrite (Hip _ _ _ _ _ Hget) in Hadd.
    by injection Hadd as <-.
  - intros c domain answer t now old Hget. split; [by eapply Hdom|].
    intros answer' c' Hadd. rewrite (Hdom _ _ _ _ _ _ Hget) in Hadd.
    by injection Hadd as _ <-.
Qed.

End caches.

(** ** The proxy front *)

(** C9: [setRedirect] of a SOCKS5 request, for any address, IPv6
    addresses with no IPv4 form included, sets the target host to the
    address's text and the address type to the IPv4 tag. *)
Theorem socks5_setRedirect_always_IPv4 `{GoLib} (r : socks5Request) (ip : IP) :
  getHostName (setRedirect r ip) = IP_String ip
  ∧ getAddrType (setRedirect r ip) = AddrIPv4
  ∧ Port (Addr (s5_req (setRedirect r ip))) = Port (Addr (s5_req r)).
Proof.
  simpl. unfold socks5_setRedirect; simpl.
  repeat split; try by destruct (To4 ip).
Qed.

(** ** The race *)

(** The schedule in which each failing goroutine loads [failedTimes]
    before any of them adds to it. *)
Lemma race_all_failed_stuck_state (e1 e2 e3 : error) :
  ∃ s, race_reachable [ExErr e1; ExErr e2; ExErr e3] s
       ∧ race_stuck s
       ∧ caller s = CRecvResp
       ∧ resp_chan s = []
       ∧ failedTimes s = 3%Z.
Proof.
  eexists. split.
  - exists [Goroutine 0; Goroutine 1; Goroutine 2;
            Goroutine 0; Goroutine 1; Goroutine 2]. reflexivity.
  - repeat split. intros [|i]; [done|].
    by destruct i as [|[|[|i]]].
Qed.

(** C5: when all three [Exchange] calls fail, the race need not return:
    if each goroutine loads [failedTimes] before any of them adds to it,
    none of them sees the value two, nothing is ever sent on [resp], and the
    caller stays in its receive for ever; so the race does not always
    return the nil response with the last error. *)
Theorem race_all_failed_may_hang (e1 e2 e3 : error) :
  (∃ s, race_reachable [ExErr e1; ExErr e2; ExErr e3] s
        ∧ race_stuck s
        ∧ caller s = CRecvResp
        ∧ resp_chan s = [])
  ∧ ¬ race_spec [ExErr e1; ExErr e2; ExErr e3].
Proof.
  destruct (race_all_failed_stuck_state e1 e2 e3)
    as (s & Hreach & Hstuck & Hc & Hch & _).
  split; [by exists s|].
  intros Hspec. specialize (Hspec s Hreach Hstuck). by rewrite Hc in Hspec.
Qed.

(** When the goroutines fail one after the other, the last one reports:
    the caller gets the nil response and the last error. *)
Lemma race_all_failed_in_turn (e1 e2 e3 : error) :
  ∃ s, race_reachable [ExErr e1; ExErr e2; ExErr e3] s
       ∧ race_stuck s
       ∧ caller s = CReturned (inr e3).
Proof.
  eexists. split.
  - exists [Goroutine 0; Goroutine 0; Goroutine 1; Goroutine 1;
            Goroutine 2; Goroutine 2; Caller; Goroutine 2]. reflexivity.
  - split; [|done]. intros [|i]; [done|].
    by destruct i as [|[|[|i]]].
Qed.






(** ** DoH *)

Section doh.
Context `{GoLib}.

Lemma doh_query_no_opt (req : Msg) q qs :
  Questions req = q :: qs →
  opt_scan (Extra req) = None →
  doh_query req
  = Done (None, Query_values (Qtype q) (QName q) [IP_String None]).
Proof.
  intros Hq Hscan. unfold doh_query. rewrite Hq.
  unfold IsEdns0. by rewrite Hscan.
Qed.

Lemma Query_values_subnet qtype name (e : string) rest :
  Query_values qtype name (e :: rest) !! "edns_client_subnet"
  = Some [if bool_decide (e = "") then "0.0.0.0/0" else e].
Proof.
  unfold Query_values, Values_Add.
  rewrite lookup_insert_eq.
  rewrite !lookup_insert_ne by done. by rewrite lookup_empty.
Qed.

Lemma Query_values_name qtype name ecs :
  Query_values qtype name ecs !! "name" = Some [name].
Proof.
  unfold Query_values, Values_Add. destruct ecs as [|e rest].
  - rewrite !lookup_insert_ne by done. by rewrite lookup_insert_eq.
  - rewrite !lookup_insert_ne by done. by rewrite lookup_insert_eq.
Qed.

Lemma Query_values_type qtype name ecs :
  Query_values qtype name ecs !! "type" = Some [Sprintf_v qtype].
Proof.
  unfold Query_values, Values_Add. destruct ecs as [|e rest].
  - rewrite lookup_insert_eq. by rewrite lookup_insert_ne, lookup_empty.
  - rewrite lookup_insert_ne by done. rewrite lookup_insert_eq.
    by rewrite lookup_insert_ne, lookup_empty.
Qed.

(** When the OPT record of the request holds a subnet option, the value
    sent is the text of the address of the last such option. *)
Lemma doh_query_with_opt (req : Msg) q qs i h opts :
  Questions req = q :: qs →
  IsEdns0 req = Done (Some (i, h, opts)) →
  ∃ vs, doh_query req = Done (last_subnet_address opts, vs)
        ∧ vs !! "name" = Some [QName q]
        ∧ vs !! "type" = Some [Sprintf_v (Qtype q)]
        ∧ vs !! "edns_client_subnet"
          = Some [if bool_decide (IP_String (last_subnet_address opts) = "")
                  then "0.0.0.0/0"
                  else IP_String (last_subnet_address opts)].
Proof.
  intros Hq Hopt. unfold doh_query. rewrite Hq, Hopt.
  eexists; split; [reflexivity|].
  by rewrite Query_values_name, Query_values_type, Query_values_subnet.
Qed.

(** C6: for a request without an additional section, hence without an
    ECS option, sent over https, the GET carries the question's name and
    type and still an [edns_client_subnet] value: the text of the nil
    address, or the default when that text is empty. *)
Theorem doh_GET_carries_subnet_without_ECS (id : Z) (name : string) :
  has_ecs_option (query_A id name) = false
  ∧ ∃ vs, Exchange_GET example_doh_transport (query_A id name) = Done (Some vs)
          ∧ vs !! "name" = Some [name]
          ∧ vs !! "type" = Some ["1"]
          ∧ vs !! "edns_client_subnet"
            = Some [if bool_decide (IP_String None = "")
                    then "0.0.0.0/0" else IP_String None].
Proof.
  assert (opt_scan (Extra (query_A id name)) = None) as Hscan.
  { unfold opt_scan; simpl. by destruct IsEdns0_from_end. }
  split.
  - unfold has_ecs_option, IsEdns0. by rewrite Hscan.
  - unfold Exchange_GET.
    rewrite (doh_query_no_opt (query_A id name)
               (mkQuestion name TypeA ClassINET) [] eq_refl Hscan).
    exists (Query_values TypeA name [IP_String None]).
    split; [done|].
    by rewrite Query_values_name, Query_values_type, Query_values_subnet.
Qed.

Lemma doh_questions_total (cs : list DNSQuestion) (reqq : list Question) :
  length cs ≤ length reqq → ∃ qs, doh_questions cs reqq = Done qs.
Proof.
  revert reqq; induction cs as [|c cs IH]; intros [|rq reqq] Hlen;
    simpl in *; eauto; [lia|].
  destruct (IH reqq) as [qs ->]; [lia|]. simpl. eauto.
Qed.

Lemma RRNewFromGoogleDohRR_opt_typed (grr : DNSRR) :
  opt_typed (RRNewFromGoogleDohRR grr) = true.
Proof.
  unfold RRNewFromGoogleDohRR, TypeToRR, opt_typed, is_opt_hdr.
  destruct (uint16 (drr_Type grr) =? TypeA)%Z eqn:EA; simpl.
  { apply Z.eqb_eq in EA. by rewrite EA. }
  destruct (uint16 (drr_Type grr) =? TypeAAAA)%Z eqn:E4; simpl.
  { apply Z.eqb_eq in E4. by rewrite E4. }
  destruct (uint16 (drr_Type grr) =? TypeOPT)%Z eqn:EO; simpl; [done|].
  destruct (TypeToRR_other _); simpl; by rewrite EO.
Qed.

Lemma MsgSetECSWithAddr_hdr (m : Msg) (addr : IP) :
  forallb opt_typed (Extra m) = true →
  ∃ m', MsgSetECSWithAddr m addr = Done m' ∧ MsgHdr_ m' = MsgHdr_ m.
Proof.
  intros Hty. unfold MsgSetECSWithAddr. destruct addr as [b|]; [|eauto].
  unfold IsEdns0.
  destruct (opt_scan (Extra m)) as [i|] eqn:Hscan; simpl; [|eauto].
  destruct (opt_scan_lookup _ _ Hscan) as (rr & Hi & Hrr). rewrite Hi.
  assert (opt_typed rr = true) as Hrrty.
  { rewrite forallb_forall in Hty. apply Hty.
    apply list_elem_of_In. by eapply list_elem_of_lookup_2. }
  destruct rr; simpl in Hrrty; try (by rewrite Hrr in Hrrty).
  simpl. eauto.
Qed.

(** C10: the message translated from a DoH response carries the
    response's [Status] as its RCODE, and its Response flag is set exactly
    when the [Status] is zero. *)
Theorem doh_Response_flag_is_Status_zero req rt ecs vs dohresp :
  doh_query req = Done (ecs, vs) →
  rt vs = inl dohresp →
  length (doh_Question dohresp) ≤ length (Questions req) →
  ∃ resp, MsgExchangeOverGoogleDOH req rt = Done (inl resp)
          ∧ msg_Rcode resp = Status dohresp
          ∧ msg_Response resp = (Status dohresp =? 0)%Z
          ∧ (Status dohresp ≠ 0%Z → msg_Response resp = false)
          ∧ (Status dohresp = 0%Z → msg_Response resp = true).
Proof.
  intros Hq Hrt Hlen. unfold MsgExchangeOverGoogleDOH.
  rewrite Hq; simpl. rewrite Hrt.
  destruct (doh_questions_total _ _ Hlen) as [qs ->]; simpl.
  assert (∃ resp,
    (if is_nil ecs then Done (doh_msg req dohresp qs)
     else MsgSetECSWithAddr (doh_msg req dohresp qs) ecs) = Done resp
    ∧ MsgHdr_ resp = MsgHdr_ (doh_msg req dohresp qs)) as (resp & -> & Hhdr).
  { destruct (is_nil ecs); [eauto|].
    apply MsgSetECSWithAddr_hdr; simpl.
    apply forallb_forall. intros rr [grr [<- _]]%in_map_iff.
    apply RRNewFromGoogleDohRR_opt_typed. }
  simpl. eexists; split; [done|].
  unfold msg_Rcode, msg_Response. rewrite Hhdr; simpl.
  repeat split; try done.
  - intros Hne. by apply Z.eqb_neq.
  - intros ->. done.
Qed.

End doh.

(** ** Setting the ECS option: idempotence and the resulting message *)

(** C8: setting the ECS twice gives what setting it once gives, for every
    message and every address.  With a nil address the message is left as
    it is.  With a non-nil address, on a message in which every record with
    an OPT header is an OPT record, and which holds at most one such
    record, with at most one subnet option, the message ends with
    exactly one OPT record and exactly one subnet option, of family 1 and
    prefix 32 for an IPv4 address, family 2 and prefix 128 otherwise, scope
    0, and the address given. *)
Theorem set_ECS_idempotent `{GoLib} (m : Msg) (addr : IP) :
  MsgSetECSWithAddr_twice m addr = MsgSetECSWithAddr m addr
  ∧ (addr = None → MsgSetECSWithAddr m addr = Done m)
  ∧ (addr ≠ None →
     forallb opt_typed (Extra m) = true →
     length (opt_records m) ≤ 1 →
     length (subnets_of m) ≤ 1 →
     ∃ m', MsgSetECSWithAddr m addr = Done m'
           ∧ length (opt_records m') = 1
           ∧ subnets_of m'
             = [{| Code := EDNS0SUBNET;
                   Family := if is_nil (To4 addr) then 2 else 1;
                   SourceNetmask := if is_nil (To4 addr) then 128 else 32;
                   SourceScope := 0;
                   Address := addr |}]).
Proof.
  split; [apply MsgSetECSWithAddr_idem|]. split.
  - by intros ->.
  - destruct addr as [b|]; [|done]. intros _ Hty Hopt Hsub.
    destruct (MsgSetECSWithAddr_post m b Hty Hopt Hsub) as (m' & Hm' & H1 & H2).
    eauto.
Qed.

(** * The theorems at concrete inputs *)

Section examples.
#[local] Existing Instance example_lib.

Lemma Add_keeps_unexpired_witness :
  (ipcache_Get example_ipcache "1.2.3.4" 10 = Done (Some _TRANS_PROXY)
   ∧ ∃ c', ipcache_Add example_ipcache "1.2.3.4" _TRANS_DIRECT 10 = Done c'
           ∧ ipcache_Get c' "1.2.3.4" 10 = Done (Some _TRANS_PROXY)
           ∧ ipcache_expires c' "1.2.3.4" = Some 300%Z)
  ∧ (∃ answer' c',
       domaincache_Add example_domaincache "www.cn.example"
         (example_answer "WWW.CN.EXAMPLE." [1; 2; 3; 4]%Z) _TRANS_DIRECT 10
       = Done (answer', c')
       ∧ answer' = example_answer "www.cn.example." [1; 2; 3; 4]%Z
       ∧ domaincache_Get c' "www.cn.example" 10
         = Done (Some (mkCell (example_answer "www.cn.example."
                                              [93; 184; 216; 34]%Z)
                              _TRANS_PROXY))
       ∧ domaincache_expires c' "www.cn.example" = Some 300%Z).
Proof.
  destruct Add_keeps_unexpired_entry as [Hip Hdom].
  split; [split; [reflexivity|]|].
  - destruct (Hip example_ipcache "1.2.3.4" _TRANS_DIRECT 10%Z _TRANS_PROXY
                eq_refl) as [Hadd Hafter].
    exists example_ipcache. split; [exact Hadd|].
    destruct (Hafter _ Hadd) as [Hget Hexp].
    split; [exact Hget|]. reflexivity.
  - assert (domaincache_Get example_domaincache "www.cn.example" 10
            = Done (Some (mkCell (example_answer "www.cn.example."
                                                 [93; 184; 216; 34]%Z)
                                 _TRANS_PROXY))) as Hhit by reflexivity.
    destruct (Hdom example_domaincache "www.cn.example"
                (example_answer "WWW.CN.EXAMPLE." [1; 2; 3; 4]%Z)
                _TRANS_DIRECT 10%Z _ Hhit) as [Hadd Hafter].
    eexists _, example_domaincache. split; [exact Hadd|].
    split; [reflexivity|].
    destruct (Hafter _ _ Hadd) as [Hget Hexp].
    split; [exact Hget|]. reflexivity.
Defined.


Example To4_of_parsed_address :
  To4 example_LOCAL_IP = Some [114; 114; 114; 114]%Z
  ∧ To4 (Some [32; 1; 13; 184; 0; 0; 0; 0; 0; 0; 0; 0; 0; 0; 0; 1]%Z) = None
  ∧ To4 None = None.
Proof. done. Qed.

Example domainMatchList_suffix :
  domainMatchList "foo.example.net" ["example.net"] = true
  ∧ domainMatchList "example.net" ["example.net"] = true
  ∧ domainMatchList "fooexample.net" ["example.net"] = false.
Proof. done. Qed.

(** A name of the pseudo-zone is answered with an empty reply before the
    cache and the matchers are looked at. *)
Example pseudo_zone_reply :
  handleDnsRequest env_S1 (query_A 7 "printer.DHCP\ HOST.")
  = Traced [] (Done (Wrote (MsgNewReplyFromReq
                              (query_A 7 "printer.DHCP\ HOST.") []))).
Proof. reflexivity. Qed.

(** A query without a question makes the handler panic. *)
Example no_question_panics :
  result (handleDnsRequest env_S1
            (mkMsg (query_hdr 7) false [] [] [] [])) = Panic.
Proof. reflexivity. Qed.

Lemma misses_cache_query_A env id name domain :
  HasSuffix name DHCP_HOST = false →
  slice_to_last name = Done domain →
  env_cached env domain = None →
  misses_cache env (query_A id name) domain.
Proof. intros ? ? ?. by eexists _, _. Qed.



Lemma obedient_fallback_witness :
  let req := query_A 7 "www.cn.example." in
  MatchObedient (env_matcher env_obedient_down) "www.cn.example" = true
  ∧ env_race env_obedient_down OBEDIENT req = RaceErr "timeout"
  ∧ cache_adds_of (events (handleDnsRequest env_obedient_down req)) = []
  ∧ races_of (events (handleDnsRequest env_obedient_down req))
    = [(OBEDIENT, req); (ABROAD, with_ecs req example_LOCAL_IP)]
  ∧ ecs_is_set (with_ecs req example_LOCAL_IP) example_LOCAL_IP
  ∧ result (handleDnsRequest env_obedient_down req)
    = Done (Wrote (response_A (with_ecs req example_LOCAL_IP)
                              "www.cn.example." [1; 2; 3; 4]%Z)).
Proof.
  cbv zeta. split; [reflexivity|]. split; [reflexivity|].
  assert (misses_cache env_obedient_down (query_A 7 "www.cn.example.")
            "www.cn.example") as Hmiss
    by (by apply misses_cache_query_A).
  destruct (obedient_fallback_no_caching env_obedient_down
              (query_A 7 "www.cn.example.") "www.cn.example"
              Hmiss eq_refl eq_refl
              (or_introl (ex_intro _ "timeout" eq_refl)))
    as (Hadds & _ & Hrest & Hset).
  split; [exact Hadds|].
  assert (MsgSetECSWithAddr (query_A 7 "www.cn.example.")
            (env_local_ip env_obedient_down)
          = Done (with_ecs (query_A 7 "www.cn.example.") example_LOCAL_IP))
    as Hecs by reflexivity.
  destruct (Hrest _ Hecs) as [Hraces Hres].
  split; [exact Hraces|]. split; [|exact Hres].
  assert (length (opt_records (query_A 7 "www.cn.example.")) ≤ 1)
    as Hopt by (simpl; lia).
  assert (length (subnets_of (query_A 7 "www.cn.example.")) ≤ 1)
    as Hsub by (simpl; lia).
  destruct (Hset (v4InV6Prefix ++ [114; 114; 114; 114]%Z)
              eq_refl eq_refl Hopt Hsub) as (req' & Hreq' & Hcarried).
  rewrite Hecs in Hreq'. injection Hreq' as <-. exact Hcarried.
Defined.

(** C7, as stated, fails on a request that came with two subnet options:
    the message of the retry holds the option of [LOCAL_IP] and the
    client's second one, which is the one a DoH upstream is sent. *)
Lemma obedient_retry_ECS_is_not_always_LOCAL_IP :
  MatchObedient (env_matcher env_obedient_org_down) "example.org" = true
  ∧ env_race env_obedient_org_down OBEDIENT query_two_subnets
    = RaceErr "timeout"
  ∧ ∃ m, races_of (events (handleDnsRequest env_obedient_org_down
                             query_two_subnets))
         = [(OBEDIENT, query_two_subnets); (ABROAD, m)]
         ∧ subnets_of m = [ecs_assign example_LOCAL_IP;
                           ecs_assign (Some [10; 0; 0; 2]%Z)]
         ∧ ¬ ecs_is_set m example_LOCAL_IP
         ∧ ∃ vs, Exchange_GET example_doh_transport m = Done (Some vs)
                 ∧ vs !! "edns_client_subnet" = Some ["10.0.0.2"].
Proof.
  split; [reflexivity|]. split; [reflexivity|].
  eexists. split; [reflexivity|]. split; [reflexivity|].
  split; [intros [_ Hsub]; discriminate Hsub|].
  eexists. split; reflexivity.
Qed.


Lemma set_ECS_idempotent_witness :
  let req := query_A 7 "example.org." in
  MsgSetECSWithAddr_twice req example_LOCAL_IP
  = MsgSetECSWithAddr req example_LOCAL_IP
  ∧ ∃ m', MsgSetECSWithAddr req example_LOCAL_IP = Done m'
          ∧ length (opt_records m') = 1
          ∧ subnets_of m'
            = [{| Code := 8; Family := 1; SourceNetmask := 32;
                  SourceScope := 0; Address := example_LOCAL_IP |}].
Proof.
  destruct (set_ECS_idempotent (query_A 7 "example.org.") example_LOCAL_IP)
    as (Hidem & _ & Hpost).
  split; [exact Hidem|].
  apply Hpost; [discriminate|reflexivity|simpl; lia|simpl; lia].
Defined.

(** C8, as stated, fails on four inputs: with the nil address the
    message is left without any OPT record; on a request whose OPT record
    holds two subnet options the second one stays; on a request with two
    OPT records both stay; and on a request whose record with the OPT
    header is not an OPT record the call panics, although that request
    holds one such record and no subnet option. *)
Lemma set_ECS_postcondition_fails :
  (MsgSetECSWithAddr (query_A 7 "example.org.") None
   = Done (query_A 7 "example.org.")
   ∧ ¬ ecs_is_set (query_A 7 "example.org.") None)
  ∧ (∃ m', MsgSetECSWithAddr query_two_subnets example_LOCAL_IP = Done m'
           ∧ subnets_of m'
             = [ecs_assign example_LOCAL_IP;
                ecs_assign (Some [10; 0; 0; 2]%Z)]
           ∧ ¬ ecs_is_set m' example_LOCAL_IP)
  ∧ (∃ m', MsgSetECSWithAddr query_two_opts example_LOCAL_IP = Done m'
           ∧ length (opt_records m') = 2
           ∧ ¬ ecs_is_set m' example_LOCAL_IP)
  ∧ (length (opt_records query_untyped_opt) = 1
     ∧ subnets_of query_untyped_opt = []
     ∧ MsgSetECSWithAddr query_untyped_opt example_LOCAL_IP = Panic
     ∧ MsgSetECSWithAddr_twice query_untyped_opt example_LOCAL_IP = Panic).
Proof.
  split; [|split; [|split]].
  - split; [reflexivity|]. intros [Hlen _]. discriminate Hlen.
  - eexists. split; [reflexivity|]. split; [reflexivity|].
    intros [_ Hsub]. discriminate Hsub.
  - eexists. split; [reflexivity|]. split; [reflexivity|].
    intros [Hlen _]. discriminate Hlen.
  - repeat split.
Qed.

Lemma doh_Response_flag_witness :
  let req := query_A 7 "nowhere.test." in
  ∃ resp, MsgExchangeOverGoogleDOH req (λ _, inl nxdomain_repr)
          = Done (inl resp)
          ∧ msg_Rcode resp = 3%Z
          ∧ msg_Response resp = false.
Proof.
  cbv zeta.
  assert (doh_query (query_A 7 "nowhere.test.")
          = Done (None, Query_values TypeA "nowhere.test." [IP_String None]))
    as Hq by reflexivity.
  destruct (doh_Response_flag_is_Status_zero (query_A 7 "nowhere.test.")
              (λ _, inl nxdomain_repr) _ _ nxdomain_repr Hq eq_refl)
    as (resp & Hresp & Hrc & Hflag & _); [simpl; lia|].
  exists resp. split; [exact Hresp|]. split; [exact Hrc|exact Hflag].
Defined.

(** With the example library the value sent for a request without ECS is
    the text of the nil address. *)
Lemma doh_GET_sends_nil_text :
  ∃ vs, Exchange_GET example_doh_transport (query_A 7 "foo.example.net.")
        = Done (Some vs)
        ∧ vs !! "edns_client_subnet" = Some ["<nil>"]
        ∧ dom vs = {["name"; "type"; "edns_client_subnet"]}.
Proof.
  eexists. split; [reflexivity|]. split; [reflexivity|].
  unfold Query_values, Values_Add. rewrite !dom_insert_L, dom_empty_L.
  set_solver.
Qed.

End examples.

(** * Further properties of the message utilities *)

Section msg_utils.
Context `{GoLib}.

Lemma extract_from_spec (l : list RR) (k : nat) :
  match extract_from k l with
  | Some (i, rr, ip) =>
      k ≤ i
      ∧ l !! (i - k) = Some rr
      ∧ address_record rr = true
      ∧ ip = record_address rr
      ∧ ∀ j rr', j < i - k → l !! j = Some rr' → address_record rr' = false
  | None => ∀ rr, rr ∈ l → address_record rr = false
  end.
Proof.
  revert k; induction l as [|rr l IH]; intros k; simpl.
  - intros rr Hrr. by apply elem_of_nil in Hrr.
  - assert (extract_from k (rr :: l)
            = if address_record rr then Some (k, rr, record_address rr)
              else extract_from (S k) l) as Hstep.
    { destruct rr; simpl; try done; by destruct (negb _). }
    simpl in Hstep. rewrite Hstep. clear Hstep.
    destruct (address_record rr) eqn:Hrr.
    + rewrite Nat.sub_diag. repeat split; try done. intros j rr' Hj. lia.
    + specialize (IH (S k)).
      destruct (extract_from (S k) l) as [[[i rr1] ip]|].
      * destruct IH as (Hle & Hi & Ha & Hip & Hbefore).
        replace (i - k) with (S (i - S k)) by lia.
        repeat split; try done; [lia|].
        intros [|j] rr' Hj Hl; simplify_eq/=; [done|].
        apply (Hbefore j); [lia|done].
      * intros rr' [->|Hin]%elem_of_cons; [done|by apply IH].
Qed.

(** X1: [MsgExtractAnswer] returns the first record of the answer section
    that is an A or AAAA record with a non-empty address, with that
    address and the record's position; it returns nothing exactly when the
    section holds no such record, and on a nil message. *)
Theorem MsgExtractAnswer_first_address_record (m : Msg) :
  MsgExtractAnswer None = None
  ∧ match MsgExtractAnswer (Some m) with
    | Some (i, rr, ip) =>
        Answer m !! i = Some rr
        ∧ address_record rr = true
        ∧ ip = record_address rr
        ∧ ip_len ip ≠ 0
        ∧ ∀ j rr', j < i → Answer m !! j = Some rr' →
                   address_record rr' = false
    | None => ∀ rr, rr ∈ Answer m → address_record rr = false
    end.
Proof.
  split; [done|]. unfold MsgExtractAnswer.
  pose proof (extract_from_spec (Answer m) 0) as Hspec.
  destruct (extract_from 0 (Answer m)) as [[[i rr] ip]|]; [|done].
  destruct Hspec as (_ & Hi & Ha & Hip & Hbefore).
  rewrite Nat.sub_0_r in *. repeat split; try done.
  subst ip. destruct rr; simpl in *; try done;
    by destruct (ip_len _).
Qed.

(** A CNAME answer in front of the address is passed over, and a message
    whose only answers are not addresses yields nothing. *)
Example MsgExtractAnswer_skips_other_records :
  MsgExtractAnswer
    (Some (mkMsg (query_hdr 1) false [] 
             [RR_other (mkHdr "www.example.org." 5 ClassINET 60 0);
              RR_A (mkHdr "example.org." TypeA ClassINET 60 4) None;
              RR_AAAA (mkHdr "example.org." TypeAAAA ClassINET 60 16)
                      (Some [1; 2; 3; 4]%Z)] [] []))
  = Some (2, RR_AAAA (mkHdr "example.org." TypeAAAA ClassINET 60 16)
                     (Some [1; 2; 3; 4]%Z), Some [1; 2; 3; 4]%Z).
Proof. reflexivity. Qed.

Lemma set_subnet_other_options opts addr :
  other_options (set_subnet opts addr) = other_options opts.
Proof.
  induction opts as [|[s|c d] opts IH]; simpl; [done|done|by rewrite IH].
Qed.

Lemma set_subnet_length opts addr :
  length opts ≤ length (set_subnet opts addr) ≤ S (length opts).
Proof.
  induction opts as [|[s|c d] opts IH]; simpl; lia.
Qed.

(** What [MsgSetECSWithAddr] leaves as it was. *)
Lemma MsgSetECSWithAddr_keeps (m : Msg) (addr : IP) (m' : Msg) :
  MsgSetECSWithAddr m addr = Done m' →
  MsgHdr_ m' = MsgHdr_ m
  ∧ Compress m' = Compress m
  ∧ Questions m' = Questions m
  ∧ Answer m' = Answer m
  ∧ Ns m' = Ns m
  ∧ length (Extra m) ≤ length (Extra m') ≤ S (length (Extra m))
  ∧ (∀ j rr, Extra m !! j = Some rr → is_opt_hdr rr = false →
             Extra m' !! j = Some rr)
  ∧ (∀ j, j < length (Extra m) →
          other_options (options_at (Extra m') j)
          = other_options (options_at (Extra m) j)).
Proof.
  destruct addr as [b|]; [|intros [= <-]; repeat split; try done; lia].
  intros Hset.
  destruct (MsgSetECSWithAddr_cases _ _ _ Hset)
    as [(i & h & opts & _ & Hi & Hopt & -> & _)|(_ & Hall & -> & _)]; simpl.
  - repeat split; try done.
    + rewrite length_insert. lia.
    + rewrite length_insert. lia.
    + intros j rr Hj Hrr. destruct (decide (i = j)) as [->|Hne].
      * rewrite Hi in Hj. injection Hj as <-. congruence.
      * by rewrite list_lookup_insert_ne.
    + intros j Hj. unfold options_at. destruct (decide (i = j)) as [->|Hne].
      * rewrite list_lookup_insert_eq, Hi by done.
        apply set_subnet_other_options.
      * by rewrite list_lookup_insert_ne.
  - repeat split; try done.
    + rewrite length_app. lia.
    + rewrite length_app; simpl. lia.
    + intros j rr Hj _. by apply lookup_app_l_Some.
    + intros j Hj. unfold options_at. by rewrite lookup_app_l.
Qed.

(** What [set_subnet] does to the options of a record: the first subnet
    option is rewritten where it stands, or, when there is none, one is
    appended; every other option stays where it is. *)
Lemma set_subnet_spec (opts : list EDNS0) (addr : IP) :
  (∃ pre s post,
     opts = pre ++ Opt_SUBNET s :: post
     ∧ subnet_options pre = []
     ∧ set_subnet opts addr = pre ++ Opt_SUBNET (ecs_assign addr) :: post)
  ∨ (subnet_options opts = []
     ∧ set_subnet opts addr = opts ++ [Opt_SUBNET (ecs_assign addr)]).
Proof.
  induction opts as [|[s|c d] opts IH]; simpl.
  - by right.
  - left. by exists [], s, opts.
  - destruct IH as [(pre & s & post & -> & Hpre & ->)|[Hnone ->]].
    + left. by exists (Opt_other c d :: pre), s, post.
    + by right.
Qed.

(** X2: [MsgSetECSWithAddr] touches nothing but one OPT record, and in it
    one option.  Header, questions, answers and authorities stay.  With a
    nil address the message stays as it is.  Otherwise either one record of
    the additional section, an OPT record, is replaced by a record with the
    same header whose options are the old ones with the first subnet option
    rewritten for the address where it stood, or, when it held none, with
    the option appended; or no record has an OPT header and one OPT record
    holding the option is appended.  Every other record, the further OPT
    records among them, and every other option stay as and where they
    were. *)
Theorem MsgSetECSWithAddr_frame (m : Msg) (addr : IP) (m' : Msg) :
  MsgSetECSWithAddr m addr = Done m' →
  MsgHdr_ m' = MsgHdr_ m
  ∧ Compress m' = Compress m
  ∧ Questions m' = Questions m
  ∧ Answer m' = Answer m
  ∧ Ns m' = Ns m
  ∧ length (Extra m) ≤ length (Extra m') ≤ S (length (Extra m))
  ∧ (∀ j rr, Extra m !! j = Some rr → is_opt_hdr rr = false →
             Extra m' !! j = Some rr)
  ∧ (∀ j, j < length (Extra m) →
          other_options (options_at (Extra m') j)
          = other_options (options_at (Extra m) j))
  ∧ match addr with
    | None => m' = m
    | Some _ =>
        (∃ i h opts opts',
           Extra m !! i = Some (RR_OPT h opts)
           ∧ Extra m' = <[i := RR_OPT h opts']> (Extra m)
           ∧ ((∃ pre s post,
                 opts = pre ++ Opt_SUBNET s :: post
                 ∧ subnet_options pre = []
                 ∧ opts' = pre ++ Opt_SUBNET (ecs_assign addr) :: post)
              ∨ (subnet_options opts = []
                 ∧ opts' = opts ++ [Opt_SUBNET (ecs_assign addr)])))
        ∨ (Forall (λ rr, is_opt_hdr rr = false) (Extra m)
           ∧ Extra m'
             = Extra m ++ [RR_OPT new_opt_hdr [Opt_SUBNET (ecs_assign addr)]])
    end.
Proof.
  intros Hset.
  destruct (MsgSetECSWithAddr_keeps _ _ _ Hset)
    as (H1 & H2 & H3 & H4 & H5 & H6 & H7 & H8).
  do 8 (split; [done|]).
  destruct addr as [b|]; [|by injection Hset as <-].
  destruct (MsgSetECSWithAddr_cases _ _ _ Hset)
    as [(i & h & opts & _ & Hi & _ & -> & _)|(_ & Hall & -> & _)]; simpl.
  - left. exists i, h, opts, (set_subnet opts (Some b)).
    split; [done|]. split; [done|]. apply set_subnet_spec.
  - by right.
Qed.

End msg_utils.

(** * Further properties of the DoH translation and of Exchange *)

Section doh_more.
Context `{GoLib}.

Lemma last_subnet_address_acc (opts : list EDNS0) (acc : IP) :
  fold_left (λ ecs s, match s with
                      | Opt_SUBNET _ecs => Address _ecs
                      | Opt_other _ _ => ecs
                      end) opts acc
  = match last (subnet_options opts) with
    | Some s => Address s
    | None => acc
    end.
Proof.
  revert acc; induction opts as [|[s|c d] opts IH]; intros acc; simpl;
    [done| |by rewrite IH].
  rewrite IH. destruct (subnet_options opts) as [|s' l] eqn:E; [done|].
  rewrite last_cons_cons. destruct (last (s' :: l)) eqn:El; [done|].
  by apply last_None in El.
Qed.

Lemma last_subnet_address_set_subnet (opts : list EDNS0) (addr : IP) :
  length (subnet_options opts) ≤ 1 →
  last_subnet_address (set_subnet opts addr) = addr.
Proof.
  intros Hlen. unfold last_subnet_address.
  rewrite last_subnet_address_acc, set_subnet_single by done. done.
Qed.

(** X3: the ECS set on a request is the one the DoH GET carries: after
    [MsgSetECSWithAddr] with a non-nil address, on a request whose OPT
    record holds at most one subnet option, [MsgExchangeOverGoogleDOH]
    reads that address back and sends its text as [edns_client_subnet]. *)
Theorem set_ECS_then_DoH_query (req req' : Msg) (b : list Z) q qs :
  Questions req = q :: qs →
  (∀ i h opts, IsEdns0 req = Done (Some (i, h, opts)) →
               length (subnet_options opts) ≤ 1) →
  MsgSetECSWithAddr req (Some b) = Done req' →
  ∃ vs, doh_query req' = Done (Some b, vs)
        ∧ vs !! "name" = Some [QName q]
        ∧ vs !! "type" = Some [Sprintf_v (Qtype q)]
        ∧ vs !! "edns_client_subnet"
          = Some [if bool_decide (IP_String (Some b) = "")
                  then "0.0.0.0/0" else IP_String (Some b)].
Proof.
  intros Hq Hone Hset.
  assert (Questions req' = q :: qs) as Hq'.
  { destruct (MsgSetECSWithAddr_keeps _ _ _ Hset) as (_ & _ & -> & _). done. }
  assert (∃ i h opts, IsEdns0 req' = Done (Some (i, h, opts))
                      ∧ last_subnet_address opts = Some b)
    as (i & h & opts & Hopt & Hlast).
  { destruct (MsgSetECSWithAddr_cases _ _ _ Hset)
      as [(i & h & opts & Hreq & _ & _ & _ & Hreq')|(_ & _ & _ & Hreq')].
    - eexists _, _, _. split; [done|].
      apply last_subnet_address_set_subnet. by eapply Hone.
    - eexists _, _, _. split; [done|]. done. }
  destruct (doh_query_with_opt req' q qs i h opts Hq' Hopt)
    as (vs & Hvs & Hname & Htype & Hecs).
  exists vs. rewrite Hlast in *. done.
Qed.

Lemma IsEdns0_total (m : Msg) :
  forallb opt_typed (Extra m) = true → ∃ o, IsEdns0 m = Done o.
Proof.
  intros Hty. rewrite IsEdns0_unfold.
  destruct (opt_scan (Extra m)) as [i|] eqn:Hscan; [|eauto].
  destruct (opt_scan_lookup _ _ Hscan) as (rr & Hi & Hrr). rewrite Hi.
  assert (opt_typed rr = true) as Hrrty.
  { rewrite forallb_forall in Hty. apply Hty.
    apply list_elem_of_In. by eapply list_elem_of_lookup_2. }
  destruct rr; simpl in Hrrty; try (by rewrite Hrr in Hrrty). eauto.
Qed.

Lemma doh_msg_opt_typed req dohresp qs :
  forallb opt_typed (Extra (doh_msg req dohresp qs)) = true.
Proof.
  apply forallb_forall. intros rr [grr [<- _]]%in_map_iff.
  apply RRNewFromGoogleDohRR_opt_typed.
Qed.

(** X4: a message translated from a DoH response never makes [IsEdns0]
    or [MsgSetECSWithAddr] panic: [RRNewFromGoogleDohRR] gives a record an
    OPT header only together with the OPT type, whatever type numbers the
    JSON carries. *)
Theorem translated_message_never_panics req dohresp qs (addr : IP) :
  (∃ o, IsEdns0 (doh_msg req dohresp qs) = Done o)
  ∧ (∃ m', MsgSetECSWithAddr (doh_msg req dohresp qs) addr = Done m')
  ∧ (∀ grr, is_opt_hdr (RRNewFromGoogleDohRR grr) = true →
            ∃ h, RRNewFromGoogleDohRR grr = RR_OPT h []).
Proof.
  split; [|split].
  - apply IsEdns0_total, doh_msg_opt_typed.
  - destruct (MsgSetECSWithAddr_hdr (doh_msg req dohresp qs) addr
                (doh_msg_opt_typed _ _ _)) as (m' & Hm' & _). eauto.
  - intros grr. pose proof (RRNewFromGoogleDohRR_opt_typed grr) as Hty.
    unfold RRNewFromGoogleDohRR in *.
    destruct (TypeToRR (uint16 (drr_Type grr))) as [[]|]; simpl in *;
      intros Hopt; try (by rewrite Hopt in Hty). eauto.
Qed.

Lemma doh_questions_panics (cs : list DNSQuestion) (reqq : list Question) :
  length reqq < length cs → doh_questions cs reqq = Panic.
Proof.
  revert reqq; induction cs as [|c cs IH]; intros [|rq reqq] Hlen;
    simpl in *; try lia; [done|].
  rewrite IH by lia. done.
Qed.

Lemma doh_questions_spec (cs : list DNSQuestion) (reqq : list Question) qs :
  doh_questions cs reqq = Done qs →
  length qs = length cs
  ∧ ∀ i c rq, cs !! i = Some c → reqq !! i = Some rq →
              qs !! i = Some (mkQuestion (dq_Name c) (uint16 (dq_Type c))
                                         (Qclass rq)).
Proof.
  revert reqq qs; induction cs as [|c cs IH]; intros [|rq reqq] qs;
    simpl; try done.
  - intros [= <-]. split; [done|]. intros i ? ? Hi. by destruct i.
  - intros [= <-]. split; [done|]. intros i ? ? Hi. by destruct i.
  - destruct (doh_questions cs reqq) as [rest| |] eqn:Hrest; simpl; try done.
    intros [= <-]. destruct (IH _ _ Hrest) as [Hlen Hnth].
    split; [simpl; lia|].
    intros [|i] c' rq' Hc Hrq; simplify_eq/=; [done|]. by eapply Hnth.
Qed.

(** X5: when the DoH response holds more questions than the request,
    [MsgExchangeOverGoogleDOH] panics on [req.Question[i]] instead of
    returning a response or an error. *)
Theorem DoH_more_questions_than_asked_panics req rt ecs vs dohresp :
  doh_query req = Done (ecs, vs) →
  rt vs = inl dohresp →
  length (Questions req) < length (doh_Question dohresp) →
  MsgExchangeOverGoogleDOH req rt = Panic.
Proof.
  intros Hq Hrt Hlen. unfold MsgExchangeOverGoogleDOH.
  rewrite Hq; simpl. rewrite Hrt. by rewrite doh_questions_panics.
Qed.

Lemma DoH_translation_sections_aux req rt ecs vs dohresp resp :
  doh_query req = Done (ecs, vs) →
  rt vs = inl dohresp →
  MsgExchangeOverGoogleDOH req rt = Done (inl resp) →
  Id (MsgHdr_ resp) = Id (MsgHdr_ req)
  ∧ Compress resp = Compress req
  ∧ length (Questions resp) = length (doh_Question dohresp)
  ∧ (∀ i c rq, doh_Question dohresp !! i = Some c →
               Questions req !! i = Some rq →
               Questions resp !! i
               = Some (mkQuestion (dq_Name c) (uint16 (dq_Type c)) (Qclass rq)))
  ∧ Answer resp = map RRNewFromGoogleDohRR (doh_Answer dohresp)
  ∧ Ns resp = map RRNewFromGoogleDohRR (doh_Authority dohresp)
  ∧ length (doh_Additional dohresp) ≤ length (Extra resp)
    ≤ S (length (doh_Additional dohresp))
  ∧ (ecs = None →
     Extra resp = map RRNewFromGoogleDohRR (doh_Additional dohresp)).
Proof.
  intros Hq Hrt. unfold MsgExchangeOverGoogleDOH.
  rewrite Hq; simpl. rewrite Hrt.
  destruct (doh_questions (doh_Question dohresp) (Questions req))
    as [qs| |] eqn:Hqs; simpl; try done.
  destruct (doh_questions_spec _ _ _ Hqs) as [Hlen Hnth].
  destruct ecs as [b|]; cbn [is_nil].
  - destruct (MsgSetECSWithAddr (doh_msg req dohresp qs) (Some b))
      as [m'| |] eqn:Hset; cbn [mbind outcome_bind]; try done.
    intros [= <-].
    destruct (MsgSetECSWithAddr_keeps _ _ _ Hset)
      as (-> & -> & -> & -> & -> & Hextra & _); simpl in *.
    rewrite length_map in Hextra. repeat split; try done; lia.
  - intros [= <-]; simpl. rewrite length_map. repeat split; try done; lia.
Qed.

Lemma RRNewFromGoogleDohRR_no_options (grr : DNSRR) h opts :
  RRNewFromGoogleDohRR grr = RR_OPT h opts → opts = [].
Proof.
  unfold RRNewFromGoogleDohRR.
  destruct (TypeToRR (uint16 (drr_Type grr))) as [[| | |]|]; try done.
  by intros [= _ <-].
Qed.

(** X6: the sections of a translated response follow the DoH response
    one to one: as many questions, answers, authorities as the JSON holds,
    each question with the JSON's name and type and the class of the
    request's question at the same position, the request's id and
    compression flag.  The additional section holds the JSON's records, in
    their order, and exactly them when the request had no ECS; when it had
    one, the ECS is put into the JSON's OPT record that [IsEdns0] finds,
    which held no option, or, when the JSON has no record with an OPT
    header, into one OPT record appended to them. *)
Theorem DoH_translation_sections req rt ecs vs dohresp resp :
  doh_query req = Done (ecs, vs) →
  rt vs = inl dohresp →
  MsgExchangeOverGoogleDOH req rt = Done (inl resp) →
  Id (MsgHdr_ resp) = Id (MsgHdr_ req)
  ∧ Compress resp = Compress req
  ∧ length (Questions resp) = length (doh_Question dohresp)
  ∧ (∀ i c rq, doh_Question dohresp !! i = Some c →
               Questions req !! i = Some rq →
               Questions resp !! i
               = Some (mkQuestion (dq_Name c) (uint16 (dq_Type c)) (Qclass rq)))
  ∧ Answer resp = map RRNewFromGoogleDohRR (doh_Answer dohresp)
  ∧ Ns resp = map RRNewFromGoogleDohRR (doh_Authority dohresp)
  ∧ length (doh_Additional dohresp) ≤ length (Extra resp)
    ≤ S (length (doh_Additional dohresp))
  ∧ (ecs = None →
     Extra resp = map RRNewFromGoogleDohRR (doh_Additional dohresp))
  ∧ (ecs ≠ None →
     let additional := map RRNewFromGoogleDohRR (doh_Additional dohresp) in
     (∃ i h,
        additional !! i = Some (RR_OPT h [])
        ∧ Extra resp
          = <[i := RR_OPT h [Opt_SUBNET (ecs_assign ecs)]]> additional)
     ∨ (Forall (λ rr, is_opt_hdr rr = false) additional
        ∧ Extra resp
          = additional ++ [RR_OPT new_opt_hdr [Opt_SUBNET (ecs_assign ecs)]])).
Proof.
  intros Hq Hrt Hresp.
  destruct (DoH_translation_sections_aux _ _ _ _ _ _ Hq Hrt Hresp)
    as (H1 & H2 & H3 & H4 & H5 & H6 & H7 & H8).
  do 8 (split; [done|]).
  intros Hecs additional. subst additional.
  unfold MsgExchangeOverGoogleDOH in Hresp.
  rewrite Hq in Hresp; simpl in Hresp. rewrite Hrt in Hresp.
  destruct (doh_questions (doh_Question dohresp) (Questions req))
    as [qs| |] eqn:Hqs; simpl in Hresp; try done.
  destruct ecs as [b|]; [|done]. cbn [is_nil] in Hresp.
  destruct (MsgSetECSWithAddr (doh_msg req dohresp qs) (Some b))
    as [m'| |] eqn:Hset; cbn [mbind outcome_bind] in Hresp; try done.
  injection Hresp as <-.
  destruct (MsgSetECSWithAddr_cases _ _ _ Hset)
    as [(i & h & opts & _ & Hi & _ & -> & _)|(_ & Hall & -> & _)];
    simpl in *.
  - left. exists i, h.
    assert (opts = []) as ->.
    { apply list_lookup_fmap_Some in Hi as (grr & Hgrr & _).
      symmetry in Hgrr. by eapply RRNewFromGoogleDohRR_no_options. }
    done.
  - by right.
Qed.

Lemma MsgExchangeOverGoogleDOH_Id req rt resp :
  MsgExchangeOverGoogleDOH req rt = Done (inl resp) →
  Id (MsgHdr_ resp) = Id (MsgHdr_ req).
Proof.
  intros Hex. destruct (doh_query req) as [[ecs vs]| |] eqn:Hq;
    try (by unfold MsgExchangeOverGoogleDOH in Hex; rewrite Hq in Hex).
  destruct (rt vs) as [dohresp|e] eqn:Hrt.
  - by destruct (DoH_translation_sections_aux _ _ _ _ _ _ Hq Hrt Hex)
      as (? & _).
  - unfold MsgExchangeOverGoogleDOH in Hex. rewrite Hq in Hex; simpl in Hex.
    by rewrite Hrt in Hex.
Qed.

(** X7: whatever the protocol, [Exchange] hands back a response only
    with the id of the request: over https the id is copied, on the wire a
    response with another id is turned into an error. *)
Theorem Exchange_response_has_request_Id nw dt req resp :
  Exchange nw dt req = Done (inl resp) →
  Id (MsgHdr_ resp) = Id (MsgHdr_ req).
Proof.
  unfold Exchange. case_bool_decide as Hnet.
  - apply MsgExchangeOverGoogleDOH_Id.
  - destruct (wire_roundtrip nw dt req) as [r|e]; [|done].
    case_bool_decide as Hid; [done|]. intros [= <-].
    by destruct (decide (Id (MsgHdr_ r) = Id (MsgHdr_ req))).
Qed.

End doh_more.

(** * Further properties of the DNS front *)

Section dns_front_more.
Context `{GoLib}.

(** X8: a query whose name ends in the pseudo-zone suffix is answered at
    once with an empty NOERROR reply that copies the query's id, opcode
    and first question; the cache, the matchers and the upstreams are left
    alone.  The reply is handed to [w.WriteMsg], whose error, if any, is
    logged. *)
Theorem pseudo_zone_answered_locally env req q qs :
  Questions req = q :: qs →
  HasSuffix (QName q) DHCP_HOST = true →
  ∃ resp,
    handleDnsRequest env req = Traced [] (Done (written env resp))
    ∧ Answer resp = []
    ∧ msg_Rcode resp = RcodeSuccess
    ∧ msg_Response resp = true
    ∧ Id (MsgHdr_ resp) = Id (MsgHdr_ req)
    ∧ Opcode (MsgHdr_ resp) = Opcode (MsgHdr_ req)
    ∧ Questions resp = [q].
Proof.
  intros Hq Hsuf. eexists. split.
  - unfold handleDnsRequest, resolve. rewrite Hq, Hsuf. reflexivity.
  - simpl. by rewrite Hq.
Qed.

(** X9: on a hit in the domain cache the reply is built from the cached
    record alone: no matcher is evaluated, no upstream is asked, nothing is
    written to a cache, and the cached transport plays no part.  The reply
    is handed to [w.WriteMsg], whose error, if any, is logged. *)
Theorem cache_hit_answered_from_cache env req q qs domain item :
  Questions req = q :: qs →
  HasSuffix (QName q) DHCP_HOST = false →
  slice_to_last (QName q) = Done domain →
  env_cached env domain = Some item →
  handleDnsRequest env req
  = Traced [EvDomainGet domain]
           (Done (written env (MsgNewReplyFromReq req [ans item]))).
Proof.
  intros Hq Hsuf Hdom Hhit.
  unfold handleDnsRequest, resolve. rewrite Hq, Hsuf, Hdom.
  cbn [lift mbind traced_bind result events]. by rewrite Hhit.
Qed.


(** X11: for an unknown domain, when the probe with the local address
    succeeds with an answer that is not a domestic IPv4 address (an IPv6
    address, or an IPv4 address the predicate rejects), the transport is
    PROXY and the handler waits for the probe with the proxy's address: if
    that probe never returns, neither does the handler; if it returned an
    address answer, that answer is passed to both [Add] calls and goes to
    the writer; otherwise the first probe's answer does.  The two races are
    those of [probe_race]: for a request without a subnet option, the races
    of the two copies, each carrying the subnet option of its address as
    its only one when that address is not nil; for a request with one,
    races of messages that share it. *)
Theorem unknown_foreign_proxy env req domain reqA reqB respB iB ansB ipB :
  misses_cache env req domain →
  MatchGFW (env_matcher env) domain = false →
  MatchObedient (env_matcher env) domain = false →
  MsgSetECSWithAddr req (env_proxy_ip env) = Done reqA →
  MsgSetECSWithAddr req (env_local_ip env) = Done reqB →
  probe_result env req LocalIPProbe reqB = RaceOk respB →
  msg_Rcode respB = RcodeSuccess →
  MsgExtractAnswer (Some respB) = Some (iB, ansB, ipB) →
  (To4 ipB = None ∨ env_ip_match env (To4 ipB) = false) →
  let pre := [EvDomainGet domain; EvMatchGFW domain; EvMatchObedient domain;
              probe_event req RemoteIPProbe reqA;
              probe_event req LocalIPProbe reqB] in
  (probe_result env req RemoteIPProbe reqA = RaceHang →
   handleDnsRequest env req = Traced pre Hang)
  ∧ (∀ respA iA ansA ipA,
       probe_result env req RemoteIPProbe reqA = RaceOk respA →
       MsgExtractAnswer (Some respA) = Some (iA, ansA, ipA) →
       handleDnsRequest env req
       = Traced (pre ++ [EvDomainAdd domain ansA _TRANS_PROXY;
                         EvIPAdd (IP_String ipA) _TRANS_PROXY])
                (Done (written env (reply_with domain respA iA ansA))))
  ∧ (((∃ e, probe_result env req RemoteIPProbe reqA = RaceErr e)
      ∨ (∃ r, probe_result env req RemoteIPProbe reqA = RaceOk r
              ∧ MsgExtractAnswer (Some r) = None)) →
     handleDnsRequest env req
     = Traced (pre ++ [EvDomainAdd domain ansB _TRANS_PROXY;
                       EvIPAdd (IP_String ipB) _TRANS_PROXY])
              (Done (written env (reply_with domain respB iB ansB))))
  ∧ (has_ecs_option req = false →
     pre = [EvDomainGet domain; EvMatchGFW domain; EvMatchObedient domain;
            EvRace ABROAD reqA; EvRace ABROAD reqB]
     ∧ probe_result env req RemoteIPProbe reqA = env_race env ABROAD reqA
     ∧ probe_result env req LocalIPProbe reqB = env_race env ABROAD reqB
     ∧ (env_proxy_ip env ≠ None → carries_ecs reqA (env_proxy_ip env))
     ∧ (env_local_ip env ≠ None → carries_ecs reqB (env_local_ip env)))
  ∧ (has_ecs_option req = true →
     pre = [EvDomainGet domain; EvMatchGFW domain; EvMatchObedient domain;
            EvRaceShared ABROAD reqA; EvRaceShared ABROAD reqB]
     ∧ probe_result env req RemoteIPProbe reqA
       = env_shared env RemoteIPProbe
     ∧ probe_result env req LocalIPProbe reqB = env_shared env LocalIPProbe).
Proof.
  intros Hmiss Hgfw Hob HA HB HrB Hrc HexB Hforeign pre.
  split; [|split; [|split; [|split]]].
  4:{ intros Hno. subst pre. unfold probe_event, probe_result. rewrite Hno.
      do 3 (split; [done|]).
      pose proof (MsgSetECSWithAddr_carries _ _ _ Hno HA) as HcA.
      pose proof (MsgSetECSWithAddr_carries _ _ _ Hno HB) as HcB.
      split; intros Hne.
      - by destruct (env_proxy_ip env).
      - by destruct (env_local_ip env). }
  4:{ intros Hsh. subst pre. unfold probe_event, probe_result. by rewrite Hsh. }
  all: assert (abroadQueryWithLocalSucceed (inl respB)
               = Some (respB, (iB, ansB, ipB))) as Hsucc
         by (unfold abroadQueryWithLocalSucceed, answered;
             rewrite HexB; simpl; by rewrite Hrc).
  all: assert (negb (is_nil (To4 ipB)) && env_ip_match env (To4 ipB) = false)
         as Hfor by (destruct Hforeign as [-> | ->];
                     [done|apply andb_false_r]).
  all: unfold handleDnsRequest;
    rewrite (resolve_unknown_probes _ _ _ _ _ Hmiss Hgfw Hob HA HB);
    unfold probe_race; rewrite HrB;
    cbn [mbind traced_bind emit lift events result mret traced_ret];
    rewrite Hsucc, Hfor.
  - by intros ->.
  - intros respA iA ansA ipA -> HexA. subst pre. cbn in *. by rewrite HexA.
  - intros [[e ->]|(r & -> & Hr)]; subst pre; cbn in *; [done|].
    by rewrite Hr.
Qed.

(** X12: for an unknown domain, when the probe with the local address
    fails (an error, no address answer, or an RCODE other than NOERROR),
    the client's request is raced once on the obedient upstream: its error
    is propagated and [Add] is not called; its address answer is passed to
    both [Add] calls and goes to the writer, as DIRECT when it is a domestic
    IPv4 address and as PROXY otherwise; a response without address answer
    goes to the writer and [Add] is not called.  The races are those of
    [probe_race]: for a request without a subnet option the obedient
    upstream is raced the request as it came, and the two probes carry the
    subnet option of their address as their only one when that address is
    not nil; for a request with one, the obedient upstream is raced a
    message that shares the option with the two probes. *)
Theorem unknown_probe_failed_falls_back env req domain reqA reqB :
  misses_cache env req domain →
  MatchGFW (env_matcher env) domain = false →
  MatchObedient (env_matcher env) domain = false →
  MsgSetECSWithAddr req (env_proxy_ip env) = Done reqA →
  MsgSetECSWithAddr req (env_local_ip env) = Done reqB →
  ((∃ e, probe_result env req LocalIPProbe reqB = RaceErr e)
   ∨ (∃ r, probe_result env req LocalIPProbe reqB = RaceOk r
           ∧ (MsgExtractAnswer (Some r) = None
              ∨ msg_Rcode r ≠ RcodeSuccess))) →
  let pre := [EvDomainGet domain; EvMatchGFW domain; EvMatchObedient domain;
              probe_event req RemoteIPProbe reqA;
              probe_event req LocalIPProbe reqB;
              probe_event req ClientRequest req] in
  (∀ e, probe_result env req ClientRequest req = RaceErr e →
        handleDnsRequest env req = Traced pre (Done (Logged e)))
  ∧ (∀ resp, probe_result env req ClientRequest req = RaceOk resp →
             MsgExtractAnswer (Some resp) = None →
             handleDnsRequest env req = Traced pre (Done (written env resp)))
  ∧ (∀ resp i answer ip,
       probe_result env req ClientRequest req = RaceOk resp →
       MsgExtractAnswer (Some resp) = Some (i, answer, ip) →
       let t := if negb (is_nil (To4 ip)) && env_ip_match env ip
                then _TRANS_DIRECT else _TRANS_PROXY in
       handleDnsRequest env req
       = Traced (pre ++ [EvDomainAdd domain answer t;
                         EvIPAdd (IP_String ip) t])
                (Done (written env (reply_with domain resp i answer))))
  ∧ (has_ecs_option req = false →
     pre = [EvDomainGet domain; EvMatchGFW domain; EvMatchObedient domain;
            EvRace ABROAD reqA; EvRace ABROAD reqB; EvRace OBEDIENT req]
     ∧ probe_result env req LocalIPProbe reqB = env_race env ABROAD reqB
     ∧ probe_result env req ClientRequest req = env_race env OBEDIENT req
     ∧ (env_proxy_ip env ≠ None → carries_ecs reqA (env_proxy_ip env))
     ∧ (env_local_ip env ≠ None → carries_ecs reqB (env_local_ip env)))
  ∧ (has_ecs_option req = true →
     pre = [EvDomainGet domain; EvMatchGFW domain; EvMatchObedient domain;
            EvRaceShared ABROAD reqA; EvRaceShared ABROAD reqB;
            EvRaceShared OBEDIENT req]
     ∧ probe_result env req LocalIPProbe reqB = env_shared env LocalIPProbe
     ∧ probe_result env req ClientRequest req
       = env_shared env ClientRequest).
Proof.
  intros Hmiss Hgfw Hob HA HB Hfail pre.
  split; [|split; [|split; [|split]]].
  4:{ intros Hno. subst pre. unfold probe_event, probe_result. rewrite Hno.
      do 3 (split; [done|]).
      pose proof (MsgSetECSWithAddr_carries _ _ _ Hno HA) as HcA.
      pose proof (MsgSetECSWithAddr_carries _ _ _ Hno HB) as HcB.
      split; intros Hne.
      - by destruct (env_proxy_ip env).
      - by destruct (env_local_ip env). }
  4:{ intros Hsh. subst pre. unfold probe_event, probe_result. by rewrite Hsh. }
  all: assert (∃ r, match probe_result env req LocalIPProbe reqB with
                    | RaceOk r => mret (inl r)
                    | RaceErr e => mret (inr e)
                    | RaceHang => lift Hang
                    end = Traced [] (Done r)
                    ∧ abroadQueryWithLocalSucceed r = None)
         as (r & Hrace & Hr).
  1,3,5: destruct Hfail as [[e ->]|(r & -> & Hr)];
    [by exists (inr e)|];
    exists (inl r); (split; [done|]);
    unfold abroadQueryWithLocalSucceed, answered;
    destruct Hr as [Hr|Hr]; [by rewrite Hr|];
    (destruct (MsgExtractAnswer (Some r)) as [a|]; [|done]); simpl;
    by apply Z.eqb_neq in Hr as ->.
  all: unfold handleDnsRequest;
    rewrite (resolve_unknown_probes _ _ _ _ _ Hmiss Hgfw Hob HA HB);
    unfold resolve_unknown_failed, probe_race; rewrite Hrace;
    cbn [mbind traced_bind emit lift events result mret traced_ret];
    rewrite Hr.
  - intros e ->. by subst pre.
  - intros resp -> Hex. subst pre. cbn in *. by rewrite Hex.
  - intros resp i answer ip -> Hex. subst pre. cbn in *. rewrite Hex. done.
Qed.

End dns_front_more.

Section dns_front_invariants.
Context `{GoLib}.

#[local] Arguments has_ecs_option : simpl never.
#[local] Arguments MsgSetECSWithAddr : simpl never.

Ltac split_path :=
  repeat (cbn in *;
          match goal with
          | |- context [match ?x with _ => _ end] =>
              lazymatch x with
              | context [match _ with _ => _ end] => fail
              | _ => destruct x eqn:?
              end
          | |- context [if ?x then _ else _] =>
              lazymatch x with
              | context [match _ with _ => _ end] => fail
              | context [if _ then _ else _] => fail
              | _ => destruct x eqn:?
              end
          end).

Ltac race_of_request_tac :=
  match goal with
  | |- True => exact I
  | |- _ = _ => reflexivity
  | Hset : MsgSetECSWithAddr ?req ?a = Done ?m,
    Hno : has_ecs_option ?req = false |- ex _ =>
      exists a; split; [(by left) || (by right)|]; split; [exact Hset|];
      exact (MsgSetECSWithAddr_carries _ _ _ Hno Hset)
  end.

Lemma resolve_paths env req :
  let r := resolve env req in
  cache_writes_paired (events r)
  ∧ (cache_adds_of (events r) ≠ [] → ∃ resp, result r = Done (inl resp))
  ∧ length (races_of (events r)) + length (shared_races_of (events r)) ≤ 3
  ∧ (has_ecs_option req = false →
     shared_races_of (events r) = []
     ∧ Forall (race_of_request env req) (races_of (events r))).
Proof.
  unfold resolve, resolve_gfw, resolve_obedient,
    resolve_unknown, resolve_unknown_failed, probe_race, probe_event,
    probe_result, race, cache_answer,
    abroadQueryWithLocalSucceed, answered, cache_writes_paired,
    races_of, shared_races_of, cache_adds_of, mret, traced_ret, lift, emit.
  destruct (has_ecs_option req) eqn:Hsh.
  all: split_path.
  all: cbn.
  all: repeat split; try (by left); try (right; by eexists _, _, _, _);
    try done; try (intros _; by eexists); try lia.
  all: repeat (apply Forall_cons; split); try apply Forall_nil;
    simpl; race_of_request_tac.
Qed.

Lemma handleDnsRequest_events env req :
  events (handleDnsRequest env req) = events (resolve env req)
  ∧ result (handleDnsRequest env req)
    = match result (resolve env req) with
      | Done (inl resp) => Done (written env resp)
      | Done (inr err) => Done (Logged err)
      | Panic => Panic
      | Hang => Hang
      end.
Proof.
  unfold handleDnsRequest.
  destruct (resolve env req) as [evs [[resp|err]| |]]; cbn;
    by rewrite ?app_nil_r.
Qed.

(** X13: on every path of the handler [Add] is called either not at all
    or exactly twice, on the domain cache with the domain and its answer
    first and on the IP cache with the address second, both with the same
    transport.  The calls are made only when the classification came to a
    response, which then goes to the writer: an error of the classification,
    a panic or a hang come without them.  They are made before the write:
    when [w.WriteMsg] fails its error is logged, and the calls have been
    made. *)
Theorem cache_writes_come_in_pairs env req :
  cache_writes_paired (events (handleDnsRequest env req))
  ∧ (cache_adds_of (events (handleDnsRequest env req)) ≠ [] →
     ∃ resp, result (resolve env req) = Done (inl resp)
             ∧ result (handleDnsRequest env req) = Done (written env resp))
  ∧ (∀ resp err,
       result (resolve env req) = Done (inl resp) →
       env_write env resp = Some err →
       result (handleDnsRequest env req) = Done (Logged err)
       ∧ cache_adds_of (events (handleDnsRequest env req))
         = cache_adds_of (events (resolve env req))).
Proof.
  destruct (resolve_paths env req) as (Hpair & Hresp & _).
  destruct (handleDnsRequest_events env req) as [Hev Hres].
  rewrite Hev, Hres. split; [done|]. split.
  - intros Hadds. destruct (Hresp Hadds) as [resp Hr].
    exists resp. by rewrite Hr.
  - intros resp err Hr Hw. rewrite Hr. unfold written. by rewrite Hw.
Qed.


(** X15: the reply written after a classification still yields the
    address that was cached: the owner name written by [domaincache.Add]
    is the only change, it is the fully qualified domain, and
    [MsgExtractAnswer] finds the same record at the same place. *)
Theorem reply_keeps_cached_address domain resp i answer ip :
  MsgExtractAnswer (Some resp) = Some (i, answer, ip) →
  MsgExtractAnswer (Some (reply_with domain resp i answer))
  = Some (i, normalize_owner domain answer, ip)
  ∧ Name (Header (normalize_owner domain answer))
    = (if bool_decide (domain = "") then Name (Header answer)
       else Fqdn domain)
  ∧ record_address (normalize_owner domain answer) = record_address answer
  ∧ MsgHdr_ (reply_with domain resp i answer) = MsgHdr_ resp
  ∧ Questions (reply_with domain resp i answer) = Questions resp
  ∧ length (Answer (reply_with domain resp i answer)) = length (Answer resp).
Proof.
  intros Hex.
  assert (∀ rr, address_record (normalize_owner domain rr) = address_record rr
                ∧ record_address (normalize_owner domain rr) = record_address rr
                ∧ Name (Header (normalize_owner domain rr))
                  = (if bool_decide (domain = "") then Name (Header rr)
                     else Fqdn domain)) as Hnorm.
  { intros rr. unfold normalize_owner.
    case_bool_decide; [done|]. case_bool_decide as Hne.
    - by destruct rr.
    - repeat split; try done; by apply dec_stable in Hne. }
  repeat split; try apply Hnorm; try done.
  - unfold MsgExtractAnswer, reply_with in *; simpl.
    pose proof (extract_from_spec (Answer resp) 0) as Hspec.
    rewrite Hex in Hspec. destruct Hspec as (_ & Hi & Ha & Hip & Hbefore).
    rewrite Nat.sub_0_r in *.
    pose proof (extract_from_spec
                  (<[i:=normalize_owner domain answer]> (Answer resp)) 0)
      as Hspec'.
    destruct (extract_from 0 (<[i:=_]> (Answer resp)))
      as [[[i' rr'] ip']|].
    + destruct Hspec' as (_ & Hi' & Ha' & Hip' & Hbefore').
      rewrite Nat.sub_0_r in *.
      assert (i < length (Answer resp)) as Hlt by (by eapply lookup_lt_Some).
      destruct (Nat.lt_trichotomy i' i) as [Hlt'|[->|Hgt]].
      * rewrite list_lookup_insert_ne in Hi' by lia.
        rewrite (Hbefore i' rr') in Ha' by done. done.
      * rewrite list_lookup_insert_eq in Hi' by done.
        injection Hi' as <-. subst ip'. f_equal. f_equal.
        rewrite Hip. apply Hnorm.
      * exfalso.
        assert (address_record (normalize_owner domain answer) = false)
          as Hfalse.
        { apply (Hbefore' i); [done|]. by rewrite list_lookup_insert_eq. }
        destruct (Hnorm answer) as (Heq & _). congruence.
    + exfalso.
      assert (address_record (normalize_owner domain answer) = false)
        as Hfalse.
      { apply Hspec'. eapply list_elem_of_lookup_2.
        assert (i < length (Answer resp)) by (by eapply lookup_lt_Some).
        by apply list_lookup_insert_eq. }
      destruct (Hnorm answer) as (Heq & _). congruence.
  - unfold reply_with; simpl. by rewrite length_insert.
Qed.

End dns_front_invariants.

(** * Further properties of the gate *)

(** X16: the first call of the gate answers true exactly when the IP
    cache, the domain cache, the matcher, the domestic-IP predicate, the
    local ECS address and the two upstream transports are set; the proxy's
    ECS address plays no part. *)
Theorem gate_first_call (g : Globals) :
  snd (validate newGlobalsValidator g) = true
  ↔ ip_inner (_DEFAULT_IPCACHE g) ≠ None
    ∧ domain_inner (_DEFAULT_DOMAINCACHE g) ≠ None
    ∧ _DEFAULT_DOMAIN_MATCHER g ≠ None
    ∧ _IP_MATCH_CHINESE_MAINLAND g ≠ None
    ∧ _DNS_SUBNET_LOCAL_IP g ≠ None
    ∧ _DNSSTRANSPORT_OBEDIENT g ≠ None
    ∧ _DNSSTRANSPORT_ABROAD g ≠ None.
Proof.
  rewrite validate_first_call. split; [apply validate_cond_sound|].
  intros (H1 & H2 & H3 & H4 & H5 & H6 & H7). unfold validate_cond.
  destruct (ip_inner _), (domain_inner _), (_DEFAULT_DOMAIN_MATCHER g),
    (_IP_MATCH_CHINESE_MAINLAND g), (_DNS_SUBNET_LOCAL_IP g),
    (_DNSSTRANSPORT_OBEDIENT g), (_DNSSTRANSPORT_ABROAD g); done.
Qed.

(** X17: the gate answers once: whichever front is started first fixes
    the answer for every later start, whatever [InitGlobals] has stored in
    between.  A front started before [InitGlobals] is refused, and so is
    every front started after it. *)
Theorem gate_answers_once (v : globalsValidator) (g g' : Globals)
    (laddr laddr' : string) :
  snd (validate (fst (validate v g)) g') = snd (validate v g)
  ∧ ((∃ e, snd (ServeProxy (fst (ServeDNS v g laddr)) g' laddr') = Refused e)
     ↔ ∃ e, snd (ServeDNS v g laddr) = Refused e)
  ∧ (∃ e, snd (ServeDNS (fst (ServeProxy newGlobalsValidator zero_Globals
                                laddr)) g' laddr') = Refused e).
Proof.
  split; [apply validate_once|]. split.
  - unfold ServeDNS, ServeProxy, validate.
    destruct (once_done v) eqn:Hd; simpl; rewrite ?Hd; simpl;
      destruct (validate_cond g), (ok v); simpl; split;
      intros [e He]; try done; eauto.
  - by eexists.
Qed.

(** * Properties of the proxy front *)

Section proxy_front.
Context `{GoLib} {R : Type} `{!requester R}.

Ltac split_ppath :=
  repeat (cbn in *;
          match goal with
          | |- context [match ?x with _ => _ end] =>
              lazymatch x with
              | context [match _ with _ => _ end] => fail
              | _ => destruct x eqn:?
              end
          end).

Lemma legallySpawnQuery_req_no_ecs id domain qtype :
  legallySpawnQuery_req id domain qtype []
  = Done (SetQuestion id (Fqdn domain) qtype zero_Msg).
Proof. reflexivity. Qed.

Lemma dispatch_paths (env : proxy_env) (reqer : R) :
  let d := dispatch env reqer in
  (redirects_of (pevents d) ≠ [] →
   ∃ reqer', presult d = Done (reqer', inl (Some _TRANS_DIRECT)))
  ∧ length (redirects_of (pevents d)) ≤ 1
  ∧ (pcache_adds_of (pevents d) ≠ [] →
     ∃ reqer' t, presult d = Done (reqer', inl (Some t))
                 ∧ Forall (λ e, add_transport e = Some t)
                          (pcache_adds_of (pevents d)))
  ∧ length (pcache_adds_of (pevents d)) ≤ 2
  ∧ length (praces_of (pevents d)) ≤ 2
  ∧ (∀ reqer' c, presult d = Done (reqer', c) →
       (redirects_of (pevents d) = [] ∧ reqer' = reqer)
       ∨ ∃ ip, redirects_of (pevents d) = [ip]
               ∧ reqer' = setRedirect reqer ip)
  ∧ (∀ reqer', presult d = Done (reqer', inl None) →
       getAddrType reqer ≠ AddrIPv4 ∧ getAddrType reqer ≠ AddrIPv6
       ∧ getAddrType reqer ≠ AddrDomain).
Proof.
  unfold dispatch, dispatch_ip, dispatch_domain, dispatch_cached,
    dispatch_obedient, dispatch_unknown, legallySpawnQuery, redirect,
    legallySpawnQuery_req, answered, redirects_of, pcache_adds_of,
    praces_of, races_of, cache_adds_of, mret, ptraced_ret, plift, pemit.
  split_ppath.
  all: cbn.
  all: repeat split; try done; try lia;
    try (intros _; by eexists);
    try (intros _; eexists _, _; split; [done|];
         repeat (apply Forall_cons; split; [done|]); by apply Forall_nil).
  all: try (intros ? ? [= <- <-]; by left).
  all: try (intros ? ? [= <- <-]; right; by eexists).
  all: try (intros ? [=]).
  all: repeat match goal with
              | Hb : _ || _ = false |- _ => apply orb_false_iff in Hb as [? ?]
              | Hb : bool_decide _ = false |- _ =>
                  apply bool_decide_eq_false in Hb
              end; done.
Qed.

(** X18: every insertion into a cache that the classification of a
    connection makes records the transport of the proxy server the
    classification returns. *)
Theorem dispatch_cache_writes_name_the_server (env : proxy_env) (reqer : R) :
  Forall (λ e, ∃ reqer' t,
            add_transport e = Some t
            ∧ presult (dispatch env reqer) = Done (reqer', inl (Some t)))
         (pcache_adds_of (pevents (dispatch env reqer))).
Proof.
  destruct (dispatch_paths env reqer) as (_ & _ & Hadd & _).
  destruct (pcache_adds_of (pevents (dispatch env reqer))) as [|e l] eqn:E;
    [by apply Forall_nil|].
  destruct Hadd as (reqer' & t & Hres & Hall); [done|].
  eapply Forall_impl; [exact Hall|].
  intros e' He'. by exists reqer', t.
Qed.

(** The classification of one connection sends at most two DNS
    queries, inserts at most twice into the caches and redirects the request
    at most once. *)
Lemma dispatch_bounds (env : proxy_env) (reqer : R) :
  length (praces_of (pevents (dispatch env reqer))) ≤ 2
  ∧ length (pcache_adds_of (pevents (dispatch env reqer))) ≤ 2
  ∧ length (redirects_of (pevents (dispatch env reqer))) ≤ 1.
Proof.
  destruct (dispatch_paths env reqer) as (_ & Hr & _ & Ha & Hq & _).
  done.
Qed.

(** X19: when the classification redirects the request to an address, it
    does so once, the server it returns is the direct one, and the request
    it leaves is the given one after that one [setRedirect]. *)
Theorem dispatch_redirect_means_direct (env : proxy_env) (reqer : R) (ip : IP) :
  ip ∈ redirects_of (pevents (dispatch env reqer)) →
  redirects_of (pevents (dispatch env reqer)) = [ip]
  ∧ presult (dispatch env reqer)
    = Done (setRedirect reqer ip, inl (Some _TRANS_DIRECT)).
Proof.
  intros Hip.
  destruct (dispatch_paths env reqer) as (Hdir & _ & _ & _ & _ & Hreq & _).
  destruct Hdir as [reqer' Hres].
  { intros E. rewrite E in Hip. by apply elem_of_nil in Hip. }
  destruct (Hreq _ _ Hres) as [[E _]|(ip' & E & ->)].
  - rewrite E in Hip. by apply elem_of_nil in Hip.
  - rewrite E in Hip. apply list_elem_of_singleton in Hip as ->. by rewrite Hres.
Qed.

(** X20: a request for a domain that is not in the cache and is on the GFW
    list goes to the proxy server as it is: no DNS query is sent, nothing is
    inserted into a cache and the request is not redirected. *)
Theorem gfw_domain_proxied_unresolved (env : proxy_env) (reqer : R) :
  getAddrType reqer = AddrDomain →
  env_cached (penv_dns env) (getHostName reqer) = None →
  MatchGFW (env_matcher (penv_dns env)) (getHostName reqer) = true →
  presult (dispatch env reqer) = Done (reqer, inl (Some _TRANS_PROXY))
  ∧ praces_of (pevents (dispatch env reqer)) = []
  ∧ pcache_adds_of (pevents (dispatch env reqer)) = []
  ∧ redirects_of (pevents (dispatch env reqer)) = [].
Proof.
  intros Ht Hc Hg. unfold dispatch, dispatch_domain.
  rewrite Ht. cbn. by rewrite Hc, Hg.
Qed.

(** X21: a request for a domain that is not in the cache, not on the GFW
    list and on the obedient list sends one query, to the obedient upstream
    and without a client subnet, and what it does is fixed by what that
    query gives.  When the query gives a response from which
    [MsgExtractAnswer] takes an answer and its address, the request is
    redirected once, to that address, [Add] is called on the IP cache with
    the address and then on the domain cache with the host and the answer,
    both as direct, and the server is the direct one.  When the query
    fails, or its response holds no address, the request stays as it is,
    there is no redirection and no [Add] call, and the server is the direct
    one.  When the query never returns, neither does the classification. *)
Theorem obedient_domain_always_direct (env : proxy_env) (reqer : R) :
  getAddrType reqer = AddrDomain →
  env_cached (penv_dns env) (getHostName reqer) = None →
  MatchGFW (env_matcher (penv_dns env)) (getHostName reqer) = false →
  MatchObedient (env_matcher (penv_dns env)) (getHostName reqer) = true →
  let q := SetQuestion (penv_id env 0) (Fqdn (getHostName reqer)) TypeA
                       zero_Msg in
  let d := dispatch env reqer in
  subnets_of q = []
  ∧ praces_of (pevents d) = [(OBEDIENT, q)]
  ∧ match env_race (penv_dns env) OBEDIENT q with
    | RaceOk resp =>
        match MsgExtractAnswer (Some resp) with
        | Some (_, answer, ip) =>
            presult d = Done (setRedirect reqer ip, inl (Some _TRANS_DIRECT))
            ∧ redirects_of (pevents d) = [ip]
            ∧ pcache_adds_of (pevents d)
              = [EvIPAdd (IP_String ip) _TRANS_DIRECT;
                 EvDomainAdd (getHostName reqer) answer _TRANS_DIRECT]
        | None =>
            presult d = Done (reqer, inl (Some _TRANS_DIRECT))
            ∧ redirects_of (pevents d) = []
            ∧ pcache_adds_of (pevents d) = []
        end
    | RaceErr _ =>
        presult d = Done (reqer, inl (Some _TRANS_DIRECT))
        ∧ redirects_of (pevents d) = []
        ∧ pcache_adds_of (pevents d) = []
    | RaceHang =>
        presult d = Hang
        ∧ redirects_of (pevents d) = []
        ∧ pcache_adds_of (pevents d) = []
    end.
Proof.
  intros Ht Hc Hg Ho. cbv zeta. split; [done|].
  unfold dispatch. rewrite Ht.
  rewrite !bool_decide_eq_false_2 by done.
  rewrite bool_decide_eq_true_2 by done.
  cbn [orb]. cbv iota. unfold dispatch_domain. cbn. rewrite Hc, Hg, Ho.
  unfold dispatch_obedient, legallySpawnQuery, redirect,
    legallySpawnQuery_req, answered, redirects_of, pcache_adds_of,
    praces_of, races_of, cache_adds_of, mret, ptraced_ret, plift, pemit.
  cbn.
  destruct (env_race (penv_dns env) OBEDIENT _) as [resp|e|]; cbn; [|done..].
  by destruct (extract_from 0 (Answer resp)) as [[[i answer] ip]|].
Qed.

(** A fresh question holds no additional record, so setting the ECS on it
    appends the one OPT record with the one subnet option. *)
Lemma MsgSetECSWithAddr_fresh id name qtype (addr : IP) :
  MsgSetECSWithAddr (SetQuestion id name qtype zero_Msg) addr
  = Done (match addr with
          | Some _ =>
              set_Extra [RR_OPT new_opt_hdr [Opt_SUBNET (ecs_assign addr)]]
                        (SetQuestion id name qtype zero_Msg)
          | None => SetQuestion id name qtype zero_Msg
          end).
Proof.
  unfold MsgSetECSWithAddr, IsEdns0, opt_scan; cbn.
  by destruct addr, IsEdns0_from_end.
Qed.

(** X22: a request for a domain on neither list and not in the cache,
    when every query it sends fails, sends two queries and goes to the proxy
    server as it is, with nothing inserted into a cache and no redirection.
    The first query goes to the upstream abroad: it is the fresh question
    for the host's A record with, when LOCAL_IP is not nil, one OPT record
    holding one subnet option, the one for LOCAL_IP, as its additional
    section, and the bare question when LOCAL_IP is nil.  The second goes to
    the obedient upstream and is the bare question, with no subnet. *)
Theorem unknown_domain_all_failed_proxied (env : proxy_env) (reqer : R) :
  getAddrType reqer = AddrDomain →
  env_cached (penv_dns env) (getHostName reqer) = None →
  MatchGFW (env_matcher (penv_dns env)) (getHostName reqer) = false →
  MatchObedient (env_matcher (penv_dns env)) (getHostName reqer) = false →
  (∀ u req, ∃ e, env_race (penv_dns env) u req = RaceErr e) →
  let local := env_local_ip (penv_dns env) in
  let q0 := SetQuestion (penv_id env 0) (Fqdn (getHostName reqer)) TypeA
                        zero_Msg in
  let q1 := SetQuestion (penv_id env 1) (Fqdn (getHostName reqer)) TypeA
                        zero_Msg in
  let q := match local with
           | Some _ =>
               set_Extra [RR_OPT new_opt_hdr [Opt_SUBNET (ecs_assign local)]]
                         q0
           | None => q0
           end in
  presult (dispatch env reqer) = Done (reqer, inl (Some _TRANS_PROXY))
  ∧ praces_of (pevents (dispatch env reqer)) = [(ABROAD, q); (OBEDIENT, q1)]
  ∧ MsgSetECSWithAddr q0 local = Done q
  ∧ subnets_of q = match local with
                   | Some _ => [ecs_assign local]
                   | None => []
                   end
  ∧ (local ≠ None → ecs_is_set q local)
  ∧ subnets_of q1 = []
  ∧ pcache_adds_of (pevents (dispatch env reqer)) = []
  ∧ redirects_of (pevents (dispatch env reqer)) = [].
Proof.
  intros Ht Hc Hg Ho Hfail. cbv zeta. unfold dispatch. rewrite Ht.
  rewrite !bool_decide_eq_false_2 by done.
  rewrite bool_decide_eq_true_2 by done.
  cbn [orb]. cbv iota. unfold dispatch_domain. cbn. rewrite Hc, Hg, Ho.
  unfold dispatch_unknown, legallySpawnQuery, redirect,
    legallySpawnQuery_req, answered, redirects_of, pcache_adds_of,
    praces_of, races_of, cache_adds_of, mret, ptraced_ret, plift, pemit.
  rewrite MsgSetECSWithAddr_fresh.
  cbn.
  match goal with
  | |- context [env_race _ ABROAD ?q] => destruct (Hfail ABROAD q) as [e1 ->]
  end.
  cbn.
  destruct (Hfail OBEDIENT
              (SetQuestion (penv_id env 1) (Fqdn (getHostName reqer)) TypeA
                           zero_Msg)) as [e2 ->].
  cbn. do 3 (split; [done|]).
  by destruct (env_local_ip (penv_dns env)).
Qed.

(** X23: a request for an address sends no DNS query and is not
    redirected; the server is the one of the transport the IP cache holds
    for the host, and when the cache holds none, the one of the transport
    computed from the parsed host, which is then inserted under the host. *)
Theorem ip_request_by_cache_or_address (env : proxy_env) (reqer : R) :
  getAddrType reqer = AddrIPv4 ∨ getAddrType reqer = AddrIPv6 →
  let host := getHostName reqer in
  let t := default (transport_of_ip env (ParseIP host))
                   (penv_ip_cached env host) in
  presult (dispatch env reqer) = Done (reqer, inl (Some t))
  ∧ praces_of (pevents (dispatch env reqer)) = []
  ∧ redirects_of (pevents (dispatch env reqer)) = []
  ∧ pcache_adds_of (pevents (dispatch env reqer))
    = match penv_ip_cached env host with
      | Some _ => []
      | None => [EvIPAdd host t]
      end.
Proof.
  intros Ht. cbv zeta. unfold dispatch, dispatch_ip.
  assert (bool_decide (getAddrType reqer = AddrIPv4)
          || bool_decide (getAddrType reqer = AddrIPv6) = true) as ->.
  { destruct Ht as [-> | ->]; done. }
  cbn. by destruct (penv_ip_cached env (getHostName reqer)).
Qed.

(** X24: a request for a domain the cache holds sends no DNS query and
    inserts nothing; the server is the one of the cached transport, the
    request being redirected to the cached address when that transport is
    the direct one, and left as it is when it is the proxy; a cached
    direct record that is neither an A nor an AAAA record gives the error
    instead of a server. *)
Theorem cached_domain_by_cache (env : proxy_env) (reqer : R)
    (item : domaincacheCell) :
  getAddrType reqer = AddrDomain →
  env_cached (penv_dns env) (getHostName reqer) = Some item →
  praces_of (pevents (dispatch env reqer)) = []
  ∧ pcache_adds_of (pevents (dispatch env reqer)) = []
  ∧ match trans item, ans item with
    | _TRANS_PROXY, _ =>
        presult (dispatch env reqer) = Done (reqer, inl (Some _TRANS_PROXY))
        ∧ redirects_of (pevents (dispatch env reqer)) = []
    | _TRANS_DIRECT, (RR_A _ a | RR_AAAA _ a) =>
        presult (dispatch env reqer)
        = Done (setRedirect reqer a, inl (Some _TRANS_DIRECT))
        ∧ redirects_of (pevents (dispatch env reqer)) = [a]
    | _TRANS_DIRECT, _ =>
        presult (dispatch env reqer) = Done (reqer, inr "unreachable!")
        ∧ redirects_of (pevents (dispatch env reqer)) = []
    end.
Proof.
  intros Ht Hc. unfold dispatch, dispatch_domain, dispatch_cached.
  rewrite Ht. cbn. rewrite Hc.
  destruct item as [a t]; cbn.
  by destruct t, a.
Qed.

End proxy_front.

(** X25: an HTTP request that the classification hands on is the request
    it was given, with a proxy server set: it is never redirected to a
    resolved address and its server is never nil. *)
Theorem http_request_only_gets_a_server `{GoLib} (env : proxy_env)
    (r r' : httpRequest) :
  presult (handleProxyConn_dispatch env r) = Done (inl r') →
  ∃ t, r' = mkHTTPRequest (http_URL_Hostname r) (http_conn r) (Some t).
Proof.
  unfold handleProxyConn_dispatch.
  destruct (dispatch_paths env r) as (_ & _ & _ & _ & _ & Hreq & Hnil).
  destruct (dispatch env r) as [evs [[r1 c]| |]] eqn:Hd; cbn in *; try done.
  destruct c as [[t|]|err]; cbn; intros [= <-].
  - exists t. by destruct (Hreq _ _ eq_refl) as [[_ ->]|(ip & _ & ->)].
  - destruct (Hnil _ eq_refl) as (H4 & H6 & Hdom). exfalso.
    cbn in H4, H6, Hdom.
    destruct (ParseIP (http_URL_Hostname r)); [|done].
    by destruct (negb _).
Qed.

(** X26: a SOCKS5 request that the classification redirected is handed on
    as a request for an IPv4 address, whose host is the text of the address
    and whose port is unchanged, with the direct server set. *)
Theorem socks5_redirected_request `{GoLib} (env : proxy_env)
    (r : socks5Request) (ip : IP) :
  ip ∈ redirects_of (pevents (dispatch env r)) →
  presult (handleProxyConn_dispatch env r)
  = Done (inl (mkSocks5Request
                 (mkS5Req (Cmd (s5_req r))
                          (mkAddr AddrIPv4 (IP_String ip)
                                  (Port (Addr (s5_req r)))))
                 (s5_conn r) (Some _TRANS_DIRECT))).
Proof.
  intros Hip.
  destruct (dispatch_paths env r) as (Hdir & _ & _ & _ & _ & Hreq & _).
  destruct Hdir as [reqer' Hres].
  { intros E. rewrite E in Hip. by apply elem_of_nil in Hip. }
  destruct (Hreq _ _ Hres) as [[E _]|(ip' & E & ->)];
    rewrite E in Hip; [by apply elem_of_nil in Hip|].
  apply list_elem_of_singleton in Hip as ->.
  unfold handleProxyConn_dispatch.
  destruct (dispatch env r) as [evs res]; cbn in *. subst res. cbn.
  unfold socks5_setRedirect. by destruct (negb _).
Qed.

(** * The domain lists *)

Lemma string_app_cons (c : ascii) (a b : string) :
  String c a +:+ b = String c (a +:+ b).
Proof. reflexivity. Qed.

Lemma string_app_nil (b : string) : EmptyString +:+ b = b.
Proof. reflexivity. Qed.

Ltac string_simpl :=
  rewrite ?string_app_cons, ?string_app_nil; simpl;
  rewrite ?string_app_cons, ?string_app_nil.

Lemma string_length_app (a b : string) :
  String.length (a +:+ b) = String.length a + String.length b.
Proof. induction a as [|c a IH]; string_simpl; [done|]. by rewrite IH. Qed.

Lemma substring_all (t : string) : substring 0 (String.length t) t = t.
Proof. induction t as [|c t IH]; simpl; [done|]. by rewrite IH. Qed.

Lemma substring_app_r (p t : string) (n : nat) :
  substring (String.length p) n (p +:+ t) = substring 0 n t.
Proof. induction p as [|c p IH]; string_simpl; [done|]. apply IH. Qed.

Lemma substring_split (s : string) (n : nat) :
  n ≤ String.length s →
  s = substring 0 n s +:+ substring n (String.length s - n) s.
Proof.
  revert n. induction s as [|c s IH]; intros [|n] Hn; simpl in *.
  - done.
  - lia.
  - by rewrite string_app_nil, substring_all.
  - rewrite string_app_cons. f_equal. apply IH. lia.
Qed.

(** [strings.HasSuffix(s, suffix)] holds exactly when [s] ends with
    [suffix]. *)
Lemma HasSuffix_spec (s t : string) :
  HasSuffix s t = true ↔ ∃ p, s = p +:+ t.
Proof.
  unfold HasSuffix. rewrite andb_true_iff, Nat.leb_le, bool_decide_eq_true.
  split.
  - intros [Hle Hsub].
    exists (substring 0 (String.length s - String.length t) s).
    rewrite (substring_split s (String.length s - String.length t)) at 1
      by lia.
    f_equal.
    replace (String.length s - (String.length s - String.length t))
      with (String.length t) by lia.
    exact Hsub.
  - intros [p ->]. rewrite string_length_app. split; [lia|].
    replace (String.length p + String.length t - String.length t)
      with (String.length p) by lia.
    by rewrite substring_app_r, substring_all.
Qed.

Lemma Split_LF_nonempty (s : string) : Split_LF s ≠ [].
Proof.
  induction s as [|c s IH]; simpl; [done|].
  destruct (Ascii.eqb c LF); [done|]. by destruct (Split_LF s).
Qed.

Lemma Split_LF_no_LF (s : string) : has_LF s = false → Split_LF s = [s].
Proof.
  induction s as [|c s IH]; simpl; [done|].
  intros [Hc Hs]%orb_false_iff. rewrite Hc. by rewrite (IH Hs).
Qed.

Lemma Split_LF_app (s rest : string) :
  has_LF s = false →
  Split_LF (s +:+ String LF rest) = s :: Split_LF rest.
Proof.
  induction s as [|c s IH]; string_simpl.
  - intros _. by rewrite ?Ascii.eqb_refl.
  - intros [Hc Hs]%orb_false_iff. rewrite Hc. by rewrite (IH Hs).
Qed.

Lemma string_app_assoc (a b c : string) : (a +:+ b) +:+ c = a +:+ (b +:+ c).
Proof. induction a as [|x a IH]; string_simpl; [done|]. by rewrite IH. Qed.

Lemma Split_LF_gfw (items : list string) :
  Forall (λ item, has_LF item = false) items →
  Split_LF (gfw_domain_list_written items) = items ++ [EmptyString].
Proof.
  induction 1 as [|item items Hitem _ IH]; [done|].
  cbn [gfw_domain_list_written]. rewrite string_app_cons, string_app_nil.
  rewrite Split_LF_app by done. by rewrite IH.
Qed.

Lemma Split_LF_Join (items : list string) :
  items ≠ [] →
  Forall (λ item, has_LF item = false) items →
  Split_LF (Join items (String LF EmptyString)) = items.
Proof.
  intros Hne Hall. induction Hall as [|item items Hitem Hall IH]; [done|].
  destruct items as [|item' items]; cbn [Join].
  - by apply Split_LF_no_LF.
  - rewrite string_app_cons, string_app_nil.
    rewrite Split_LF_app by done. f_equal. by apply IH.
Qed.

(** The error for an empty list is never returned: whatever the file
    holds, the list has one entry at least; the empty file gives the one
    empty rule. *)
Lemma legallyParseDomainList_never_empty (content : string) :
  ∃ list, legallyParseDomainList (inl content) = inl list ∧ list ≠ [].
Proof.
  unfold legallyParseDomainList.
  pose proof (Split_LF_nonempty content) as Hne.
  destruct (Split_LF content) as [|a l] eqn:E; [done|].
  by eexists.
Qed.

(** X27: the two generated files, read back by the command.  The file of
    the GFW list, where each item is followed by a line feed, gives the
    items followed by one empty rule; the file of the China list, where the
    items are joined by line feeds, gives the items themselves. *)
Theorem domain_list_files_round_trip (items : list string) :
  Forall (λ item, has_LF item = false) items →
  legallyParseDomainList (inl (gfw_domain_list_written items))
  = inl (items ++ [EmptyString])
  ∧ (items ≠ [] →
     ∃ data, china_domain_list_written items = inl data
             ∧ legallyParseDomainList (inl data) = inl items).
Proof.
  intros Hall. split.
  - unfold legallyParseDomainList. rewrite Split_LF_gfw by done.
    by destruct items.
  - intros Hne. unfold china_domain_list_written.
    destruct items as [|a l] eqn:E; [done|]. rewrite <- E in *.
    assert (bool_decide (length items = 0) = false) as ->.
    { by subst items. }
    eexists. split; [done|].
    unfold legallyParseDomainList. rewrite Split_LF_Join by (by subst).
    by subst items.
Qed.

Lemma domainMatchList_app (domain : string) (l1 l2 : list string) :
  domainMatchList domain (l1 ++ l2)
  = domainMatchList domain l1 || domainMatchList domain l2.
Proof.
  induction l1 as [|a l1 IH]; simpl; [done|].
  by destruct (bool_decide (a = domain) || HasSuffix domain ("." +:+ a)).
Qed.

(** X28: a domain matches a list exactly when it is one of the rules or
    ends with a dot followed by one of them; so with a rule every name
    below it matches, and with the empty rule, as the file of the GFW list
    gives one, the empty name and every name that ends with a dot match. *)
Theorem domainMatchList_spec (domain : string) (domainList : list string) :
  (domainMatchList domain domainList = true
   ↔ ∃ rule, rule ∈ domainList
             ∧ (rule = domain ∨ ∃ p, domain = p +:+ "." +:+ rule))
  ∧ (∀ label, domainMatchList domain domainList = true →
              domainMatchList (label +:+ "." +:+ domain) domainList = true)
  ∧ domainMatchList domain (domainList ++ [EmptyString])
    = domainMatchList domain domainList
      || bool_decide (domain = EmptyString) || HasSuffix domain ".".
Proof.
  assert (∀ d l, domainMatchList d l = true
                 ↔ ∃ rule, rule ∈ l
                           ∧ (rule = d ∨ ∃ p, d = p +:+ "." +:+ rule)) as Hspec.
  { intros d l. induction l as [|a l IH]; simpl.
    - split; [done|]. intros (rule & Hin & _). by apply elem_of_nil in Hin.
    - destruct (bool_decide (a = d) || HasSuffix d ("." +:+ a)) eqn:E.
      + split; [|done]. intros _. exists a. split; [by left|].
        apply orb_true_iff in E as [E|E].
        * left. by apply bool_decide_eq_true in E.
        * right. by apply HasSuffix_spec in E.
      + rewrite IH. apply orb_false_iff in E as [E1 E2].
        apply bool_decide_eq_false in E1.
        split; intros (rule & Hin & Hrule).
        * exists rule. split; [by right|done].
        * apply elem_of_cons in Hin as [->|Hin]; [|by exists rule].
          destruct Hrule as [?|Hp]; [done|].
          apply HasSuffix_spec in Hp. by rewrite Hp in E2. }
  split; [apply Hspec|]. split.
  - intros label. rewrite !Hspec. intros (rule & Hin & Hrule).
    exists rule. split; [done|]. right.
    destruct Hrule as [->|[p ->]].
    + by exists label.
    + exists (label +:+ "." +:+ p). by rewrite !string_app_assoc.
  - rewrite domainMatchList_app. cbn [domainMatchList].
    change ("." +:+ EmptyString) with ".".
    rewrite <- orb_assoc. f_equal.
    rewrite (bool_decide_ext (EmptyString = domain) (domain = EmptyString))
      by done.
    by destruct (bool_decide (domain = EmptyString) || HasSuffix domain ".").
Qed.

(** * The connection with bytes put back in front *)

Section conn_left_append_reader.
Context {R C : Type} (r_Read : Read_fn R) (conn_Read : Read_fn C).

Lemma Read_after_EOF (r : R) (conn : C) (len : nat) :
  connLeftAppendReader_Read r_Read conn_Read
    (mkConnLeftAppendReader r true conn) len
  = ((conn_Read conn len).1,
     mkConnLeftAppendReader r true (conn_Read conn len).2).
Proof.
  unfold connLeftAppendReader_Read; simpl.
  by destruct (conn_Read conn len) as [[data err] conn'].
Qed.

Lemma Reads_after_EOF (r : R) (conn : C) (lens : list nat) :
  Reads (connLeftAppendReader_Read r_Read conn_Read)
        (mkConnLeftAppendReader r true conn) lens
  = ((Reads conn_Read conn lens).1,
     mkConnLeftAppendReader r true (Reads conn_Read conn lens).2).
Proof.
  revert conn. induction lens as [|len lens IH]; intros conn; [done|].
  cbn [Reads]. rewrite Read_after_EOF.
  destruct (conn_Read conn len) as [[data err] conn']. cbn [fst snd].
  rewrite IH. by destruct (Reads conn_Read conn' lens).
Qed.

Lemma Read_before_EOF (r : R) (conn : C) (len : nat) :
  connLeftAppendReader_Read r_Read conn_Read
    (mkConnLeftAppendReader r false conn) len
  = match r_Read r len with
    | (data, io_nil, r') =>
        (data, io_nil, mkConnLeftAppendReader r' false conn)
    | (data, io_EOF, r') =>
        (data, io_nil, mkConnLeftAppendReader r' true conn)
    | (data, io_other e, r') =>
        (data, io_other e, mkConnLeftAppendReader r' false conn)
    end.
Proof.
  unfold connLeftAppendReader_Read; simpl.
  by destruct (r_Read r len) as [[data [| |e]] r'].
Qed.

(** X29: reads through the wrapper, with buffers of any lengths.  While
    the reader in front returns no error, the reads are its reads; the read
    on which it returns [io.EOF] gives its bytes with a nil error; every read
    after that is a read of the connection, and the reader in front is not
    read again. *)
Theorem connLeftAppendReader_stream (r : R) (conn : C) (lens : list nat)
    (k len : nat) (data : list Z) (r' : R) :
  Forall (λ o, o.2 = io_nil) (Reads r_Read r (take k lens)).1 →
  lens !! k = Some len →
  r_Read (Reads r_Read r (take k lens)).2 len = (data, io_EOF, r') →
  Reads (connLeftAppendReader_Read r_Read conn_Read)
        (newConnLeftAppendReader conn r) lens
  = ((Reads r_Read r (take k lens)).1 ++ [(data, io_nil)]
       ++ (Reads conn_Read conn (drop (S k) lens)).1,
     mkConnLeftAppendReader r' true
       (Reads conn_Read conn (drop (S k) lens)).2).
Proof.
  unfold newConnLeftAppendReader.
  revert r lens. induction k as [|k IH]; intros r [|l lens] Hnil Hk Heof;
    try done.
  - cbn in Hk, Heof. simplify_eq.
    cbn [Reads take drop fst snd app]. rewrite Read_before_EOF, Heof.
    rewrite Reads_after_EOF. by rewrite drop_0.
  - cbn [take drop lookup list_lookup] in *. cbn [Reads] in *.
    rewrite Read_before_EOF.
    destruct (r_Read r l) as [[d e] r1] eqn:Hr.
    destruct (Reads r_Read r1 (take k lens)) as [outs r2] eqn:Hrs.
    cbn [fst snd] in *. apply Forall_cons in Hnil as [He Hnil].
    cbn in He. subst e.
    rewrite (IH r1 lens); rewrite ?Hrs; done.
Qed.

End conn_left_append_reader.

(** * The race, when an exchange succeeds *)


(** * The further properties at concrete inputs *)

Section examples_more.
#[local] Existing Instance example_lib.

Lemma MsgSetECSWithAddr_frame_witness :
  let m := query_two_subnets in
  let m' := with_ecs m example_LOCAL_IP in
  MsgSetECSWithAddr m example_LOCAL_IP = Done m'
  ∧ MsgHdr_ m' = MsgHdr_ m
  ∧ Questions m' = Questions m
  ∧ length (Extra m') = length (Extra m)
  ∧ ∃ i h pre s post,
      Extra m !! i = Some (RR_OPT h (pre ++ Opt_SUBNET s :: post))
      ∧ subnet_options pre = []
      ∧ Extra m'
        = <[i := RR_OPT h (pre ++ Opt_SUBNET (ecs_assign example_LOCAL_IP)
                               :: post)]> (Extra m).
Proof.
  cbv zeta.
  assert (MsgSetECSWithAddr query_two_subnets example_LOCAL_IP
          = Done (with_ecs query_two_subnets example_LOCAL_IP))
    as Hset by reflexivity.
  destruct (MsgSetECSWithAddr_frame _ _ _ Hset)
    as (Hh & _ & Hq & _ & _ & _ & _ & _ & Hone).
  split; [exact Hset|]. split; [exact Hh|]. split; [exact Hq|].
  split; [reflexivity|].
  destruct Hone as [(i & h & opts & opts' & Hi & Hex & Hopts)|[Hall _]].
  - destruct Hopts as [(pre & s & post & -> & Hpre & ->)|[Hnone _]].
    + by exists i, h, pre, s, post.
    + exfalso.
      destruct i as [|[|i]]; try discriminate Hi;
        injection Hi as <- <-; discriminate Hnone.
  - exfalso. apply Forall_cons in Hall as [Hopt _]. discriminate Hopt.
Defined.

Lemma set_ECS_then_DoH_query_witness :
  let req := query_A 7 "example.org." in
  ∃ vs, doh_query (with_ecs req example_LOCAL_IP)
        = Done (example_LOCAL_IP, vs)
        ∧ vs !! "name" = Some ["example.org."]
        ∧ vs !! "edns_client_subnet" = Some ["114.114.114.114"].
Proof.
  cbv zeta.
  assert (∀ i h opts,
            IsEdns0 (query_A 7 "example.org.") = Done (Some (i, h, opts)) →
            length (subnet_options opts) ≤ 1) as Hsub
    by (intros i h opts Hopt; discriminate Hopt).
  assert (MsgSetECSWithAddr (query_A 7 "example.org.")
            (Some (v4InV6Prefix ++ [114; 114; 114; 114]%Z))
          = Done (with_ecs (query_A 7 "example.org.") example_LOCAL_IP))
    as Hset by reflexivity.
  destruct (set_ECS_then_DoH_query (query_A 7 "example.org.") _ _ _ _
              eq_refl Hsub Hset) as (vs & Hq & Hname & _ & Hecs).
  exists vs. split; [exact Hq|]. split; [exact Hname|exact Hecs].
Defined.

Lemma DoH_more_questions_witness :
  let req := query_A 7 "nowhere.test." in
  length (Questions req) < length (doh_Question two_questions_repr)
  ∧ MsgExchangeOverGoogleDOH req (λ _, inl two_questions_repr) = Panic.
Proof.
  cbv zeta.
  assert (doh_query (query_A 7 "nowhere.test.")
          = Done (None, Query_values TypeA "nowhere.test." [IP_String None]))
    as Hq by reflexivity.
  assert (length (Questions (query_A 7 "nowhere.test."))
          < length (doh_Question two_questions_repr)) as Hlen
    by (simpl; lia).
  split; [exact Hlen|].
  exact (DoH_more_questions_than_asked_panics (query_A 7 "nowhere.test.")
           (λ _, inl two_questions_repr) _ _ two_questions_repr
           Hq eq_refl Hlen).
Defined.

Lemma DoH_translation_sections_witness :
  let req := with_ecs (query_A 7 "www.example.org.") example_LOCAL_IP in
  ∃ resp, MsgExchangeOverGoogleDOH req (λ _, inl answered_repr)
          = Done (inl resp)
          ∧ Id (MsgHdr_ resp) = 7%Z
          ∧ Questions resp = [mkQuestion "www.example.org." TypeA ClassINET]
          ∧ Answer resp
            = [RR_A (mkHdr "www.example.org." TypeA ClassINET 60 13)
                    (Some (v4InV6Prefix ++ [93; 184; 216; 34]%Z))]
          ∧ Ns resp = [RR_other (mkHdr "example.org." 2 ClassINET 3600 15)]
          ∧ Extra resp
            = [RR_A (mkHdr "ns.example.org." TypeA ClassINET 3600 13)
                    (Some (v4InV6Prefix ++ [93; 184; 216; 35]%Z));
               RR_OPT new_opt_hdr [Opt_SUBNET (ecs_assign example_LOCAL_IP)]].
Proof.
  cbv zeta.
  assert (∃ vs, doh_query (with_ecs (query_A 7 "www.example.org.")
                                    example_LOCAL_IP)
                = Done (example_LOCAL_IP, vs)) as [vs Hq] by (by eexists).
  assert (∃ resp, MsgExchangeOverGoogleDOH
                    (with_ecs (query_A 7 "www.example.org.") example_LOCAL_IP)
                    (λ _, inl answered_repr) = Done (inl resp)
                  ∧ Questions resp
                    = [mkQuestion "www.example.org." TypeA ClassINET])
    as (resp & Hresp & Hqs) by (by eexists).
  destruct (DoH_translation_sections
              (with_ecs (query_A 7 "www.example.org.") example_LOCAL_IP)
              (λ _, inl answered_repr) _ _ answered_repr resp
              Hq eq_refl Hresp)
    as (Hid & _ & _ & _ & Hans & Hns & _ & _ & Hextra).
  exists resp. split; [exact Hresp|]. split; [exact Hid|].
  split; [exact Hqs|]. split; [exact Hans|]. split; [exact Hns|].
  destruct Hextra as [(i & h & Hi & _)|[_ Hex]]; [done| |exact Hex].
  exfalso. by destruct i as [|[|i]].
Defined.

Lemma Exchange_response_Id_witness :
  let req := query_A 7 "www.cn.example." in
  let dt := NewDnsTransport "114.114.114.114:53" "udp" None in
  Exchange example_network dt req
  = Done (inl (response_A req "www.cn.example." [1; 2; 3; 4]%Z))
  ∧ Id (MsgHdr_ (response_A req "www.cn.example." [1; 2; 3; 4]%Z)) = 7%Z.
Proof.
  cbv zeta.
  assert (Exchange example_network
            (NewDnsTransport "114.114.114.114:53" "udp" None)
            (query_A 7 "www.cn.example.")
          = Done (inl (response_A (query_A 7 "www.cn.example.")
                                  "www.cn.example." [1; 2; 3; 4]%Z)))
    as Hex by reflexivity.
  split; [exact Hex|].
  exact (Exchange_response_has_request_Id _ _ _ _ Hex).
Defined.

Lemma pseudo_zone_witness :
  let req := query_A 7 "printer.DHCP\ HOST." in
  ∃ resp, handleDnsRequest env_S1 req = Traced [] (Done (Wrote resp))
          ∧ Answer resp = []
          ∧ Questions resp = Questions req.
Proof.
  cbv zeta.
  destruct (pseudo_zone_answered_locally env_S1
              (query_A 7 "printer.DHCP\ HOST.") _ _ eq_refl eq_refl)
    as (resp & Hresp & Hans & _ & _ & _ & _ & Hq).
  exists resp. split; [exact Hresp|]. split; [exact Hans|exact Hq].
Defined.

Lemma cache_hit_witness :
  let req := query_A 7 "www.cn.example." in
  env_cached env_cached_direct "www.cn.example"
  = Some (mkCell (example_answer "www.cn.example." [1; 2; 3; 4]%Z)
                 _TRANS_DIRECT)
  ∧ handleDnsRequest env_cached_direct req
    = Traced [EvDomainGet "www.cn.example"]
             (Done (Wrote (MsgNewReplyFromReq req
                             [example_answer "www.cn.example."
                                             [1; 2; 3; 4]%Z]))).
Proof.
  cbv zeta. split; [reflexivity|].
  exact (cache_hit_answered_from_cache env_cached_direct
           (query_A 7 "www.cn.example.") _ _ "www.cn.example"
           (mkCell (example_answer "www.cn.example." [1; 2; 3; 4]%Z)
                   _TRANS_DIRECT)
           eq_refl eq_refl eq_refl eq_refl).
Defined.


Lemma unknown_foreign_witness :
  let req := query_A 7 "other.test." in
  let answer := example_answer "foo.example.net." [93; 184; 216; 34]%Z in
  env_ip_match env_S1 (Some [93; 184; 216; 34]%Z) = false
  ∧ cache_adds_of (events (handleDnsRequest env_S1 req))
    = [EvDomainAdd "other.test" answer _TRANS_PROXY;
       EvIPAdd "93.184.216.34" _TRANS_PROXY]
  ∧ races_of (events (handleDnsRequest env_S1 req))
    = [(ABROAD, with_ecs req example_PROXY_IP);
       (ABROAD, with_ecs req example_LOCAL_IP)].
Proof.
  cbv zeta. split; [reflexivity|].
  assert (misses_cache env_S1 (query_A 7 "other.test.") "other.test")
    as Hmiss by (by apply misses_cache_query_A).
  assert (MsgSetECSWithAddr (query_A 7 "other.test.") (env_proxy_ip env_S1)
          = Done (with_ecs (query_A 7 "other.test.") example_PROXY_IP))
    as HA by reflexivity.
  assert (MsgSetECSWithAddr (query_A 7 "other.test.") (env_local_ip env_S1)
          = Done (with_ecs (query_A 7 "other.test.") example_LOCAL_IP))
    as HB by reflexivity.
  destruct (unknown_foreign_proxy env_S1 (query_A 7 "other.test.")
              "other.test" _ _
              (response_A (with_ecs (query_A 7 "other.test.") example_LOCAL_IP)
                          "foo.example.net." [93; 184; 216; 34]%Z)
              0 (example_answer "foo.example.net." [93; 184; 216; 34]%Z)
              (Some [93; 184; 216; 34]%Z)
              Hmiss eq_refl eq_refl HA HB eq_refl eq_refl eq_refl
              (or_intror eq_refl)) as (_ & Hok & _).
  rewrite (Hok (response_A (with_ecs (query_A 7 "other.test.")
                                     example_PROXY_IP)
                  "foo.example.net." [93; 184; 216; 34]%Z)
               0 (example_answer "foo.example.net." [93; 184; 216; 34]%Z)
               (Some [93; 184; 216; 34]%Z) eq_refl eq_refl).
  split; reflexivity.
Defined.

Lemma unknown_probe_failed_witness :
  let req := query_A 7 "other.test." in
  handleDnsRequest env_all_down req
  = Traced [EvDomainGet "other.test"; EvMatchGFW "other.test";
            EvMatchObedient "other.test";
            EvRace ABROAD (with_ecs req example_PROXY_IP);
            EvRace ABROAD (with_ecs req example_LOCAL_IP);
            EvRace OBEDIENT req]
           (Done (Logged "timeout")).
Proof.
  cbv zeta.
  assert (misses_cache env_all_down (query_A 7 "other.test.") "other.test")
    as Hmiss by (by apply misses_cache_query_A).
  assert (MsgSetECSWithAddr (query_A 7 "other.test.")
            (env_proxy_ip env_all_down)
          = Done (with_ecs (query_A 7 "other.test.") example_PROXY_IP))
    as HA by reflexivity.
  assert (MsgSetECSWithAddr (query_A 7 "other.test.")
            (env_local_ip env_all_down)
          = Done (with_ecs (query_A 7 "other.test.") example_LOCAL_IP))
    as HB by reflexivity.
  destruct (unknown_probe_failed_falls_back env_all_down
              (query_A 7 "other.test.") "other.test" _ _
              Hmiss eq_refl eq_refl HA HB
              (or_introl (ex_intro _ "timeout" eq_refl))) as (Herr & _).
  exact (Herr "timeout" eq_refl).
Defined.

Lemma cache_writes_before_write_witness :
  let req := query_A 7 "foo.example.net." in
  let answer := example_answer "foo.example.net." [93; 184; 216; 34]%Z in
  ∃ resp,
    result (resolve env_S1_write_fails req) = Done (inl resp)
    ∧ env_write env_S1_write_fails resp = Some "write: broken pipe"
    ∧ result (handleDnsRequest env_S1_write_fails req)
      = Done (Logged "write: broken pipe")
    ∧ cache_adds_of (events (handleDnsRequest env_S1_write_fails req))
      = [EvDomainAdd "foo.example.net" answer _TRANS_PROXY;
         EvIPAdd "93.184.216.34" _TRANS_PROXY].
Proof.
  cbv zeta.
  assert (∃ resp, result (resolve env_S1_write_fails
                            (query_A 7 "foo.example.net."))
                  = Done (inl resp)) as [resp Hr] by (by eexists).
  destruct (cache_writes_come_in_pairs env_S1_write_fails
              (query_A 7 "foo.example.net.")) as (_ & _ & Hw).
  destruct (Hw resp "write: broken pipe" Hr eq_refl) as [Hlog Hadds].
  exists resp. split; [exact Hr|]. split; [reflexivity|].
  split; [exact Hlog|]. rewrite Hadds. reflexivity.
Defined.

Lemma reply_keeps_cached_address_witness :
  let resp := response_A (query_A 7 "www.cn.example.") "WWW.CN.EXAMPLE."
                         [1; 2; 3; 4]%Z in
  let answer := example_answer "WWW.CN.EXAMPLE." [1; 2; 3; 4]%Z in
  MsgExtractAnswer (Some resp) = Some (0, answer, Some [1; 2; 3; 4]%Z)
  ∧ MsgExtractAnswer (Some (reply_with "www.cn.example" resp 0 answer))
    = Some (0, example_answer "www.cn.example." [1; 2; 3; 4]%Z,
            Some [1; 2; 3; 4]%Z).
Proof.
  cbv zeta. split; [reflexivity|].
  destruct (reply_keeps_cached_address "www.cn.example"
              (response_A (query_A 7 "www.cn.example.") "WWW.CN.EXAMPLE."
                          [1; 2; 3; 4]%Z)
              0 (example_answer "WWW.CN.EXAMPLE." [1; 2; 3; 4]%Z)
              (Some [1; 2; 3; 4]%Z) eq_refl) as (Hex & _).
  exact Hex.
Defined.

Lemma dispatch_redirect_witness :
  let env := example_proxy_env env_obedient_up in
  let r := socks5_to AddrDomain "www.cn.example" in
  redirects_of (pevents (dispatch env r)) = [Some [1; 2; 3; 4]%Z]
  ∧ presult (dispatch env r)
    = Done (socks5_to AddrIPv4 "1.2.3.4", inl (Some _TRANS_DIRECT)).
Proof.
  cbv zeta.
  assert (Some [1; 2; 3; 4]%Z
          ∈ redirects_of
              (pevents (dispatch (example_proxy_env env_obedient_up)
                                 (socks5_to AddrDomain "www.cn.example"))))
    as Hin by (apply list_elem_of_singleton; reflexivity).
  exact (dispatch_redirect_means_direct
           (example_proxy_env env_obedient_up)
           (socks5_to AddrDomain "www.cn.example") _ Hin).
Defined.

Lemma gfw_domain_witness :
  let env := example_proxy_env env_S1 in
  let r := socks5_to AddrDomain "foo.example.net" in
  MatchGFW (env_matcher env_S1) "foo.example.net" = true
  ∧ presult (dispatch env r) = Done (r, inl (Some _TRANS_PROXY))
  ∧ praces_of (pevents (dispatch env r)) = []
  ∧ pcache_adds_of (pevents (dispatch env r)) = []
  ∧ redirects_of (pevents (dispatch env r)) = [].
Proof.
  cbv zeta. split; [reflexivity|].
  exact (gfw_domain_proxied_unresolved (example_proxy_env env_S1)
           (socks5_to AddrDomain "foo.example.net")
           eq_refl eq_refl eq_refl).
Defined.

Lemma obedient_domain_witness :
  let env := example_proxy_env env_obedient_up in
  let r := socks5_to AddrDomain "www.cn.example" in
  let q := SetQuestion 100 "www.cn.example." TypeA zero_Msg in
  let ip := Some [1; 2; 3; 4]%Z in
  env_race env_obedient_up OBEDIENT q
  = RaceOk (response_A q "www.cn.example." [1; 2; 3; 4]%Z)
  ∧ praces_of (pevents (dispatch env r)) = [(OBEDIENT, q)]
  ∧ presult (dispatch env r)
    = Done (setRedirect r ip, inl (Some _TRANS_DIRECT))
  ∧ redirects_of (pevents (dispatch env r)) = [ip]
  ∧ pcache_adds_of (pevents (dispatch env r))
    = [EvIPAdd "1.2.3.4" _TRANS_DIRECT;
       EvDomainAdd "www.cn.example"
                   (example_answer "www.cn.example." [1; 2; 3; 4]%Z)
                   _TRANS_DIRECT].
Proof.
  cbv zeta. split; [reflexivity|].
  assert (getAddrType (socks5_to AddrDomain "www.cn.example") = AddrDomain)
    as Ht by reflexivity.
  destruct (obedient_domain_always_direct
              (example_proxy_env env_obedient_up)
              (socks5_to AddrDomain "www.cn.example")
              Ht eq_refl eq_refl eq_refl) as (_ & Hraces & Hres & Hred & Hadds).
  split; [exact Hraces|]. split; [exact Hres|].
  split; [exact Hred|exact Hadds].
Defined.

Lemma unknown_domain_all_failed_witness :
  let env := example_proxy_env env_all_down in
  let r := socks5_to AddrDomain "other.test" in
  let q := with_ecs (SetQuestion 100 "other.test." TypeA zero_Msg)
                    example_LOCAL_IP in
  presult (dispatch env r) = Done (r, inl (Some _TRANS_PROXY))
  ∧ praces_of (pevents (dispatch env r))
    = [(ABROAD, q); (OBEDIENT, SetQuestion 101 "other.test." TypeA zero_Msg)]
  ∧ ecs_is_set q example_LOCAL_IP
  ∧ pcache_adds_of (pevents (dispatch env r)) = [].
Proof.
  cbv zeta.
  assert (getAddrType (socks5_to AddrDomain "other.test") = AddrDomain)
    as Ht by reflexivity.
  assert (env_local_ip (penv_dns (example_proxy_env env_all_down)) ≠ None)
    as Hlocal by discriminate.
  destruct (unknown_domain_all_failed_proxied
              (example_proxy_env env_all_down)
              (socks5_to AddrDomain "other.test")
              Ht eq_refl eq_refl eq_refl
              (λ _ _, ex_intro _ "timeout" eq_refl))
    as (Hres & Hraces & _ & _ & Hset & _ & Hadds & _).
  split; [exact Hres|]. split; [exact Hraces|].
  split; [exact (Hset Hlocal)|exact Hadds].
Defined.

Lemma ip_request_witness :
  let env := example_proxy_env env_S3 in
  let r := socks5_to AddrIPv4 "1.2.3.4" in
  presult (dispatch env r) = Done (r, inl (Some _TRANS_DIRECT))
  ∧ praces_of (pevents (dispatch env r)) = []
  ∧ redirects_of (pevents (dispatch env r)) = []
  ∧ pcache_adds_of (pevents (dispatch env r))
    = [EvIPAdd "1.2.3.4" _TRANS_DIRECT].
Proof.
  cbv zeta.
  exact (ip_request_by_cache_or_address (example_proxy_env env_S3)
           (socks5_to AddrIPv4 "1.2.3.4") (or_introl eq_refl)).
Defined.

Lemma cached_domain_witness :
  let env := example_proxy_env env_cached_direct in
  let r := socks5_to AddrDomain "www.cn.example" in
  praces_of (pevents (dispatch env r)) = []
  ∧ pcache_adds_of (pevents (dispatch env r)) = []
  ∧ presult (dispatch env r)
    = Done (socks5_to AddrIPv4 "1.2.3.4", inl (Some _TRANS_DIRECT))
  ∧ redirects_of (pevents (dispatch env r)) = [Some [1; 2; 3; 4]%Z].
Proof.
  cbv zeta.
  exact (cached_domain_by_cache (example_proxy_env env_cached_direct)
           (socks5_to AddrDomain "www.cn.example")
           (mkCell (example_answer "www.cn.example." [1; 2; 3; 4]%Z)
                   _TRANS_DIRECT)
           eq_refl eq_refl).
Defined.

Lemma http_request_witness :
  let env := example_proxy_env env_obedient_up in
  let r := newHTTPRequest "www.cn.example" "conn" in
  presult (handleProxyConn_dispatch env r)
  = Done (inl (mkHTTPRequest "www.cn.example" "conn" (Some _TRANS_DIRECT)))
  ∧ ∃ t, mkHTTPRequest "www.cn.example" "conn" (Some _TRANS_DIRECT)
         = mkHTTPRequest (http_URL_Hostname r) (http_conn r) (Some t).
Proof.
  cbv zeta.
  assert (presult (handleProxyConn_dispatch
                     (example_proxy_env env_obedient_up)
                     (newHTTPRequest "www.cn.example" "conn"))
          = Done (inl (mkHTTPRequest "www.cn.example" "conn"
                                     (Some _TRANS_DIRECT))))
    as Hres by reflexivity.
  split; [exact Hres|].
  exact (http_request_only_gets_a_server _ _ _ Hres).
Defined.

Lemma socks5_redirected_witness :
  let env := example_proxy_env env_obedient_up in
  let r := socks5_to AddrDomain "www.cn.example" in
  redirects_of (pevents (dispatch env r)) = [Some [1; 2; 3; 4]%Z]
  ∧ presult (handleProxyConn_dispatch env r)
    = Done (inl (mkSocks5Request (mkS5Req 1 (mkAddr AddrIPv4 "1.2.3.4" 443))
                                 "conn" (Some _TRANS_DIRECT))).
Proof.
  cbv zeta. split; [reflexivity|].
  assert (Some [1; 2; 3; 4]%Z
          ∈ redirects_of
              (pevents (dispatch (example_proxy_env env_obedient_up)
                                 (socks5_to AddrDomain "www.cn.example"))))
    as Hin by (apply list_elem_of_singleton; reflexivity).
  exact (socks5_redirected_request (example_proxy_env env_obedient_up)
           (socks5_to AddrDomain "www.cn.example") _ Hin).
Defined.

Lemma domain_list_files_witness :
  let items := ["example.net"; "example.org"] in
  legallyParseDomainList (inl (gfw_domain_list_written items))
  = inl ["example.net"; "example.org"; EmptyString]
  ∧ ∃ data, china_domain_list_written items = inl data
            ∧ legallyParseDomainList (inl data) = inl items.
Proof.
  cbv zeta.
  assert (Forall (λ item, has_LF item = false)
                 ["example.net"; "example.org"]) as Hall
    by (repeat constructor).
  destruct (domain_list_files_round_trip _ Hall) as [Hgfw Hchina].
  split; [exact Hgfw|].
  apply Hchina. discriminate.
Defined.

Lemma connLeftAppendReader_stream_witness :
  let cc := newConnLeftAppendReader [7; 8; 9]%Z [1; 2; 3]%Z in
  Reads (connLeftAppendReader_Read bytes_Reader_Read bytes_Reader_Read)
        cc [2; 2; 2; 2]
  = ([([1; 2]%Z, io_nil); ([3]%Z, io_nil); ([], io_nil);
      ([7; 8]%Z, io_nil)],
     mkConnLeftAppendReader [] true [9]%Z).
Proof.
  cbv zeta.
  assert (Forall (λ o : list Z * io_err, o.2 = io_nil)
            (Reads bytes_Reader_Read [1; 2; 3]%Z (take 2 [2; 2; 2; 2])).1)
    as Hnil
    by (cbn; repeat constructor).
  rewrite (connLeftAppendReader_stream bytes_Reader_Read bytes_Reader_Read
             [1; 2; 3]%Z [7; 8; 9]%Z [2; 2; 2; 2] 2 2 [] []
             Hnil eq_refl eq_refl).
  reflexivity.
Defined.


End examples_more.
